(** * Proximity competition: [time_to_destinations] and [get_closest_locations]

    A shallow embedding of the two functions of the "Proximity Competition"
    part of [companalysis.py], and the properties of the closest-location
    assignment proved about it.

    Conventions of the embedding.
    - Travel times are seconds.  The directions API reports integer
      durations and [time_to_destinations] stores them as they are, so a
      matrix cell is a [Z]; [np.inf] is the extra point [None] of
      [option Z].
    - A Python exception is a value of [exn]; a computation that may raise
      returns a [result].
    - A pandas [DataFrame] is its 2-D [values] with the row and column labels.
    - The directions provider and [np.argsort] are not code of this
      repository: the provider is an oracle of the [world], [np.argsort] a
      parameter constrained by NumPy's documented contract only.

    The later parts embed the helpers [get_next_2am_unix_timestamp] and
    [generate_unique_filename], the control flow of [product_scraper] (both
    files) and the maps scraper ([extract_place_info],
    [extract_search_results], [maps_scraper]).  There the browser, the file
    system, dask and the regular expressions are oracles; the loops, the
    lists and the exceptions of the Python code are embedded as they are
    written. *)

From Stdlib Require Import List ZArith Lia Bool String Ascii Arith.
From Stdlib Require Import Permutation Sorted.
From Stdlib Require DecimalString.
Import ListNotations.

(** ** Exceptions and results *)

Inductive exn : Type :=
| ValueError (msg : string)
| TypeError (msg : string)
| IndexError
| KeyError
| UnboundLocalError
| AttributeError
| JSONDecodeError
| Exception (msg : string) (code : Z).

Inductive result (A : Type) : Type :=
| Ok (a : A)
| Raise (e : exn).

Arguments Ok {A} a.
Arguments Raise {A} e.

Definition bind {A B : Type} (r : result A) (f : A -> result B) : result B :=
  match r with
  | Ok a => f a
  | Raise e => Raise e
  end.

Declare Scope py_scope.
Delimit Scope py_scope with py.
Notation "x <- c1 ;; c2" := (bind c1 (fun x => c2))
  (at level 61, c1 at next level, right associativity) : py_scope.
Open Scope py_scope.

(** [l[i]] for a non-negative index: [IndexError] out of range. *)
Definition getitem {A : Type} (l : list A) (i : nat) : result A :=
  match nth_error l i with
  | Some x => Ok x
  | None => Raise IndexError
  end.

(** ** Data frames *)

Record DataFrame : Type := mkDataFrame {
  values : list (list Z);
  index : list string;
  columns : list string
}.

(** The cell at row [i], column [j] of a 2-D array, when there is one. *)
Definition cell_at (a : list (list Z)) (i j : nat) : option Z :=
  match nth_error a i with
  | Some row => nth_error row j
  | None => None
  end.

Definition cell (df : DataFrame) (i j : nat) : option Z := cell_at (values df) i j.

(** [times_df.iloc[loc, k]]. *)
Definition iloc (df : DataFrame) (loc k : nat) : result Z :=
  match cell df loc k with
  | Some v => Ok v
  | None => Raise IndexError
  end.

(** ** NumPy pieces used by the assignment *)

(** [a < max_time], elementwise on a 2-D array. *)
Definition lt_scalar (a : list (list Z)) (max_time : Z) : list (list bool) :=
  map (map (fun v => (v <? max_time)%Z)) a.

(** [np.nonzero] of a 2-D boolean array: the positions of the [True] cells
    in row-major order, as the array of row indices and the array of column
    indices. *)
Fixpoint nonzero_row (i j : nat) (row : list bool) : list (nat * nat) :=
  match row with
  | [] => []
  | b :: row' =>
      if b then (i, j) :: nonzero_row i (S j) row' else nonzero_row i (S j) row'
  end.

Fixpoint nonzero_from (i : nat) (a : list (list bool)) : list (nat * nat) :=
  match a with
  | [] => []
  | row :: a' => nonzero_row i 0 row ++ nonzero_from (S i) a'
  end.

Definition nonzero (a : list (list bool)) : list nat * list nat :=
  let pos := nonzero_from 0 a in (map fst pos, map snd pos).

(** [j_arr == k]. *)
Definition eq_scalar (j_arr : list nat) (k : nat) : list bool :=
  map (fun j => Nat.eqb j k) j_arr.

(** [i_arr[mask]] for a boolean mask of the same length. *)
Definition mask_index (i_arr : list nat) (mask : list bool) : list nat :=
  map fst (filter snd (combine i_arr mask)).

(** [a[idx]] for an integer index array: [IndexError] out of bounds. *)
Fixpoint fancy_index (a : list nat) (idx : list nat) : result (list nat) :=
  match idx with
  | [] => Ok []
  | p :: idx' =>
      x <- getitem a p ;;
      xs <- fancy_index a idx' ;;
      Ok (x :: xs)
  end.

(** [v < closest_dist] where [closest_dist] starts at [np.inf]. *)
Definition lt_dist (v : Z) (closest_dist : option Z) : bool :=
  match closest_dist with
  | None => true
  | Some d => (v <? d)%Z
  end.

(** ** The assignment loops of [get_closest_locations] *)

(** The inner loop, [for loc in same_loc]: the running minimum and the row
    that holds it.  [closest_loc] is a variable of the enclosing function:
    it is [None] while unbound and keeps its value from one destination to
    the next. *)
Fixpoint scan_same_loc (times_df : DataFrame) (k : nat) (same_loc : list nat)
    (closest_dist : option Z) (closest_loc : option nat)
    : result (option Z * option nat) :=
  match same_loc with
  | [] => Ok (closest_dist, closest_loc)
  | loc :: same_loc' =>
      v <- iloc times_df loc k ;;
      if lt_dist v closest_dist
      then scan_same_loc times_df k same_loc' (Some v) (Some loc)
      else scan_same_loc times_df k same_loc' closest_dist closest_loc
  end.

(** The outer loop, [for k in j_arr]: one pass per element of [j_arr], so
    one per eligible cell. *)
Fixpoint assign_loop (times_df : DataFrame) (i_arr j_arr : list nat)
    (ks : list nat) (closest_loc : option nat) (new_i_list new_j_list : list nat)
    : result (list nat * list nat) :=
  match ks with
  | [] => Ok (new_i_list, new_j_list)
  | k :: ks' =>
      let same_loc := mask_index i_arr (eq_scalar j_arr k) in
      scanned <- scan_same_loc times_df k same_loc None closest_loc ;;
      match snd scanned with
      | None => Raise UnboundLocalError
      | Some loc =>
          assign_loop times_df i_arr j_arr ks' (Some loc)
            (new_i_list ++ [loc]) (new_j_list ++ [k])
      end
  end.

(** Lines 476-496: the mask, its non-zero positions and the two lists the
    loop fills. *)
Definition new_lists (times_df : DataFrame) (max_time : Z)
    : result (list nat * list nat) :=
  let is_within_time := lt_scalar (values times_df) max_time in
  let '(i_arr, j_arr) := nonzero is_within_time in
  assign_loop times_df i_arr j_arr j_arr None [] [].

(** ** Sorting the pairs and rendering the report *)

(** What NumPy documents of [np.argsort] with its default [kind]: the result
    is a rearrangement of the positions [0 .. len(a)-1] that lists the keys
    in ascending order.  The default kind is not a stable sort, so nothing
    is said about positions of equal keys. *)
Definition argsort_contract (argsort : list nat -> list nat) : Prop :=
  forall a : list nat,
    Permutation (argsort a) (seq 0 (List.length a)) /\
    Sorted le (map (fun p => nth p a 0) (argsort a)).

(** A stable argsort keeps positions of equal keys in ascending order. *)
Definition argsort_stable (argsort : list nat -> list nat) : Prop :=
  forall a : list nat,
    Sorted (fun p q => nth p a 0 < nth q a 0 \/ (nth p a 0 = nth q a 0 /\ p < q))
           (argsort a).

(** One argsort that meets the contract and is stable: insertion of the
    (key, position) pairs, a pair going before the first pair whose key is
    not smaller. *)
Fixpoint insert_by_key (x : nat * nat) (l : list (nat * nat)) : list (nat * nat) :=
  match l with
  | [] => [x]
  | y :: l' =>
      if fst x <=? fst y then x :: y :: l' else y :: insert_by_key x l'
  end.

Definition sort_by_key (l : list (nat * nat)) : list (nat * nat) :=
  fold_right insert_by_key [] l.

Definition stable_argsort (a : list nat) : list nat :=
  map snd (sort_by_key (combine a (seq 0 (List.length a)))).

(** Lines 498-502: [sort_mask], the two re-indexed arrays and [comb_arr]. *)
Definition comb_arr_of (argsort : list nat -> list nat)
    (new_i_list new_j_list : list nat) : result (list (nat * nat)) :=
  let sort_mask := argsort new_i_list in
  new_i_arr <- fancy_index new_i_list sort_mask ;;
  new_j_arr <- fancy_index new_j_list sort_mask ;;
  Ok (combine new_i_arr new_j_arr).

(** The line feed of the f-string. *)
Definition nl : string := String "010"%char EmptyString.

(** Lines 508-511: the f-string. *)
Definition output_string (origin_name origin_address
                          destination_name destination_address : string) : string :=
  ("Origin Name: " ++ origin_name ++ nl ++
   "Origin Address: " ++ origin_address ++ nl ++
   "Destination Name: " ++ destination_name ++ nl ++
   "Destination Address: " ++ destination_address ++ nl)%string.

(** A sequence argument: a Python list or a 1-D [ndarray] of strings. *)
Record pyseq : Type := mkSeq {
  is_ndarray : bool;
  items : list string
}.

Definition len (s : pyseq) : nat := List.length (items s).

(** Lines 506-513: [for i, j in comb_arr]. *)
Fixpoint render_loop (origin_addresses origin_names
                      destination_addresses destination_names : pyseq)
    (comb_arr : list (nat * nat)) (closest_locations : list string)
    : result (list string) :=
  match comb_arr with
  | [] => Ok closest_locations
  | (i, j) :: comb_arr' =>
      origin_name <- getitem (items origin_names) i ;;
      origin_address <- getitem (items origin_addresses) i ;;
      destination_name <- getitem (items destination_names) j ;;
      destination_address <- getitem (items destination_addresses) j ;;
      render_loop origin_addresses origin_names
                  destination_addresses destination_names comb_arr'
                  (closest_locations ++
                   [output_string origin_name origin_address
                                  destination_name destination_address])
  end.

(** Lines 476-502: the assignment records [comb_arr] of a matrix. *)
Definition assignment_records (argsort : list nat -> list nat)
    (times_df : DataFrame) (max_time : Z) : result (list (nat * nat)) :=
  new_lists_pair <- new_lists times_df max_time ;;
  comb_arr_of argsort (fst new_lists_pair) (snd new_lists_pair).

(** Lines 476-515: everything [get_closest_locations] does once [times_df]
    holds a matrix. *)
Definition closest_from_matrix (argsort : list nat -> list nat)
    (origin_addresses origin_names destination_addresses destination_names : pyseq)
    (max_time : Z) (times_df : DataFrame) : result (DataFrame * list string) :=
  comb_arr <- assignment_records argsort times_df max_time ;;
  closest_locations <-
    render_loop origin_addresses origin_names
                destination_addresses destination_names comb_arr [] ;;
  Ok (times_df, closest_locations).

(** ** The travel-time provider, [time_to_destinations] *)

(** The query parameters of one directions request. *)
Record request : Type := mkRequest {
  origin : string;
  destination : string;
  departure_time : Z;
  key : string
}.

(** What the loop reads of a decoded answer: [data["status"]] and
    [data["routes"][0]["legs"][0]["duration"]["value"]], which is absent
    when the answer has no such route. *)
Record directions : Type := mkDirections {
  status : string;
  duration_value : option Z
}.

(** An HTTP response: [json] is [None] when the body does not decode. *)
Record response : Type := mkResponse {
  status_code : Z;
  json : option directions
}.

(** What the function reads from outside: the answer of the directions API
    to the request issued for the pair (i, j), and the timestamp
    [get_next_2am_unix_timestamp()] returns when row [i] starts. *)
Record world : Type := mkWorld {
  requests_get : nat -> nat -> request -> response;
  get_next_2am_unix_timestamp : nat -> Z
}.

(** What the function does to the outside, in order: the requests it
    issued and the lines it printed. *)
Record io : Type := mkIo {
  sent : list request;
  printed : list string
}.

Definition no_io : io := mkIo [] [].

(** [np.zeros((n, m))]. *)
Definition zeros (n m : nat) : list (list Z) := repeat (repeat 0%Z m) n.

Fixpoint set_nth {A : Type} (n : nat) (x : A) (l : list A) {struct l} : list A :=
  match l, n with
  | [], _ => []
  | _ :: l', O => x :: l'
  | y :: l', S n' => y :: set_nth n' x l'
  end.

(** [times_arr[i, j] = v]; the loops only write inside the array. *)
Definition set_cell (times_arr : list (list Z)) (i j : nat) (v : Z)
    : list (list Z) :=
  match nth_error times_arr i with
  | Some row => set_nth i (set_nth j v row) times_arr
  | None => times_arr
  end.

(** The warning of line 436. *)
Definition no_valid_route (destination data_status : string) : string :=
  ("No valid route for " ++ destination ++ ". " ++ nl ++
   "Status: " ++ data_status)%string.

Definition api_error : string := "Google Maps API error: ".

(** Lines 418-438: [for j, destination in enumerate(destination_addresses)]. *)
Fixpoint destination_loop (w : world) (apikey origin : string)
    (departure_time : Z) (i j : nat) (destination_addresses : list string)
    (tr : io) (times_arr : list (list Z)) : io * result (list (list Z)) :=
  match destination_addresses with
  | [] => (tr, Ok times_arr)
  | destination :: rest =>
      let params := mkRequest origin destination departure_time apikey in
      let response := requests_get w i j params in
      let tr1 := mkIo (sent tr ++ [params]) (printed tr) in
      if (status_code response =? 200)%Z then
        match json response with
        | None => (tr1, Raise JSONDecodeError)
        | Some data =>
            if String.eqb (status data) "OK" then
              match duration_value data with
              | None => (tr1, Raise KeyError)
              | Some duration_seconds =>
                  destination_loop w apikey origin departure_time i (S j) rest
                    tr1 (set_cell times_arr i j duration_seconds)
              end
            else
              destination_loop w apikey origin departure_time i (S j) rest
                (mkIo (sent tr1)
                      (printed tr1 ++ [no_valid_route destination (status data)]))
                times_arr
        end
      else (tr1, Raise (Exception api_error (status_code response)))
  end.

(** Lines 411-438: [for i, origin in enumerate(origin_addresses)]. *)
Fixpoint origin_loop (w : world) (apikey : string) (i : nat)
    (origin_addresses destination_addresses : list string)
    (tr : io) (times_arr : list (list Z)) : io * result (list (list Z)) :=
  match origin_addresses with
  | [] => (tr, Ok times_arr)
  | origin :: rest =>
      let departure_time := get_next_2am_unix_timestamp w i in
      match destination_loop w apikey origin departure_time i 0
              destination_addresses tr times_arr with
      | (tr', Ok times_arr') =>
          origin_loop w apikey (S i) rest destination_addresses tr' times_arr'
      | (tr', Raise e) => (tr', Raise e)
      end
  end.

Definition names_shape_origin : string :=
  "origin_names must have the same shape as origin_addresses.".
Definition names_shape_destination : string :=
  "destination_names must have the same shape as destination_addresses.".
Definition names_number : string :=
  "The number of origin and destination names must match the number of addresses.".
Definition api_key_required : string :=
  "A Google Maps API key is required to calculate the travel times.".

(** [not apikey]: [None] and the empty string are falsy. *)
Definition not_apikey (apikey : option string) : bool :=
  match apikey with
  | None => true
  | Some EmptyString => true
  | Some (String _ _) => false
  end.

(** [time_to_destinations].  The arguments are lists or 1-D arrays, so the
    [TypeError] tests of lines 379-396 pass; the tests of lines 397-408 come
    next, and only then the loop that issues requests.  Once [not apikey]
    is false the key is a string, which the last [match] takes out of its
    option. *)
Definition time_to_destinations (w : world)
    (origin_addresses origin_names destination_addresses destination_names : pyseq)
    (apikey : option string) : io * result DataFrame :=
  let n := len origin_addresses in
  let m := len destination_addresses in
  let times_arr := zeros n m in
  if is_ndarray origin_names && negb (len origin_names =? n) then
    (no_io, Raise (ValueError names_shape_origin))
  else if is_ndarray destination_names && negb (len destination_names =? m) then
    (no_io, Raise (ValueError names_shape_destination))
  else if negb (len origin_names =? n) || negb (len destination_names =? m) then
    (no_io, Raise (ValueError names_number))
  else if not_apikey apikey then
    (no_io, Raise (ValueError api_key_required))
  else
    match apikey with
    | None => (no_io, Raise (ValueError api_key_required))
    | Some the_key =>
        match origin_loop w the_key 0 (items origin_addresses)
                (items destination_addresses) no_io times_arr with
        | (tr, Ok times_arr') =>
            (tr, Ok (mkDataFrame times_arr' (items origin_names)
                                 (items destination_names)))
        | (tr, Raise e) => (tr, Raise e)
        end
    end.

(** ** [get_closest_locations] *)

Definition truth_value_ambiguous : string :=
  "The truth value of a DataFrame is ambiguous. Use a.empty, a.bool(), a.item(), a.any() or a.all().".

(** [not times_df]: [None] is falsy; pandas refuses to give a [DataFrame] a
    truth value and raises [ValueError]. *)
Definition not_times_df (times_df : option DataFrame) : result bool :=
  match times_df with
  | None => Ok true
  | Some _ => Raise (ValueError truth_value_ambiguous)
  end.

(** [get_closest_locations], lines 470-515.  [times_df] and [apikey] are the
    keyword arguments, [None] by default. *)
Definition get_closest_locations (w : world) (argsort : list nat -> list nat)
    (origin_addresses origin_names destination_addresses destination_names : pyseq)
    (max_time : Z) (times_df : option DataFrame) (apikey : option string)
    : io * result (DataFrame * list string) :=
  match not_times_df times_df with
  | Raise e => (no_io, Raise e)
  | Ok no_matrix =>
      if no_matrix && not_apikey apikey then
        (no_io, Raise (ValueError api_key_required))
      else
        match not_times_df times_df with
        | Raise e => (no_io, Raise e)
        | Ok true =>
            match time_to_destinations w origin_addresses origin_names
                    destination_addresses destination_names apikey with
            | (tr, Ok df) =>
                (tr, closest_from_matrix argsort origin_addresses origin_names
                       destination_addresses destination_names max_time df)
            | (tr, Raise e) => (tr, Raise e)
            end
        | Ok false =>
            match times_df with
            | Some df =>
                (no_io, closest_from_matrix argsort origin_addresses origin_names
                          destination_addresses destination_names max_time df)
            | None => (no_io, Raise AttributeError)
            end
        end
  end.

(** ** Reading a report block back *)





(** ** The vocabulary of the properties *)

(** The eligible positions of a matrix, as line 478 lists them. *)
Definition eligible_cells (times_df : DataFrame) (max_time : Z) : list (nat * nat) :=
  nonzero_from 0 (lt_scalar (values times_df) max_time).

(** Cell (i, j) exists and is strictly below the threshold. *)
Definition eligible (times_df : DataFrame) (max_time : Z) (i j : nat) : Prop :=
  exists v : Z, cell times_df i j = Some v /\ (v < max_time)%Z.

(** Row [w] is the closest eligible row of column [k]: it is eligible, no
    eligible row of the column has a smaller time, and no eligible row with
    the same time has a smaller index. *)
Definition closest_row (times_df : DataFrame) (max_time : Z) (k w : nat) : Prop :=
  exists v : Z,
    cell times_df w k = Some v /\ (v < max_time)%Z /\
    forall (r : nat) (u : Z),
      cell times_df r k = Some u -> (u < max_time)%Z ->
      (v <= u)%Z /\ (u = v -> w <= r).

(** The rows that line 486 selects for column [k]. *)
Definition same_loc_of (times_df : DataFrame) (max_time : Z) (k : nat) : list nat :=
  let '(i_arr, j_arr) := nonzero (lt_scalar (values times_df) max_time) in
  mask_index i_arr (eq_scalar j_arr k).

(** The row the inner loop leaves in [closest_loc] for column [k]. *)
Definition chosen_row (times_df : DataFrame) (max_time : Z) (k : nat) : nat :=
  match scan_same_loc times_df k (same_loc_of times_df max_time k) None None with
  | Ok (_, Some w) => w
  | _ => 0
  end.

(** The pairs the outer loop appends, in the order it appends them: one per
    eligible cell, the chosen row of the cell's column with that column. *)
Definition scan_records (times_df : DataFrame) (max_time : Z) : list (nat * nat) :=
  map (fun c => (chosen_row times_df max_time (snd c), snd c))
      (eligible_cells times_df max_time).

(** Among records of equal origin, [comb_arr] keeps the order of [scan]. *)
Definition scan_order_kept (scan comb_arr : list (nat * nat)) : Prop :=
  forall w : nat,
    filter (fun r => fst r =? w) comb_arr = filter (fun r => fst r =? w) scan.

(** Among records of equal origin, the destination index never decreases. *)
Definition destinations_ascending (comb_arr : list (nat * nat)) : Prop :=
  forall w : nat, Sorted le (map snd (filter (fun r => fst r =? w) comb_arr)).

(** The number of cells strictly below the threshold. *)
Definition count_below (times_df : DataFrame) (max_time : Z) : nat :=
  list_sum (map (fun row => List.length (filter (fun v => (v <? max_time)%Z) row))
                (values times_df)).

(** The number of rows of column [k] strictly below the threshold. *)
Definition count_below_in_column (times_df : DataFrame) (max_time : Z) (k : nat) : nat :=
  List.length
    (filter (fun row => match nth_error row k with
                        | Some v => (v <? max_time)%Z
                        | None => false
                        end)
            (values times_df)).

(** The label sequences are long enough for the matrix: the caller keeps
    them consistent with its dimensions. *)
Definition labels_cover (times_df : DataFrame)
    (origin_addresses origin_names destination_addresses destination_names : pyseq)
    : Prop :=
  List.length (values times_df) <= len origin_names /\
  List.length (values times_df) <= len origin_addresses /\
  Forall (fun row => List.length row <= len destination_names /\
                     List.length row <= len destination_addresses)
         (values times_df).

(** The block of the record (i, j). *)
Definition block_of (origin_addresses origin_names
                     destination_addresses destination_names : pyseq)
    (r : nat * nat) : string :=
  output_string (nth (fst r) (items origin_names) EmptyString)
                (nth (fst r) (items origin_addresses) EmptyString)
                (nth (snd r) (items destination_names) EmptyString)
                (nth (snd r) (items destination_addresses) EmptyString).

(** Python's [enumerate], counting from [start]. *)
Definition enumerate_from {A : Type} (start : nat) (l : list A) : list (nat * A) :=
  combine (seq start (List.length l)) l.

(** The request the loop issues for origin [o] of row [i] and destination
    [d], and the provider's answer to it when [d] is at column [j]. *)
Definition request_for (w : world) (the_key : string) (i : nat) (o d : string)
    : request :=
  mkRequest o d (get_next_2am_unix_timestamp w i) the_key.

Definition answer (w : world) (the_key : string) (i j : nat) (o d : string)
    : response :=
  requests_get w i j (request_for w the_key i o d).

(** An answer the loop gets past: transport status 200, a body that decodes,
    and a duration when the API status is OK. *)
Definition answered (r : response) : Prop :=
  status_code r = 200%Z /\
  exists data : directions,
    json r = Some data /\ (status data = "OK"%string -> duration_value data <> None).

(** The API status of the answer is OK. *)
Definition routed (r : response) : bool :=
  match json r with
  | Some data => String.eqb (status data) "OK"
  | None => false
  end.

(** What the cell of the pair holds after the loop got past its answer: the
    duration of the route, or the initial 0 when the API status is not OK. *)
Definition travel_time (r : response) : Z :=
  match json r with
  | Some data =>
      if String.eqb (status data) "OK" then
        match duration_value data with Some v => v | None => 0%Z end
      else 0%Z
  | None => 0%Z
  end.

(** What the loop prints for the answer: nothing, or the warning. *)
Definition warning_of (r : response) (d : string) : list string :=
  match json r with
  | Some data =>
      if String.eqb (status data) "OK" then [] else [no_valid_route d (status data)]
  | None => []
  end.

(** The requests of all the pairs, in row-major order. *)
Definition all_requests (w : world) (the_key : string)
    (origin_addresses destination_addresses : pyseq) : list request :=
  flat_map (fun io =>
              map (fun jd => request_for w the_key (fst io) (snd io) (snd jd))
                  (enumerate_from 0 (items destination_addresses)))
           (enumerate_from 0 (items origin_addresses)).

(** ** Sample inputs *)

(** The worked example of the specification: origins A and B, destinations
    X and Y, threshold 600. *)
Definition sample_df : DataFrame :=
  mkDataFrame [[500; 900]; [300; 300]]%Z ["A"; "B"]%string ["X"; "Y"]%string.
Definition sample_origin_names : pyseq := mkSeq false ["A"; "B"]%string.
Definition sample_origin_addresses : pyseq :=
  mkSeq false ["1 First St"; "2 Second St"]%string.
Definition sample_destination_names : pyseq := mkSeq false ["X"; "Y"]%string.
Definition sample_destination_addresses : pyseq :=
  mkSeq false ["10 Tenth Ave"; "20 Twentieth Ave"]%string.

(** One cell, equal to the threshold 600. *)
Definition boundary_df : DataFrame := mkDataFrame [[600]]%Z ["A"]%string ["X"]%string.

(** Row 1 is the closest row of both columns, and row 0 is eligible for
    column 1 only. *)
Definition crossing_df : DataFrame :=
  mkDataFrame [[900; 500]; [100; 100]]%Z ["A"; "B"]%string ["X"; "Y"]%string.

(** A provider that answers every request with a route of 100 * i + j
    seconds, and a clock that always reads the same timestamp. *)
Definition sample_world : world :=
  mkWorld (fun i j _ =>
             mkResponse 200 (Some (mkDirections "OK" (Some (Z.of_nat (100 * i + j))))))
          (fun _ => 1700000000%Z).

(** A provider that finds no route for the pair (0, 1) and a route of
    100 * i + j + 60 seconds for every other pair. *)
Definition patchy_world : world :=
  mkWorld (fun i j _ =>
             if (i =? 0) && (j =? 1)
             then mkResponse 200 (Some (mkDirections "ZERO_RESULTS" None))
             else mkResponse 200
                    (Some (mkDirections "OK" (Some (Z.of_nat (100 * i + j + 60))))))
          (fun _ => 1700000000%Z).

(** A provider whose transport fails with 503 for the pair (1, 0). *)
Definition outage_world : world :=
  mkWorld (fun i j _ =>
             if (i =? 1) && (j =? 0)
             then mkResponse 503 None
             else mkResponse 200 (Some (mkDirections "OK" (Some 60%Z))))
          (fun _ => 1700000000%Z).

(** Every cell is at or above 600. *)
Definition far_df : DataFrame :=
  mkDataFrame [[700; 900]; [600; 1000]]%Z ["A"; "B"]%string ["X"; "Y"]%string.

(** * The helper [get_next_2am_unix_timestamp] (lines 339-354) *)

(** A naive [datetime]: the ordinal of its date ([date.toordinal()]) and its
    time of day.  Dates stay below [datetime.max], as the current time
    does, so adding a day never overflows. *)
Record datetime : Type := mkDatetime {
  ordinal : Z;
  hour : Z;
  minute : Z;
  second : Z;
  microsecond : Z
}.

(** The order of naive datetimes: date first, then each field of the time. *)
Definition datetime_compare (a b : datetime) : comparison :=
  match (ordinal a ?= ordinal b)%Z with
  | Eq =>
      match (hour a ?= hour b)%Z with
      | Eq =>
          match (minute a ?= minute b)%Z with
          | Eq =>
              match (second a ?= second b)%Z with
              | Eq => (microsecond a ?= microsecond b)%Z
              | c => c
              end
          | c => c
          end
      | c => c
      end
  | c => c
  end.

(** [a >= b]. *)
Definition datetime_ge (a b : datetime) : bool :=
  match datetime_compare a b with
  | Lt => false
  | _ => true
  end.

(** [d + timedelta(days=n)]. *)
Definition add_days (d : datetime) (n : Z) : datetime :=
  mkDatetime (ordinal d + n) (hour d) (minute d) (second d) (microsecond d).

(** Lines 347-352: the 2 a.m. the function picks when the clock reads [now]. *)
Definition next_2am_after (now : datetime) : datetime :=
  let next_2am := mkDatetime (ordinal now) 2 0 0 0 in
  if datetime_ge now next_2am then add_days next_2am 1 else next_2am.

(** [get_next_2am_unix_timestamp()] when [datetime.now()] reads [now];
    [mktime] is the local-time conversion of [time.mktime], whose result for
    a whole second [int] leaves as it is. *)
Definition get_next_2am_unix_timestamp_at (mktime : datetime -> Z) (now : datetime)
    : Z :=
  mktime (next_2am_after now).

(** The fields of a time of day are in their ranges. *)
Definition valid_time (d : datetime) : Prop :=
  (0 <= hour d < 24)%Z /\ (0 <= minute d < 60)%Z /\
  (0 <= second d < 60)%Z /\ (0 <= microsecond d < 1000000)%Z.

(** Microseconds of naive time since the start of day 0. *)
Definition microseconds_of (d : datetime) : Z :=
  ((((ordinal d * 24 + hour d) * 60 + minute d) * 60 + second d) * 1000000
   + microsecond d)%Z.

(** * The helper [generate_unique_filename] (lines 523-530) *)

(** [f"{counter}"]. *)
Definition str_of_nat (n : nat) : string :=
  DecimalString.NilEmpty.string_of_uint (Nat.to_uint n).

(** The names the loop tries, in order: the plain one, then the numbered
    ones from 1 on. *)
Definition nth_candidate (base extension : string) (k : nat) : string :=
  match k with
  | O => (base ++ extension)%string
  | S _ => (base ++ "_" ++ str_of_nat k ++ extension)%string
  end.

(** Lines 527-529, [while os.path.exists(new_filename)].  The loop has no
    bound of its own: [fuel] counts the tests it may make, and [None] says
    that it is still running when they are used up. *)
Fixpoint unique_loop (fuel : nat) (path_exists : string -> bool)
    (base extension new_filename : string) (counter : nat) : option string :=
  match fuel with
  | O => None
  | S fuel' =>
      if path_exists new_filename then
        unique_loop fuel' path_exists base extension
          (base ++ "_" ++ str_of_nat counter ++ extension)%string (S counter)
      else Some new_filename
  end.

(** [generate_unique_filename].  [splitext] is [os.path.splitext] and
    [path_exists] is [os.path.exists] on the file system as it is during the
    call. *)
Definition generate_unique_filename (splitext : string -> string * string)
    (path_exists : string -> bool) (fuel : nat) (filename extension : string)
    : option string :=
  let '(base, ext) := splitext filename in
  unique_loop fuel path_exists base extension (base ++ extension)%string 1.

(** A file system on which [report.csv] and [report_1.csv] exist. *)
Definition two_reports (path : string) : bool :=
  String.eqb path "report.csv" || String.eqb path "report_1.csv".

(** [os.path.splitext] on names with one dot and no directory. *)
Definition splitext_plain (p : string) : string * string :=
  match String.index 0 "." p with
  | Some n => (String.substring 0 n p, String.substring n (String.length p - n) p)
  | None => (p, EmptyString)
  end.

(** * The pricing scraper, [product_scraper] (lines 769-880) *)

(** ** Strings and file names *)

(** [s.split(sep)] for a separator of one character: never an empty list. *)
Fixpoint split_char (sep : ascii) (s : string) : list string :=
  match s with
  | EmptyString => [EmptyString]
  | String c rest =>
      if Ascii.eqb c sep then EmptyString :: split_char sep rest
      else
        match split_char sep rest with
        | [] => [String c EmptyString]
        | part :: parts => String c part :: parts
        end
  end.

(** Lines 794-795: [filename.split(".")[-1] == "csv"] and, when it holds,
    [".".join(filename.split(".")[:-1])]. *)
Definition without_csv (filename : string) : string :=
  if String.eqb (last (split_char "." filename) EmptyString) "csv"
  then String.concat "." (removelast (split_char "." filename))
  else filename.

(** The truth value of an optional string: [None] and [""] are false. *)
Definition truthy (filename : option string) : bool :=
  match filename with
  | Some (String _ _) => true
  | _ => false
  end.

(** Lines 793-795. *)
Definition checked_filename (filename : option string) : option string :=
  if truthy filename then option_map without_csv filename else filename.

(** Lines 326-329 of [maps_scraper]: the path the final frame is exported
    to. *)
Definition export_path (export_final_filename : string) : string :=
  if String.eqb (last (split_char "." export_final_filename) EmptyString) "csv"
  then export_final_filename
  else (export_final_filename ++ ".csv")%string.

(** ** Store names and store links *)

(** An argument that should be a [str]. *)
Inductive pyobj : Type :=
| PyStr (s : string)
| PyOther.

(** What the results page shows once [setup_extraction] has opened it: the
    text of each [h3] element and the [href] of each store card, both in
    document order.  A card without the attribute has [None]. *)
Record store_page : Type := mkStorePage {
  h3_texts : list string;
  store_card_hrefs : list (option string)
}.

(** Lines 814-817. *)
Fixpoint collect_store_names (stores_list : list string) (store_names : list string)
    : list string :=
  match stores_list with
  | [] => store_names
  | name :: rest =>
      if negb (String.eqb name "") && negb (existsb (String.eqb name) store_names)
      then collect_store_names rest (store_names ++ [name])
      else collect_store_names rest store_names
  end.

Definition href_eqb (a b : option string) : bool :=
  match a, b with
  | Some x, Some y => String.eqb x y
  | None, None => true
  | _, _ => false
  end.

(** Lines 824-827. *)
Fixpoint collect_store_urls (store_urls_list : list (option string))
    (store_urls : list (option string)) : list (option string) :=
  match store_urls_list with
  | [] => store_urls
  | store_url :: rest =>
      if negb (existsb (href_eqb store_url) store_urls)
      then collect_store_urls rest (store_urls ++ [store_url])
      else collect_store_urls rest store_urls
  end.

(** Lines 833-835, the listing of the debug mode: it reads [store_names[i]]
    and [store_urls[i]] for every [i] below [len(store_names)], outside any
    [try].  Standard output is not part of the model. *)
Fixpoint debug_listing (store_names : list string) (store_urls : list (option string))
    (idx : list nat) : result unit :=
  match idx with
  | [] => Ok tt
  | i :: rest =>
      _ <- getitem store_names i ;;
      _ <- getitem store_urls i ;;
      debug_listing store_names store_urls rest
  end.

(** One delayed call of [extract_product_info]: the link and the name. *)
Definition task : Type := (option string * string)%type.

(** Line 854, the list comprehension over [range(max_stores)]. *)
Fixpoint make_tasks (store_urls : list (option string)) (store_names : list string)
    (idx : list nat) : result (list task) :=
  match idx with
  | [] => Ok []
  | i :: rest =>
      store_url <- getitem store_urls i ;;
      store_name <- getitem store_names i ;;
      tasks <- make_tasks store_urls store_names rest ;;
      Ok ((store_url, store_name) :: tasks)
  end.

(** ** The shop and the call *)

(** What is outside the program.  [setup_extraction] drives the browser to
    the results page or raises; [dask_compute] runs the delayed
    [extract_product_info] calls and gives their results in the order of the
    tasks, or raises; [to_csv] says for the first and for the second attempt
    whether writing to a path raises, and what.  The oracles raise subclasses
    of [Exception] only.  [R] is the type of a product row. *)
Record shop (R : Type) : Type := mkShop {
  setup_extraction : string -> string -> bool -> result store_page;
  dask_compute : list task -> bool -> result (list (list R));
  to_csv : nat -> string -> list R -> option exn;
  os_path_exists : string -> bool;
  os_path_splitext : string -> string * string
}.

Arguments setup_extraction {R} s _ _ _.
Arguments dask_compute {R} s _ _.
Arguments to_csv {R} s _ _ _.
Arguments os_path_exists {R} s _.
Arguments os_path_splitext {R} s _.

(** What a call has done to the outside: whether the browser was opened, the
    paths [to_csv] was called with, in order, and whether [browser.quit()]
    was reached. *)
Record shop_log : Type := mkShopLog {
  opened : bool;
  csv_paths : list string;
  quit : bool
}.

Definition max_stores_message : string := "max_stores must be greater than 0.".
Definition search_query_message : string := "search_query must be a string.".
Definition location_message : string := "location must be a string.".

(** Lines 870 and 873-874: the path of the first attempt, and of the second
    one for the name [generate_unique_filename] returned. *)
Definition first_path (filename : string) : string :=
  ("pricing files/" ++ filename ++ ".csv")%string.

Definition second_path (new_filename : string) : string :=
  ("pricing files/" ++ new_filename ++ ".csv")%string.

(** Lines 867-880.  [None]: the loop of [generate_unique_filename] is still
    running after [fuel] tests. *)
Definition save_and_quit {R : Type} (w : shop R) (fuel : nat)
    (filename : option string) (all_stores_df : list R)
    : option (shop_log * result (list R)) :=
  match filename with
  | Some (String c f) =>
      let name := String c f in
      match to_csv w 0 (first_path name) all_stores_df with
      | None => Some (mkShopLog true [first_path name] true, Ok all_stores_df)
      | Some _ =>
          match generate_unique_filename (os_path_splitext w) (os_path_exists w)
                  fuel (first_path name) ".csv" with
          | None => None
          | Some new_filename =>
              match to_csv w 1 (second_path new_filename) all_stores_df with
              | None =>
                  Some (mkShopLog true [first_path name; second_path new_filename]
                          true, Ok all_stores_df)
              | Some e =>
                  Some (mkShopLog true [first_path name; second_path new_filename]
                          false, Raise e)
              end
          end
      end
  | _ => Some (mkShopLog true [] true, Ok all_stores_df)
  end.

(** Lines 856-880: the tasks are computed, their results concatenated, the
    frame saved. *)
Definition run_tasks {R : Type} (w : shop R) (fuel : nat)
    (filename : option string) (headless : bool) (tasks : list task)
    : option (shop_log * result (list R)) :=
  match dask_compute w tasks headless with
  | Raise e => Some (mkShopLog true [] false, Raise e)
  | Ok results => save_and_quit w fuel filename (List.concat results)
  end.

(** Lines 810-811. *)
Definition capped (max_stores : Z) (stores_list : list string) : Z :=
  if (Z.of_nat (List.length stores_list) <? max_stores)%Z
  then Z.of_nat (List.length stores_list)
  else max_stores.

(** [product_scraper].  [adjust] tells the two files apart: only
    [nels_companalysis.py] has [max_stores = min(max_stores, len(store_urls))]
    (its line 395) before the tasks are made. *)
Definition product_scraper_of {R : Type} (adjust : bool) (w : shop R) (fuel : nat)
    (search_query location : pyobj) (max_stores : Z) (filename : option string)
    (headless debug_mode : bool) : option (shop_log * result (list R)) :=
  if (max_stores <? 1)%Z then
    Some (mkShopLog false [] false, Raise (ValueError max_stores_message))
  else
    match search_query with
    | PyOther => Some (mkShopLog false [] false, Raise (TypeError search_query_message))
    | PyStr query =>
        match location with
        | PyOther =>
            Some (mkShopLog false [] false, Raise (TypeError location_message))
        | PyStr place =>
            let filename := checked_filename filename in
            match setup_extraction w query place headless with
            | Raise e => Some (mkShopLog false [] false, Raise e)
            | Ok page =>
                let stores_list := h3_texts page in
                let max_stores := capped max_stores stores_list in
                let store_names := collect_store_names stores_list [] in
                let store_urls := collect_store_urls (store_card_hrefs page) [] in
                match (if debug_mode
                       then debug_listing store_names store_urls
                              (seq 0 (List.length store_names))
                       else Ok tt) with
                | Raise e => Some (mkShopLog true [] false, Raise e)
                | Ok _ =>
                    let max_stores :=
                      if adjust
                      then Z.min max_stores (Z.of_nat (List.length store_urls))
                      else max_stores in
                    match make_tasks store_urls store_names
                            (seq 0 (Z.to_nat max_stores)) with
                    | Raise e => Some (mkShopLog true [] false, Raise e)
                    | Ok tasks => run_tasks w fuel filename headless tasks
                    end
                end
            end
        end
    end.

(** [product_scraper] of [companalysis.py]. *)
Definition product_scraper {R : Type} :
    shop R -> nat -> pyobj -> pyobj -> Z -> option string -> bool -> bool ->
    option (shop_log * result (list R)) :=
  product_scraper_of false.

(** [product_scraper] of [nels_companalysis.py]. *)
Definition nels_product_scraper {R : Type} :
    shop R -> nat -> pyobj -> pyobj -> Z -> option string -> bool -> bool ->
    option (shop_log * result (list R)) :=
  product_scraper_of true.

(** [max_stores] after lines 810-811, as a number of iterations. *)
Definition stores_wanted (max_stores : Z) (page : store_page) : nat :=
  Z.to_nat (capped max_stores (h3_texts page)).

(** The number of tasks the call asks for, with the adjustment of
    [nels_companalysis.py] or without. *)
Definition tasks_wanted (adjust : bool) (max_stores : Z) (page : store_page) : nat :=
  if adjust
  then Nat.min (stores_wanted max_stores page)
         (List.length (collect_store_urls (store_card_hrefs page) []))
  else stores_wanted max_stores page.

(** A results page with a repeated heading and an empty one. *)
Definition sample_page : store_page :=
  mkStorePage ["Churros Ana"; "Churros Ana"; ""; "El Moro"]%string
              [Some "/store/ana"; Some "/store/ana"; Some "/store/moro"]%string.

(** A shop that shows [sample_page], finds one product (its name) in every
    store, and cannot write [pricing files/menu.csv]. *)
Definition sample_shop : shop string :=
  mkShop string
    (fun _ _ _ => Ok sample_page)
    (fun tasks _ => Ok (map (fun t : task => [snd t]) tasks))
    (fun attempt _ _ => if (attempt =? 0)%nat then Some (Exception "denied" 13) else None)
    (fun path => String.eqb path "pricing files/menu.csv")
    (fun p => if String.eqb p "pricing files/menu.csv"
              then ("pricing files/menu", ".csv")%string
              else (p, EmptyString)).

(** * The maps scraper (lines 67-331) *)

(** A Python [str] is the string of the bytes of its UTF-8 encoding: the
    operations used here (equality, splitting at a line feed, stripping a
    parenthesis, looking for a label) give the same result on the encoding.
    Standard output and the progress bar are not part of the model. *)

(** ** Strings *)

(** [sub in s]. *)
Fixpoint contains (sub s : string) : bool :=
  if String.prefix sub s then true
  else
    match s with
    | EmptyString => false
    | String _ rest => contains sub rest
    end.

Fixpoint lstrip (c : ascii) (s : string) : string :=
  match s with
  | EmptyString => EmptyString
  | String a rest => if Ascii.eqb a c then lstrip c rest else s
  end.

Fixpoint rstrip (c : ascii) (s : string) : string :=
  match s with
  | EmptyString => EmptyString
  | String a rest =>
      match rstrip c rest with
      | EmptyString => if Ascii.eqb a c then EmptyString else String a EmptyString
      | kept => String a kept
      end
  end.

(** [s.strip(c)] for one character [c]. *)
Definition strip (c : ascii) (s : string) : string := rstrip c (lstrip c s).

(** The Spanish labels, with their accented letters in UTF-8. *)
Definition direccion : string :=
  ("Direcci" ++ String "195" (String "179" "n:"))%string.
Definition telefono : string :=
  ("Tel" ++ String "195" (String "169" "fono:"))%string.

(** ** A place page *)

(** An element of class [CsEnBe]: its [aria-label], its text, its [href]. *)
Record info_element : Type := mkInfoElement {
  aria_label : option string;
  element_text : string;
  element_href : option string
}.

(** What a place page shows once it has loaded: the text of the header and
    the information elements, in document order. *)
Record place_page : Type := mkPlacePage {
  header_text : string;
  info_elements : list info_element
}.

(** The eleven fields of [place_info], in the order of lines 140-152. *)
Record place_info : Type := mkPlaceInfo {
  info_search_query : string;
  info_location : string;
  place_name : string;
  place_description : option string;
  reviews_stars : option string;
  num_of_reviews : option string;
  address : option string;
  phone : option string;
  emails : option string;
  website : option string;
  price_range : option string
}.

(** What [extract_place_info] returns: the string ["skip"] or the fields. *)
Inductive place_result : Type :=
| Skip
| Place (info : place_info).

(** The fields read from the header. *)
Record header : Type := mkHeader {
  header_name : string;
  header_stars : option string;
  header_reviews : option string;
  header_price : option string;
  header_description : option string
}.

(** Lines 81-107: the header by the number of its lines; [None] in the
    [else] branch. *)
Definition header_fields (header_list : list string) : option header :=
  match header_list with
  | [name; stars; reviews; description] =>
      Some (mkHeader name (Some stars) (Some (strip ")" (strip "(" reviews)))
              None (Some description))
  | [name; stars; reviews; price; description] =>
      Some (mkHeader name (Some stars) (Some (strip ")" (strip "(" reviews)))
              (Some price) (Some description))
  | [name; description] => Some (mkHeader name None None None (Some description))
  | [name] => Some (mkHeader name None None None None)
  | _ => None
  end.

(** Line 78. *)
Definition temporarily_closed (header_list : list string) : bool :=
  existsb (String.eqb "Temporarily closed") header_list
  || existsb (String.eqb "Cerrado temporalmente") header_list.

(** Line 122: the second line of the text when it has a line feed. *)
Definition address_of_text (text : string) : string :=
  if contains nl text
  then match split_char "010" text with
       | _ :: second_line :: _ => second_line
       | _ => text
       end
  else text.

(** The three fields read from the information elements. *)
Record contact : Type := mkContact {
  contact_website : option string;
  contact_phone : option string;
  contact_address : option string
}.

(** Lines 118-126: a later element with the same label overrides an earlier
    one. *)
Fixpoint info_loop (elements : list info_element) (found : contact) : contact :=
  match elements with
  | [] => found
  | info_element :: rest =>
      match aria_label info_element with
      | Some (String c l) =>
          let label := String c l in
          let address :=
            if contains "Address:" label || contains direccion label
            then Some (address_of_text (element_text info_element))
            else contact_address found in
          let phone :=
            if contains "Phone:" label || contains telefono label
            then Some (element_text info_element)
            else contact_phone found in
          let website :=
            if contains "Website:" label || contains "Sitio web:" label
            then element_href info_element
            else contact_website found in
          info_loop rest (mkContact website phone address)
      | _ => info_loop rest found
      end
  end.

(** ** The browser and the lists shared by all searches *)

(** What is outside the program.  Each oracle is asked with the number of
    pages the run has loaded so far, so the same address may show different
    pages at different times.  [open_place] loads a place page or raises;
    [extract_emails] is the helper of lines 49-63 (it loads the website and
    matches a regular expression); [open_search] loads a results page,
    scrolls it and gives the links of the places found, or raises;
    [chrome_starts] tells whether [webdriver.Chrome] returns a browser;
    [frame_to_csv] tells whether writing a frame raises.  The oracles raise
    subclasses of [Exception] only; closing a browser does not raise. *)
Record maps : Type := mkMaps {
  open_place : nat -> option string -> result place_page;
  extract_emails : nat -> string -> result string;
  open_search : nat -> string -> Z -> result (list (option string));
  chrome_starts : nat -> bool;
  frame_to_csv : string -> list place_info -> option exn
}.

(** The two lists [maps_scraper] creates once and every call mutates, and
    the number of pages loaded. *)
Record seen : Type := mkSeen {
  visits : nat;
  all_addresses : list (option string);
  all_place_names : list string
}.

Definition loaded (s : seen) : seen :=
  mkSeen (S (visits s)) (all_addresses s) (all_place_names s).

Definition option_string_eqb (a b : option string) : bool :=
  match a, b with
  | Some x, Some y => String.eqb x y
  | None, None => true
  | _, _ => false
  end.

(** Lines 129-134: [true] when the place is skipped as a duplicate;
    otherwise the lists after the test. *)
Definition duplicate_check (place_address : option string) (name : string)
    (s : seen) : bool * seen :=
  if existsb (option_string_eqb place_address) (all_addresses s) then
    if existsb (String.eqb name) (all_place_names s) then (true, s) else (false, s)
  else
    (false, mkSeen (visits s) (all_addresses s ++ [place_address])
              (all_place_names s ++ [name])).

(** [extract_place_info]: the lists as the call leaves them, also when it
    raises, and what it returns. *)
Definition extract_place_info (w : maps) (place_url : option string)
    (location search_query : string) (s : seen) : seen * result place_result :=
  match open_place w (visits s) place_url with
  | Raise e => (loaded s, Raise e)
  | Ok page =>
      let header_list := split_char "010" (header_text page) in
      if temporarily_closed header_list then (loaded s, Ok Skip)
      else
        match header_fields header_list with
        | None => (loaded s, Ok Skip)
        | Some h =>
            let found := info_loop (info_elements page) (mkContact None None None) in
            let checked := duplicate_check (contact_address found) (header_name h)
                             (loaded s) in
            if fst checked then (snd checked, Ok Skip)
            else
              let info := fun emails : option string =>
                mkPlaceInfo search_query location (header_name h)
                  (header_description h) (header_stars h) (header_reviews h)
                  (contact_address found) (contact_phone found) emails
                  (contact_website found) (header_price h) in
              match contact_website found with
              | Some site =>
                  match extract_emails w (visits (snd checked)) site with
                  | Raise e => (loaded (snd checked), Raise e)
                  | Ok unique_emails_str =>
                      (loaded (snd checked), Ok (Place (info (Some unique_emails_str))))
                  end
              | None => (snd checked, Ok (Place (info None)))
              end
        end
  end.

(** Lines 194-217, the loop over the links.  A skipped place goes on with
    the next link without the test of line 213; an exception is caught and
    the test is made. *)
Fixpoint place_loop (w : maps) (place_urls : list (option string))
    (location search_query : string) (max_places_to_find : Z) (s : seen)
    (place_info_list : list place_info) : seen * list place_info :=
  match place_urls with
  | [] => (s, place_info_list)
  | url :: rest =>
      match extract_place_info w url location search_query s with
      | (s', Ok Skip) =>
          place_loop w rest location search_query max_places_to_find s'
            place_info_list
      | (s', Ok (Place temp_place_info)) =>
          if (max_places_to_find <=?
              Z.of_nat (List.length (place_info_list ++ [temp_place_info])))%Z
          then (s', place_info_list ++ [temp_place_info])
          else place_loop w rest location search_query max_places_to_find s'
                 (place_info_list ++ [temp_place_info])
      | (s', Raise _) =>
          if (max_places_to_find <=? Z.of_nat (List.length place_info_list))%Z
          then (s', place_info_list)
          else place_loop w rest location search_query max_places_to_find s'
                 place_info_list
      end
  end.

(** How [extract_search_results] ends: with the list of places, with the
    [ZeroDivisionError] of line 191, or with an exception of the browser. *)
Inductive search_result : Type :=
| Found (place_info_list : list place_info)
| ZeroDivisionError
| BrowserError (e : exn).

(** [extract_search_results].  The quotient of line 191 only feeds the
    progress bar, but it is computed, and with [url_update_count = 0] it
    raises; the integers are of a size that has a float. *)
Definition extract_search_results (w : maps) (search_url location search_query : string)
    (max_places_to_find max_num_scrolls : Z) (s : seen) (url_update_count : Z)
    : seen * search_result :=
  match open_search w (visits s) search_url max_num_scrolls with
  | Raise e => (loaded s, BrowserError e)
  | Ok place_urls =>
      if (url_update_count =? 0)%Z then (loaded s, ZeroDivisionError)
      else
        let looped := place_loop w place_urls location search_query
                        max_places_to_find (loaded s) [] in
        (fst looped, Found (snd looped))
  end.

(** The state of [maps_scraper] during its loops: the shared lists, the
    number of browsers asked for, whether the name [browser] is bound, the
    places kept, and the frames [to_csv] was called with, each with its
    path. *)
Record scrape : Type := mkScrape {
  memory : seen;
  launched : nat;
  bound : bool;
  final_places_list : list place_info;
  exported : list (string * list place_info)
}.

Definition search_url_of (search_query location : string) : string :=
  ("https://www.google.com/maps/search/" ++ search_query ++ " in " ++ location)%string.

Definition export_name (search_query : string) : string :=
  (search_query ++ " Export.csv")%string.

(** Lines 270-311 over the pairs of a query and a location, the queries in
    the outer loop.  When [webdriver.Chrome] raises, the outer [except] ends
    the loops; an exception of the search or of the export of one pair is
    caught by the inner [except], before [final_places_list.extend]. *)
Fixpoint search_loop (w : maps) (pairs : list (string * string))
    (max_places_to_find max_num_scrolls : Z) (export_by_search_query : bool)
    (url_update_count : Z) (s : scrape) : scrape :=
  match pairs with
  | [] => s
  | (search_query, location) :: rest =>
      if chrome_starts w (launched s) then
        let searched := extract_search_results w
                          (search_url_of search_query location) location
                          search_query max_places_to_find max_num_scrolls
                          (memory s) url_update_count in
        match snd searched with
        | Found combo_place_info_list =>
            if export_by_search_query then
              match frame_to_csv w (export_name search_query)
                      combo_place_info_list with
              | None =>
                  search_loop w rest max_places_to_find max_num_scrolls
                    export_by_search_query url_update_count
                    (mkScrape (fst searched) (S (launched s)) true
                       (final_places_list s ++ combo_place_info_list)
                       (exported s ++ [(export_name search_query, combo_place_info_list)]))
              | Some _ =>
                  search_loop w rest max_places_to_find max_num_scrolls
                    export_by_search_query url_update_count
                    (mkScrape (fst searched) (S (launched s)) true
                       (final_places_list s)
                       (exported s ++ [(export_name search_query, combo_place_info_list)]))
              end
            else
              search_loop w rest max_places_to_find max_num_scrolls
                export_by_search_query url_update_count
                (mkScrape (fst searched) (S (launched s)) true
                   (final_places_list s ++ combo_place_info_list) (exported s))
        | _ =>
            search_loop w rest max_places_to_find max_num_scrolls
              export_by_search_query url_update_count
              (mkScrape (fst searched) (S (launched s)) true
                 (final_places_list s) (exported s))
        end
      else
        mkScrape (memory s) (S (launched s)) (bound s) (final_places_list s)
          (exported s)
  end.

Definition fresh_scrape : scrape := mkScrape (mkSeen 0 [] []) 0 false [] [].

(** [maps_scraper]: the rows of the frame it returns.  [browser.quit()] of
    line 316 reads a name that is bound only once a browser has started. *)
Definition maps_scraper (w : maps) (search_queries locations : list string)
    (max_places_to_find max_num_scrolls : Z) (export_final_filename : option string)
    (export_by_search_query : bool) (url_update_count : Z)
    : scrape * result (list place_info) :=
  let s := search_loop w (list_prod search_queries locations) max_places_to_find
             max_num_scrolls export_by_search_query url_update_count
             fresh_scrape in
  if bound s then
    match export_final_filename with
    | Some (String c f) =>
        let path := export_path (String c f) in
        let s' := mkScrape (memory s) (launched s) (bound s) (final_places_list s)
                    (exported s ++ [(path, final_places_list s)]) in
        match frame_to_csv w path (final_places_list s) with
        | None => (s', Ok (final_places_list s))
        | Some e => (s', Raise e)
        end
    | _ => (s, Ok (final_places_list s))
    end
  else (s, Raise UnboundLocalError).

(** The name and the address a place page shows, as the call reads them. *)
Definition page_header (page : place_page) : option header :=
  if temporarily_closed (split_char "010" (header_text page)) then None
  else header_fields (split_char "010" (header_text page)).

Definition page_contact (page : place_page) : contact :=
  info_loop (info_elements page) (mkContact None None None).

(** ** The vocabulary of the duplicate test *)

(** The pairs of an address and the name it was first listed with. *)
Definition recorded (s : seen) : list (option string * string) :=
  combine (all_addresses s) (all_place_names s).

Definition same_place (a : option string) (n : string) (row : place_info) : bool :=
  option_string_eqb (address row) a && String.eqb (place_name row) n.

(** How many of the rows show the address [a] under the name [n]. *)
Definition times_returned (a : option string) (n : string)
    (rows : list place_info) : nat :=
  List.length (filter (same_place a n) rows).

(** What the lists promise about the rows kept so far. *)
Definition tidy (s : seen) (rows : list place_info) : Prop :=
  NoDup (all_addresses s) /\
  List.length (all_addresses s) = List.length (all_place_names s) /\
  (forall row : place_info, In row rows -> In (address row) (all_addresses s)) /\
  (forall (a : option string) (n : string),
     In (a, n) (recorded s) -> times_returned a n rows <= 1).

(** ** A sample town *)

Definition ana_page : place_page :=
  mkPlacePage ("Churros Ana" ++ nl ++ "4.5" ++ nl ++ "(120)" ++ nl ++ "Bakery")
    [mkInfoElement (Some "Address: 1 Main St"%string) "1 Main St" None;
     mkInfoElement (Some "Phone: 555 0100"%string) "555 0100" None].

(** The same address under another name. *)
Definition ana_centro_page : place_page :=
  mkPlacePage ("Churros Ana Centro" ++ nl ++ "Bakery")
    [mkInfoElement (Some "Address: 1 Main St"%string) ("Address" ++ nl ++ "1 Main St") None].

Definition moro_page : place_page :=
  mkPlacePage ("El Moro" ++ nl ++ "4.8" ++ nl ++ "(2,300)" ++ nl ++ "$$" ++ nl ++ "Cafe")
    [mkInfoElement (Some "Address: 2 Side St"%string) "2 Side St" None;
     mkInfoElement (Some "Website: elmoro.example"%string) "elmoro.example"
       (Some "https://elmoro.example"%string)].

(** A town with three places; the website of the third does not load. *)
Definition sample_town : maps :=
  mkMaps
    (fun _ url =>
       match url with
       | Some u =>
           if String.eqb u "/ana" then Ok ana_page
           else if String.eqb u "/ana-centro" then Ok ana_centro_page
           else if String.eqb u "/moro" then Ok moro_page
           else Raise (Exception "timeout" 0)
       | None => Raise (Exception "no link" 0)
       end)
    (fun _ _ => Raise (Exception "timeout" 0))
    (fun _ _ _ => Ok [Some "/ana"; Some "/ana-centro"; Some "/ana-centro";
                        Some "/moro"; Some "/moro"; Some "/ana"]%string)
    (fun _ => true)
    (fun _ _ => None).

(** * Properties *)

(** ** Results *)

Lemma bind_ok : forall (A B : Type) (r : result A) (f : A -> result B) (b : B),
  bind r f = Ok b -> exists a : A, r = Ok a /\ f a = Ok b.
Proof.
  intros A B [a | e] f b H; simpl in H; [eauto | discriminate].
Qed.

Lemma getitem_nth : forall (A : Type) (l : list A) (i : nat) (d : A),
  i < List.length l -> getitem l i = Ok (nth i l d).
Proof.
  intros A l i d H. unfold getitem.
  destruct (nth_error l i) eqn:E.
  - now rewrite (nth_error_nth _ _ d E).
  - apply nth_error_None in E. lia.
Qed.

(** ** The non-zero positions of the mask *)

Lemma nonzero_row_In : forall (row : list bool) (i j i' j' : nat),
  In (i', j') (nonzero_row i j row) <->
  i' = i /\ j <= j' /\ nth_error row (j' - j) = Some true.
Proof.
  induction row as [| b row IH]; intros i j i' j'; simpl.
  - split; [tauto |]. intros (_ & _ & H). now destruct (j' - j).
  - assert (Hrec : In (i', j') (nonzero_row i (S j) row) <->
                   i' = i /\ j < j' /\ nth_error (b :: row) (j' - j) = Some true).
    { rewrite IH. split; intros (H1 & H2 & H3); repeat split; try lia.
      - replace (j' - j) with (S (j' - S j)) by lia. exact H3.
      - replace (j' - j) with (S (j' - S j)) in H3 by lia. exact H3. }
    destruct b; simpl; rewrite Hrec.
    + split.
      * intros [H | (H1 & H2 & H3)].
        -- inversion H; subst. rewrite Nat.sub_diag. auto.
        -- repeat split; auto; lia.
      * intros (H1 & H2 & H3).
        destruct (Nat.eq_dec j j') as [-> | Hne]; [left; now subst |].
        right. repeat split; auto; lia.
    + split.
      * intros (H1 & H2 & H3). repeat split; auto; lia.
      * intros (H1 & H2 & H3).
        destruct (Nat.eq_dec j j') as [-> | Hne].
        -- rewrite Nat.sub_diag in H3. discriminate.
        -- repeat split; auto; lia.
Qed.

Lemma nonzero_from_In : forall (a : list (list bool)) (i i' j' : nat),
  In (i', j') (nonzero_from i a) <->
  i <= i' /\ exists row, nth_error a (i' - i) = Some row /\
                         nth_error row j' = Some true.
Proof.
  induction a as [| row a IH]; intros i i' j'; simpl.
  - split; [tauto |]. intros (_ & r & H & _). now destruct (i' - i).
  - rewrite in_app_iff, nonzero_row_In, IH, Nat.sub_0_r. split.
    + intros [(-> & _ & H) | (Hle & r & H1 & H2)].
      * split; [lia |]. exists row. now rewrite Nat.sub_diag.
      * split; [lia |]. exists r.
        replace (i' - i) with (S (i' - S i)) by lia. auto.
    + intros (Hle & r & H1 & H2).
      destruct (Nat.eq_dec i i') as [<- | Hne].
      * left. rewrite Nat.sub_diag in H1. simpl in H1. inversion H1; subst.
        repeat split; auto; lia.
      * right. split; [lia |]. exists r.
        replace (i' - i) with (S (i' - S i)) in H1 by lia. auto.
Qed.

Lemma eligible_cells_In : forall (times_df : DataFrame) (max_time : Z) (i j : nat),
  In (i, j) (eligible_cells times_df max_time) <-> eligible times_df max_time i j.
Proof.
  intros df t i j. unfold eligible_cells, eligible, cell, cell_at, lt_scalar.
  rewrite nonzero_from_In, Nat.sub_0_r. split.
  - intros (_ & row & H1 & H2).
    rewrite nth_error_map in H1.
    destruct (nth_error (values df) i) as [r |]; [| discriminate].
    simpl in H1. inversion H1; subst. rewrite nth_error_map in H2.
    destruct (nth_error r j) as [v |]; [| discriminate].
    simpl in H2. inversion H2. exists v. split; [reflexivity | lia].
  - intros (v & H1 & H2). split; [lia |].
    destruct (nth_error (values df) i) as [r |] eqn:E; [| discriminate].
    exists (map (fun v => (v <? t)%Z) r). rewrite !nth_error_map, E, H1. simpl.
    split; [reflexivity |]. f_equal. lia.
Qed.

(** ** The rows selected for one column *)

Lemma mask_index_eq_scalar : forall (pos : list (nat * nat)) (k : nat),
  mask_index (map fst pos) (eq_scalar (map snd pos) k) =
  map fst (filter (fun p => snd p =? k) pos).
Proof.
  unfold mask_index, eq_scalar.
  induction pos as [| [i j] pos IH]; intro k; simpl; [reflexivity |].
  destruct (j =? k); simpl; now rewrite IH.
Qed.

Lemma same_loc_of_filter : forall (times_df : DataFrame) (max_time : Z) (k : nat),
  same_loc_of times_df max_time k =
  map fst (filter (fun p => snd p =? k) (eligible_cells times_df max_time)).
Proof.
  intros. unfold same_loc_of, nonzero, eligible_cells. apply mask_index_eq_scalar.
Qed.

Lemma same_loc_of_In : forall (times_df : DataFrame) (max_time : Z) (k r : nat),
  In r (same_loc_of times_df max_time k) <-> eligible times_df max_time r k.
Proof.
  intros df t k r. rewrite same_loc_of_filter, <- eligible_cells_In, in_map_iff.
  split.
  - intros ([i j] & <- & H). apply filter_In in H. destruct H as [H1 H2].
    simpl in *. apply Nat.eqb_eq in H2. now subst.
  - intro H. exists (r, k). split; [reflexivity |].
    apply filter_In. split; [assumption | apply Nat.eqb_refl].
Qed.

Lemma column_of_row_late : forall (row : list bool) (i j k : nat),
  k < j -> filter (fun p => snd p =? k) (nonzero_row i j row) = [].
Proof.
  induction row as [| b row IH]; intros i j k H; simpl; [reflexivity |].
  destruct b; simpl.
  - destruct (Nat.eqb_spec j k); [lia |]. apply IH. lia.
  - apply IH. lia.
Qed.

Lemma column_of_row : forall (row : list bool) (i j k : nat),
  map fst (filter (fun p => snd p =? k) (nonzero_row i j row)) = [] \/
  map fst (filter (fun p => snd p =? k) (nonzero_row i j row)) = [i].
Proof.
  induction row as [| b row IH]; intros i j k; simpl; [now left |].
  destruct b; simpl; [| apply IH].
  destruct (Nat.eqb_spec j k) as [-> | Hne]; [| apply IH].
  right. simpl. now rewrite column_of_row_late by lia.
Qed.

Lemma nonzero_from_rows : forall (a : list (list bool)) (i : nat),
  Forall (fun p => i <= fst p) (nonzero_from i a).
Proof.
  intros a i. apply Forall_forall. intros [i' j'] H.
  apply nonzero_from_In in H. simpl. tauto.
Qed.

Lemma column_of_mask_sorted : forall (a : list (list bool)) (i k : nat),
  StronglySorted lt (map fst (filter (fun p => snd p =? k) (nonzero_from i a))).
Proof.
  induction a as [| row a IH]; intros i k; simpl; [constructor |].
  rewrite filter_app, map_app.
  destruct (column_of_row row i 0 k) as [-> | ->]; simpl; [apply IH |].
  constructor; [apply IH |].
  apply Forall_forall. intros r Hr. apply in_map_iff in Hr.
  destruct Hr as (p & <- & Hp). apply filter_In in Hp. destruct Hp as [Hp _].
  pose proof (nonzero_from_rows a (S i)) as HF.
  rewrite Forall_forall in HF. specialize (HF p Hp). lia.
Qed.

Lemma same_loc_of_sorted : forall (times_df : DataFrame) (max_time : Z) (k : nat),
  StronglySorted lt (same_loc_of times_df max_time k).
Proof.
  intros. rewrite same_loc_of_filter. apply column_of_mask_sorted.
Qed.

(** ** The inner loop *)

Lemma scan_same_loc_running : forall (times_df : DataFrame) (k : nat)
    (l : list nat) (v : Z) (w : nat),
  StronglySorted lt (w :: l) ->
  (forall r, In r l -> exists u, cell times_df r k = Some u) ->
  cell times_df w k = Some v ->
  exists (v' : Z) (w' : nat),
    scan_same_loc times_df k l (Some v) (Some w) = Ok (Some v', Some w') /\
    In w' (w :: l) /\ cell times_df w' k = Some v' /\
    forall (r : nat) (u : Z),
      In r (w :: l) -> cell times_df r k = Some u ->
      (v' <= u)%Z /\ (u = v' -> w' <= r).
Proof.
  intros df k l. induction l as [| r0 l IH]; intros v w Hs Hc Hw.
  - exists v, w. simpl. repeat split; auto.
    + destruct H as [<- | []]. rewrite Hw in H0. inversion H0. lia.
    + destruct H as [<- | []]. lia.
  - destruct (Hc r0 (or_introl eq_refl)) as [u0 Hu0].
    apply StronglySorted_inv in Hs. destruct Hs as [Hs Hall].
    pose proof Hs as Hs'. apply StronglySorted_inv in Hs'. destruct Hs' as [Hl Hr0].
    inversion Hall as [| ? ? Hwr0 Hwl]; subst.
    simpl. unfold iloc. rewrite Hu0. simpl.
    destruct (Z.ltb_spec u0 v) as [Hlt | Hge].
    + destruct (IH u0 r0) as (v' & w' & E & Hin & Hcw & Hmin); auto.
      { intros r Hr. apply Hc. now right. }
      exists v', w'. split; [exact E |]. split; [now right |]. split; [exact Hcw |].
      intros r u [<- | Hr] Hu.
      * rewrite Hw in Hu. inversion Hu; subst u.
        destruct (Hmin r0 u0 (or_introl eq_refl) Hu0) as [H1 _]. split; lia.
      * now apply Hmin.
    + destruct (IH v w) as (v' & w' & E & Hin & Hcw & Hmin); auto.
      { constructor; assumption. }
      { intros r Hr. apply Hc. now right. }
      exists v', w'. split; [exact E |].
      split; [destruct Hin as [<- | Hin]; [now left | now right; right] |].
      split; [exact Hcw |].
      intros r u [<- | [<- | Hr]] Hu.
      * apply Hmin; [now left | assumption].
      * rewrite Hu0 in Hu. inversion Hu; subst u.
        destruct (Hmin w v (or_introl eq_refl) Hw) as [H1 H2]. split; [lia |].
        intro Heq. assert (w' <= w) by (apply H2; lia). lia.
      * apply Hmin; [now right | assumption].
Qed.

Lemma scan_same_loc_closest : forall (times_df : DataFrame) (k : nat)
    (l : list nat) (closest_loc : option nat),
  StronglySorted lt l -> l <> [] ->
  (forall r, In r l -> exists u, cell times_df r k = Some u) ->
  exists (v : Z) (w : nat),
    scan_same_loc times_df k l None closest_loc = Ok (Some v, Some w) /\
    scan_same_loc times_df k l None None = Ok (Some v, Some w) /\
    In w l /\ cell times_df w k = Some v /\
    forall (r : nat) (u : Z),
      In r l -> cell times_df r k = Some u ->
      (v <= u)%Z /\ (u = v -> w <= r).
Proof.
  intros df k [| r0 l] cl Hs Hne Hc; [congruence |].
  destruct (Hc r0 (or_introl eq_refl)) as [u0 Hu0].
  destruct (scan_same_loc_running df k l u0 r0) as (v & w & E & H); auto.
  { intros r Hr. apply Hc. now right. }
  exists v, w. simpl. unfold iloc. rewrite Hu0. simpl. auto.
Qed.

Lemma chosen_row_closest : forall (times_df : DataFrame) (max_time : Z)
    (k r : nat) (closest_loc : option nat),
  eligible times_df max_time r k ->
  closest_row times_df max_time k (chosen_row times_df max_time k) /\
  exists v : Z,
    scan_same_loc times_df k (same_loc_of times_df max_time k) None closest_loc =
    Ok (Some v, Some (chosen_row times_df max_time k)).
Proof.
  intros df t k r cl Hr.
  destruct (scan_same_loc_closest df k (same_loc_of df t k) cl)
    as (v & w & E1 & E2 & Hin & Hcw & Hmin).
  - apply same_loc_of_sorted.
  - apply same_loc_of_In in Hr. intro E. rewrite E in Hr. destruct Hr.
  - intros r' Hr'. apply same_loc_of_In in Hr'. destruct Hr' as (u & Hu & _). eauto.
  - unfold chosen_row. rewrite E2. split; [| eauto].
    apply same_loc_of_In in Hin. destruct Hin as (v0 & Hv0 & Hlt).
    rewrite Hcw in Hv0. inversion Hv0; subst v0.
    exists v. repeat split; auto.
    + apply (Hmin r0 u); auto. apply same_loc_of_In. exists u. auto.
    + apply (Hmin r0 u); auto. apply same_loc_of_In. exists u. auto.
Qed.

Lemma closest_row_unique : forall (times_df : DataFrame) (max_time : Z) (k w w' : nat),
  closest_row times_df max_time k w -> closest_row times_df max_time k w' -> w = w'.
Proof.
  intros df t k w w' (v & Hc & Hlt & Hmin) (v' & Hc' & Hlt' & Hmin').
  destruct (Hmin w' v' Hc' Hlt') as [H1 H2].
  destruct (Hmin' w v Hc Hlt) as [H1' H2'].
  assert (v = v') by lia. subst v'.
  specialize (H2 eq_refl). specialize (H2' eq_refl). lia.
Qed.

(** ** The outer loop *)

Lemma assign_loop_chosen : forall (times_df : DataFrame) (max_time : Z)
    (ks : list nat) (closest_loc : option nat) (new_i_list new_j_list : list nat),
  (forall k, In k ks -> exists r, eligible times_df max_time r k) ->
  assign_loop times_df
    (map fst (eligible_cells times_df max_time))
    (map snd (eligible_cells times_df max_time))
    ks closest_loc new_i_list new_j_list =
  Ok (new_i_list ++ map (chosen_row times_df max_time) ks, new_j_list ++ ks).
Proof.
  intros df t ks. induction ks as [| k ks IH]; intros cl ni nj Hel; simpl.
  - now rewrite !app_nil_r.
  - destruct (Hel k (or_introl eq_refl)) as [r Hr].
    destruct (chosen_row_closest df t k r cl Hr) as [_ [v E]].
    unfold same_loc_of, nonzero in E. fold (eligible_cells df t) in E.
    rewrite E. simpl. rewrite IH.
    + now rewrite <- !app_assoc.
    + intros k' Hk'. apply Hel. now right.
Qed.

Lemma new_lists_chosen : forall (times_df : DataFrame) (max_time : Z),
  new_lists times_df max_time =
  Ok (map (chosen_row times_df max_time)
          (map snd (eligible_cells times_df max_time)),
      map snd (eligible_cells times_df max_time)).
Proof.
  intros df t. unfold new_lists, nonzero. fold (eligible_cells df t).
  apply (assign_loop_chosen df t _ None [] []).
  intros k Hk. apply in_map_iff in Hk. destruct Hk as ([i j] & <- & Hin).
  exists i. now apply eligible_cells_In.
Qed.

Lemma new_lists_scan_records : forall (times_df : DataFrame) (max_time : Z),
  exists new_i_list new_j_list : list nat,
    new_lists times_df max_time = Ok (new_i_list, new_j_list) /\
    List.length new_i_list = List.length new_j_list /\
    combine new_i_list new_j_list = scan_records times_df max_time.
Proof.
  intros df t. rewrite new_lists_chosen. eexists _, _. split; [reflexivity |].
  split; [now rewrite !length_map |].
  unfold scan_records. induction (eligible_cells df t) as [| c l IH]; simpl;
    [reflexivity | now rewrite IH].
Qed.

(** ** Re-indexing by the sort mask *)

Lemma fancy_index_map : forall (a idx : list nat),
  Forall (fun p => p < List.length a) idx ->
  fancy_index a idx = Ok (map (fun p => nth p a 0) idx).
Proof.
  intros a idx H. induction H as [| p idx Hp _ IH]; simpl; [reflexivity |].
  now rewrite (getitem_nth _ _ _ 0 Hp), IH.
Qed.

Lemma map_pair_seq : forall (l1 l2 : list nat),
  List.length l1 = List.length l2 ->
  map (fun p => (nth p l1 0, nth p l2 0)) (seq 0 (List.length l1)) = combine l1 l2.
Proof.
  intros l1 l2 H. apply (nth_ext _ _ (nth 0 l1 0, nth 0 l2 0) (0, 0)).
  - rewrite length_map, length_seq, length_combine. lia.
  - intros n Hn. rewrite length_map, length_seq in Hn.
    rewrite (map_nth (fun p => (nth p l1 0, nth p l2 0)) (seq 0 (List.length l1)) 0 n).
    rewrite seq_nth by assumption. simpl. now rewrite combine_nth.
Qed.

Lemma combine_reindexed : forall (new_i_list new_j_list sort_mask : list nat),
  combine (map (fun p => nth p new_i_list 0) sort_mask)
          (map (fun p => nth p new_j_list 0) sort_mask) =
  map (fun p => (nth p new_i_list 0, nth p new_j_list 0)) sort_mask.
Proof.
  intros ni nj sm. induction sm as [| p sm IH]; simpl; [reflexivity | now rewrite IH].
Qed.

Section Argsort.

Variable argsort : list nat -> list nat.
Hypothesis argsort_ok : argsort_contract argsort.

Lemma argsort_in_range : forall a : list nat,
  Forall (fun p => p < List.length a) (argsort a).
Proof.
  intro a. destruct (argsort_ok a) as [Hp _].
  apply Forall_forall. intros p Hin.
  apply (Permutation_in _ Hp) in Hin. apply in_seq in Hin. lia.
Qed.

Lemma comb_arr_of_sorted : forall new_i_list new_j_list : list nat,
  List.length new_i_list = List.length new_j_list ->
  exists comb_arr : list (nat * nat),
    comb_arr_of argsort new_i_list new_j_list = Ok comb_arr /\
    Permutation comb_arr (combine new_i_list new_j_list) /\
    Sorted le (map fst comb_arr).
Proof.
  intros ni nj Hlen. unfold comb_arr_of.
  rewrite (fancy_index_map _ _ (argsort_in_range ni)). simpl.
  rewrite fancy_index_map by (rewrite <- Hlen; apply argsort_in_range). simpl.
  eexists. split; [reflexivity |].
  rewrite combine_reindexed. destruct (argsort_ok ni) as [Hp Hs]. split.
  - rewrite <- (map_pair_seq _ _ Hlen). now apply Permutation_map.
  - now rewrite map_map.
Qed.

Lemma assignment_records_sorted : forall (times_df : DataFrame) (max_time : Z),
  exists comb_arr : list (nat * nat),
    assignment_records argsort times_df max_time = Ok comb_arr /\
    Permutation comb_arr (scan_records times_df max_time) /\
    Sorted le (map fst comb_arr).
Proof.
  intros df t. unfold assignment_records.
  destruct (new_lists_scan_records df t) as (ni & nj & E & Hlen & Hc).
  rewrite E. simpl. rewrite <- Hc. now apply comb_arr_of_sorted.
Qed.

End Argsort.

(** ** The scan records *)

Lemma scan_records_In : forall (times_df : DataFrame) (max_time : Z) (i j : nat),
  In (i, j) (scan_records times_df max_time) <-> closest_row times_df max_time j i.
Proof.
  intros df t i j. unfold scan_records. rewrite in_map_iff. split.
  - intros ([r k] & E & Hin). simpl in E. inversion E; subst.
    apply eligible_cells_In in Hin.
    now destruct (chosen_row_closest df t j r None Hin).
  - intro Hc. pose proof Hc as (v & Hv & Hlt & _).
    assert (Hel : eligible df t i j) by (exists v; auto).
    exists (i, j). split; [| now apply eligible_cells_In].
    simpl. f_equal.
    destruct (chosen_row_closest df t j i None Hel) as [Hc' _].
    now apply (closest_row_unique df t j).
Qed.

Lemma scan_records_column : forall (times_df : DataFrame) (max_time : Z) (k : nat),
  filter (fun r => snd r =? k) (scan_records times_df max_time) =
  repeat (chosen_row times_df max_time k, k)
         (List.length (same_loc_of times_df max_time k)).
Proof.
  intros df t k. rewrite same_loc_of_filter, length_map. unfold scan_records.
  induction (eligible_cells df t) as [| [i j] l IH]; simpl; [reflexivity |].
  destruct (Nat.eqb_spec j k) as [-> | Hne]; simpl; now rewrite IH.
Qed.

Lemma nonzero_row_length : forall (row : list Z) (max_time : Z) (i j : nat),
  List.length (nonzero_row i j (map (fun v => (v <? max_time)%Z) row)) =
  List.length (filter (fun v => (v <? max_time)%Z) row).
Proof.
  induction row as [| v row IH]; intros t i j; simpl; [reflexivity |].
  destruct (v <? t)%Z; simpl; now rewrite IH.
Qed.

Lemma eligible_cells_length : forall (times_df : DataFrame) (max_time : Z),
  List.length (eligible_cells times_df max_time) = count_below times_df max_time.
Proof.
  intros df t. unfold eligible_cells, count_below, lt_scalar.
  generalize 0 as i. induction (values df) as [| row a IH]; intro i; simpl;
    [reflexivity |].
  now rewrite length_app, nonzero_row_length, IH.
Qed.

Lemma column_of_row_length : forall (row : list bool) (i j k : nat),
  j <= k ->
  List.length (filter (fun p => snd p =? k) (nonzero_row i j row)) =
  match nth_error row (k - j) with Some true => 1 | _ => 0 end.
Proof.
  induction row as [| b row IH]; intros i j k Hle; simpl.
  - now destruct (k - j).
  - destruct (Nat.eq_dec j k) as [-> | Hne].
    + rewrite Nat.sub_diag. simpl. destruct b; simpl.
      * rewrite Nat.eqb_refl. simpl. now rewrite column_of_row_late by lia.
      * now rewrite column_of_row_late by lia.
    + replace (k - j) with (S (k - S j)) by lia. simpl.
      destruct b; simpl.
      * destruct (Nat.eqb_spec j k); [lia |]. apply IH. lia.
      * apply IH. lia.
Qed.

Lemma same_loc_of_length : forall (times_df : DataFrame) (max_time : Z) (k : nat),
  List.length (same_loc_of times_df max_time k) =
  count_below_in_column times_df max_time k.
Proof.
  intros df t k. rewrite same_loc_of_filter, length_map.
  unfold eligible_cells, count_below_in_column, lt_scalar.
  generalize 0 as i. induction (values df) as [| row a IH]; intro i; simpl;
    [reflexivity |].
  rewrite filter_app, length_app, IH, column_of_row_length, Nat.sub_0_r by lia.
  rewrite nth_error_map. destruct (nth_error row k) as [v |]; simpl;
    [destruct (v <? t)%Z |]; reflexivity.
Qed.

Lemma Permutation_filter : forall (A : Type) (f : A -> bool) (l l' : list A),
  Permutation l l' -> Permutation (filter f l) (filter f l').
Proof.
  intros A f l l' H. induction H as [| x l l' _ IH | x y l | l l' l'' _ IH1 _ IH2];
    simpl.
  - constructor.
  - destruct (f x); [now constructor | assumption].
  - destruct (f x), (f y); try apply Permutation_refl. apply perm_swap.
  - now transitivity (filter f l').
Qed.

Lemma cell_in_range : forall (times_df : DataFrame) (i j : nat) (v : Z),
  cell times_df i j = Some v ->
  exists row, nth_error (values times_df) i = Some row /\
              i < List.length (values times_df) /\ j < List.length row.
Proof.
  intros df i j v H. unfold cell, cell_at in H.
  destruct (nth_error (values df) i) as [row |] eqn:E; [| discriminate].
  exists row. split; [reflexivity |]. split.
  - apply nth_error_Some. congruence.
  - apply nth_error_Some. congruence.
Qed.

(** ** The rendering loop *)

Lemma render_loop_blocks : forall (origin_addresses origin_names
    destination_addresses destination_names : pyseq)
    (comb_arr : list (nat * nat)) (closest_locations : list string),
  Forall (fun r => fst r < len origin_names /\ fst r < len origin_addresses /\
                   snd r < len destination_names /\
                   snd r < len destination_addresses) comb_arr ->
  render_loop origin_addresses origin_names destination_addresses destination_names
              comb_arr closest_locations =
  Ok (closest_locations ++
      map (block_of origin_addresses origin_names
                    destination_addresses destination_names) comb_arr).
Proof.
  intros oa on da dn comb. induction comb as [| [i j] comb IH]; intros acc H; simpl.
  - now rewrite app_nil_r.
  - inversion H as [| ? ? (H1 & H2 & H3 & H4) HF]; subst. simpl in *.
    unfold len in *.
    rewrite (getitem_nth _ _ _ EmptyString H1), (getitem_nth _ _ _ EmptyString H2),
            (getitem_nth _ _ _ EmptyString H3), (getitem_nth _ _ _ EmptyString H4).
    simpl. rewrite IH by assumption. now rewrite <- app_assoc.
Qed.

Lemma closest_row_covered : forall (times_df : DataFrame) (max_time : Z)
    (origin_addresses origin_names destination_addresses destination_names : pyseq)
    (i j : nat),
  labels_cover times_df origin_addresses origin_names
               destination_addresses destination_names ->
  closest_row times_df max_time j i ->
  i < len origin_names /\ i < len origin_addresses /\
  j < len destination_names /\ j < len destination_addresses.
Proof.
  intros df t oa on da dn i j (H1 & H2 & H3) (v & Hc & _).
  destruct (cell_in_range df i j v Hc) as (row & Hrow & Hi & Hj).
  rewrite Forall_forall in H3.
  destruct (H3 row (nth_error_In _ _ Hrow)) as [H4 H5]. lia.
Qed.

(** ** The insertion argsort meets the contract *)

Lemma insert_by_key_perm : forall (x : nat * nat) (l : list (nat * nat)),
  Permutation (insert_by_key x l) (x :: l).
Proof.
  intros x l. induction l as [| y l IH]; simpl; [apply Permutation_refl |].
  destruct (fst x <=? fst y); [apply Permutation_refl |].
  transitivity (y :: x :: l); [now constructor | apply perm_swap].
Qed.

Lemma sort_by_key_perm : forall l : list (nat * nat), Permutation (sort_by_key l) l.
Proof.
  induction l as [| x l IH]; simpl; [constructor |].
  transitivity (x :: sort_by_key l); [apply insert_by_key_perm | now constructor].
Qed.

Lemma insert_by_key_sorted : forall (x : nat * nat) (l : list (nat * nat)),
  Sorted le (map fst l) -> Sorted le (map fst (insert_by_key x l)).
Proof.
  intros x l. induction l as [| y l IH]; intro H; simpl.
  - repeat constructor.
  - destruct (Nat.leb_spec (fst x) (fst y)) as [Hle | Hgt]; simpl.
    + constructor; [assumption | now constructor].
    + apply Sorted_inv in H. destruct H as [Hs Hh].
      constructor; [now apply IH |].
      destruct l as [| z l]; simpl.
      * constructor. lia.
      * destruct (fst x <=? fst z); simpl; constructor; [lia |].
        now inversion Hh.
Qed.

Lemma sort_by_key_sorted : forall l : list (nat * nat),
  Sorted le (map fst (sort_by_key l)).
Proof.
  induction l as [| x l IH]; simpl; [constructor | now apply insert_by_key_sorted].
Qed.

Lemma combine_seq_snd : forall (a : list nat) (s : nat),
  map snd (combine a (seq s (List.length a))) = seq s (List.length a).
Proof.
  induction a as [| x a IH]; intro s; simpl; [reflexivity | now rewrite IH].
Qed.

Lemma combine_seq_key : forall (a : list nat) (s key pos : nat),
  In (key, pos) (combine a (seq s (List.length a))) -> key = nth (pos - s) a 0.
Proof.
  induction a as [| x a IH]; intros s key pos H; simpl in H; [contradiction |].
  destruct H as [H | H].
  - inversion H; subst. now rewrite Nat.sub_diag.
  - pose proof (in_combine_r _ _ _ _ H) as Hr. apply in_seq in Hr.
    apply IH in H. replace (pos - s) with (S (pos - S s)) by lia. exact H.
Qed.

Lemma stable_argsort_contract : argsort_contract stable_argsort.
Proof.
  intro a. unfold stable_argsort. split.
  - rewrite <- (combine_seq_snd a 0) at 2.
    apply Permutation_map, sort_by_key_perm.
  - rewrite map_map.
    rewrite (map_ext_in _ fst); [apply sort_by_key_sorted |].
    intros [key pos] Hin. simpl.
    apply (Permutation_in _ (sort_by_key_perm _)) in Hin.
    apply combine_seq_key in Hin. now rewrite Nat.sub_0_r in Hin.
Qed.

(** * The assignment computed from a matrix (lines 476-515)

    The statements of this section are about what [get_closest_locations]
    does from line 476 on, with the matrix that reaches that line, for any
    [argsort] that meets NumPy's contract. *)

Section Assignment.

Variable argsort : list nat -> list nat.
Hypothesis argsort_ok : argsort_contract argsort.

Lemma closest_from_matrix_blocks : forall (origin_addresses origin_names
    destination_addresses destination_names : pyseq)
    (max_time : Z) (times_df : DataFrame),
  labels_cover times_df origin_addresses origin_names
               destination_addresses destination_names ->
  exists comb_arr : list (nat * nat),
    assignment_records argsort times_df max_time = Ok comb_arr /\
    Permutation comb_arr (scan_records times_df max_time) /\
    Sorted le (map fst comb_arr) /\
    closest_from_matrix argsort origin_addresses origin_names
      destination_addresses destination_names max_time times_df =
    Ok (times_df,
        map (block_of origin_addresses origin_names
                      destination_addresses destination_names) comb_arr).
Proof.
  intros oa on da dn t df Hcov.
  destruct (assignment_records_sorted argsort argsort_ok df t)
    as (comb & E & Hperm & Hsorted).
  exists comb. repeat split; auto.
  unfold closest_from_matrix. rewrite E. simpl.
  rewrite render_loop_blocks; [reflexivity |].
  apply Forall_forall. intros [i j] Hin. simpl.
  apply (Permutation_in _ Hperm) in Hin. apply scan_records_In in Hin.
  now apply (closest_row_covered df t oa on da dn).
Qed.

(** C3.  The number of strings [get_closest_locations] returns is the
    number of matrix cells strictly below [max_time]: the loop appends one
    pair per eligible cell.  The records of a destination column [k] are as
    many copies of one pair as the column has eligible rows, and when it has
    at least one, the origin of that pair is the closest row of the column. *)
Theorem C3_one_record_per_eligible_cell : forall (origin_addresses origin_names
    destination_addresses destination_names : pyseq)
    (max_time : Z) (times_df : DataFrame),
  labels_cover times_df origin_addresses origin_names
               destination_addresses destination_names ->
  exists (comb_arr : list (nat * nat)) (closest_locations : list string),
    assignment_records argsort times_df max_time = Ok comb_arr /\
    closest_from_matrix argsort origin_addresses origin_names
      destination_addresses destination_names max_time times_df =
    Ok (times_df, closest_locations) /\
    List.length closest_locations = List.length comb_arr /\
    List.length closest_locations = count_below times_df max_time /\
    forall k : nat,
      filter (fun r => snd r =? k) comb_arr =
      repeat (chosen_row times_df max_time k, k)
             (count_below_in_column times_df max_time k) /\
      (1 <= count_below_in_column times_df max_time k ->
       closest_row times_df max_time k (chosen_row times_df max_time k)).
Proof.
  intros oa on da dn t df Hcov.
  destruct (closest_from_matrix_blocks oa on da dn t df Hcov)
    as (comb & E & Hperm & _ & Eout).
  exists comb, (map (block_of oa on da dn) comb).
  split; [exact E |]. split; [exact Eout |].
  split; [apply length_map |]. split.
  - rewrite length_map, (Permutation_length Hperm).
    unfold scan_records. now rewrite length_map, eligible_cells_length.
  - intro k. split.
    + apply Permutation_repeat. rewrite <- same_loc_of_length.
      rewrite <- scan_records_column. now apply Permutation_filter.
    + intro Hpos. rewrite <- same_loc_of_length in Hpos.
      destruct (same_loc_of df t k) as [| r l] eqn:El; [simpl in Hpos; lia |].
      assert (Hr : eligible df t r k).
      { apply same_loc_of_In. rewrite El. now left. }
      now destruct (chosen_row_closest df t k r None Hr).
Qed.

(** C4.  Every destination column with an eligible row has a selected
    origin, and the origin selected for a column is eligible, has the
    minimum travel time among the rows of the column strictly below
    [max_time], is the lowest row index among the rows that share that
    minimum, and is the eligible row itself when there is only one. *)
Theorem C4_selected_row_is_closest : forall (times_df : DataFrame) (max_time : Z),
  exists comb_arr : list (nat * nat),
    assignment_records argsort times_df max_time = Ok comb_arr /\
    (forall j r : nat, eligible times_df max_time r j ->
       exists i : nat, In (i, j) comb_arr) /\
    forall i j : nat, In (i, j) comb_arr ->
      exists v : Z,
        cell times_df i j = Some v /\ (v < max_time)%Z /\
        (forall (r : nat) (u : Z),
           cell times_df r j = Some u -> (u < max_time)%Z -> (v <= u)%Z) /\
        (forall r : nat, cell times_df r j = Some v -> i <= r) /\
        (forall r0 : nat,
           (forall r : nat, eligible times_df max_time r j -> r = r0) -> i = r0).
Proof.
  intros df t.
  destruct (assignment_records_sorted argsort argsort_ok df t)
    as (comb & E & Hperm & _).
  exists comb. split; [exact E |]. split.
  - intros j r Hr. exists (chosen_row df t j).
    apply (Permutation_in _ (Permutation_sym Hperm)).
    apply scan_records_In. now destruct (chosen_row_closest df t j r None Hr).
  - intros i j Hin. apply (Permutation_in _ Hperm) in Hin.
    apply scan_records_In in Hin. destruct Hin as (v & Hc & Hlt & Hmin).
    exists v. repeat split; auto.
    + intros r u Hu Hult. now apply (Hmin r u).
    + intros r Hr. now apply (Hmin r v).
    + intros r0 Hone. apply Hone. exists v. auto.
Qed.

(** C5.  Eligibility is strict: a cell equal to [max_time] is not among the
    eligible positions and is never the cell of a selected pair, every
    selected cell is strictly below [max_time], and the matrix [[600]] with
    [max_time = 600] gives no assignment. *)
Theorem C5_threshold_is_strict :
  (forall (times_df : DataFrame) (max_time : Z),
     exists comb_arr : list (nat * nat),
       assignment_records argsort times_df max_time = Ok comb_arr /\
       (forall i j : nat, cell times_df i j = Some max_time ->
          ~ In (i, j) (eligible_cells times_df max_time) /\ ~ In (i, j) comb_arr) /\
       (forall i j : nat, In (i, j) comb_arr ->
          exists v : Z, cell times_df i j = Some v /\ (v < max_time)%Z)) /\
  (forall origin_addresses origin_names destination_addresses destination_names,
     closest_from_matrix argsort origin_addresses origin_names
       destination_addresses destination_names 600 boundary_df =
     Ok (boundary_df, [])).
Proof.
  split.
  - intros df t.
    destruct (assignment_records_sorted argsort argsort_ok df t)
      as (comb & E & Hperm & _).
    exists comb. split; [exact E |]. split.
    + intros i j Hc. split.
      * intro Hin. apply eligible_cells_In in Hin. destruct Hin as (v & Hv & Hlt).
        rewrite Hc in Hv. inversion Hv. lia.
      * intro Hin. apply (Permutation_in _ Hperm) in Hin.
        apply scan_records_In in Hin. destruct Hin as (v & Hv & Hlt & _).
        rewrite Hc in Hv. inversion Hv. lia.
    + intros i j Hin. apply (Permutation_in _ Hperm) in Hin.
      apply scan_records_In in Hin. destruct Hin as (v & Hv & Hlt & _). eauto.
  - intros oa on da dn.
    destruct (assignment_records_sorted argsort argsort_ok boundary_df 600)
      as (comb & E & Hperm & _).
    apply Permutation_sym, Permutation_nil in Hperm. subst comb.
    unfold closest_from_matrix. now rewrite E.
Qed.

End Assignment.

(** ** Stable sorts keep the scan order *)

Lemma StronglySorted_filter : forall (A : Type) (R : A -> A -> Prop)
    (f : A -> bool) (l : list A),
  StronglySorted R l -> StronglySorted R (filter f l).
Proof.
  intros A R f l H. induction H as [| x l Hs IH Hall]; simpl; [constructor |].
  destruct (f x); [| assumption].
  constructor; [assumption |].
  rewrite Forall_forall in *. intros y Hy. apply filter_In in Hy. now apply Hall.
Qed.

Lemma StronglySorted_weaken : forall (A : Type) (R R' : A -> A -> Prop) (l : list A),
  (forall x y, In x l -> In y l -> R x y -> R' x y) ->
  StronglySorted R l -> StronglySorted R' l.
Proof.
  intros A R R' l Himp H. induction H as [| x l Hs IH Hall]; [constructor |].
  constructor.
  - apply IH. intros a b Ha Hb. apply Himp; now right.
  - rewrite Forall_forall in *. intros y Hy.
    apply Himp; [now left | now right | now apply Hall].
Qed.

Lemma StronglySorted_lt_unique : forall l l' : list nat,
  StronglySorted lt l -> StronglySorted lt l' ->
  (forall x, In x l <-> In x l') -> l = l'.
Proof.
  induction l as [| x l IH]; intros [| y l'] Hs Hs' Hin.
  - reflexivity.
  - destruct (proj2 (Hin y) (or_introl eq_refl)).
  - destruct (proj1 (Hin x) (or_introl eq_refl)).
  - apply StronglySorted_inv in Hs. destruct Hs as [Hs Hx].
    apply StronglySorted_inv in Hs'. destruct Hs' as [Hs' Hy].
    rewrite Forall_forall in Hx, Hy.
    assert (x = y).
    { destruct (proj1 (Hin x) (or_introl eq_refl)) as [E | Hxl']; [congruence |].
      destruct (proj2 (Hin y) (or_introl eq_refl)) as [E | Hyl]; [congruence |].
      specialize (Hx y Hyl). specialize (Hy x Hxl'). lia. }
    subst y. f_equal. apply IH; auto.
    intro z. split; intro Hz.
    + destruct (proj1 (Hin z) (or_intror Hz)) as [E | H]; [| exact H].
      specialize (Hx z Hz). lia.
    + destruct (proj2 (Hin z) (or_intror Hz)) as [E | H]; [| exact H].
      specialize (Hy z Hz). lia.
Qed.

Lemma seq_StronglySorted : forall n start : nat, StronglySorted lt (seq start n).
Proof.
  induction n as [| n IH]; intro start; simpl; constructor; [apply IH |].
  apply Forall_forall. intros y Hy. apply in_seq in Hy. lia.
Qed.

Lemma stable_positions_of_key : forall (argsort : list nat -> list nat)
    (a : list nat) (w : nat),
  argsort_contract argsort -> argsort_stable argsort ->
  filter (fun p => nth p a 0 =? w) (argsort a) =
  filter (fun p => nth p a 0 =? w) (seq 0 (List.length a)).
Proof.
  intros argsort a w Hok Hst. destruct (Hok a) as [Hperm _].
  apply StronglySorted_lt_unique.
  - apply (StronglySorted_weaken _
             (fun p q => nth p a 0 < nth q a 0 \/ (nth p a 0 = nth q a 0 /\ p < q))).
    + intros p q Hp Hq [Hlt | [_ Hlt]]; [| exact Hlt].
      apply filter_In in Hp, Hq. destruct Hp as [_ Hp]. destruct Hq as [_ Hq].
      apply Nat.eqb_eq in Hp, Hq. lia.
    + apply StronglySorted_filter. apply Sorted_StronglySorted; [| apply Hst].
      intros p q r [H1 | [H1 H1']] [H2 | [H2 H2']]; lia.
  - apply StronglySorted_filter, seq_StronglySorted.
  - intro p. rewrite !filter_In. split; intros [Hin Hk]; split; auto.
    + now apply (Permutation_in _ Hperm).
    + now apply (Permutation_in _ (Permutation_sym Hperm)).
Qed.

Lemma filter_map_comm : forall (A B : Type) (f : B -> bool) (g : A -> B) (l : list A),
  filter f (map g l) = map g (filter (fun x => f (g x)) l).
Proof.
  intros A B f g l. induction l as [| x l IH]; simpl; [reflexivity |].
  destruct (f (g x)); simpl; now rewrite IH.
Qed.

Lemma comb_arr_of_stable : forall (argsort : list nat -> list nat)
    (new_i_list new_j_list : list nat) (comb_arr : list (nat * nat)),
  argsort_contract argsort -> argsort_stable argsort ->
  List.length new_i_list = List.length new_j_list ->
  comb_arr_of argsort new_i_list new_j_list = Ok comb_arr ->
  scan_order_kept (combine new_i_list new_j_list) comb_arr.
Proof.
  intros argsort ni nj comb Hok Hst Hlen E w. unfold comb_arr_of in E.
  rewrite (fancy_index_map _ _ (argsort_in_range argsort Hok ni)) in E. simpl in E.
  rewrite fancy_index_map in E
    by (rewrite <- Hlen; apply (argsort_in_range argsort Hok)).
  simpl in E. inversion E; subst comb. clear E.
  rewrite combine_reindexed, <- (map_pair_seq _ _ Hlen), !filter_map_comm. simpl.
  now rewrite (stable_positions_of_key argsort ni w Hok Hst).
Qed.

Lemma insert_by_key_lex : forall (x : nat * nat) (l : list (nat * nat)),
  Sorted (fun a b => fst a < fst b \/ (fst a = fst b /\ snd a < snd b)) l ->
  (forall y, In y l -> snd x < snd y) ->
  Sorted (fun a b => fst a < fst b \/ (fst a = fst b /\ snd a < snd b))
         (insert_by_key x l).
Proof.
  intros x l. induction l as [| y l IH]; intros Hs Hpos; simpl.
  - repeat constructor.
  - specialize (Hpos y (or_introl eq_refl)) as Hxy.
    destruct (Nat.leb_spec (fst x) (fst y)) as [Hle | Hgt].
    + constructor; [assumption |]. constructor. lia.
    + apply Sorted_inv in Hs. destruct Hs as [Hs Hh].
      constructor.
      * apply IH; [assumption |]. intros z Hz. apply Hpos. now right.
      * destruct l as [| z l]; simpl.
        -- constructor. lia.
        -- destruct (fst x <=? fst z); constructor; [lia |]. now inversion Hh.
Qed.

Lemma sort_by_key_lex : forall l : list (nat * nat),
  StronglySorted lt (map snd l) ->
  Sorted (fun a b => fst a < fst b \/ (fst a = fst b /\ snd a < snd b))
         (sort_by_key l).
Proof.
  induction l as [| x l IH]; intro H; simpl; [constructor |].
  apply StronglySorted_inv in H. destruct H as [Hs Hall].
  apply insert_by_key_lex; [now apply IH |].
  intros y Hy. apply (Permutation_in _ (sort_by_key_perm l)) in Hy.
  rewrite Forall_forall in Hall. apply Hall. now apply in_map.
Qed.

Lemma Sorted_map_weaken : forall (A B : Type) (f : A -> B)
    (R : A -> A -> Prop) (R' : B -> B -> Prop) (l : list A),
  (forall x y, In x l -> In y l -> R x y -> R' (f x) (f y)) ->
  Sorted R l -> Sorted R' (map f l).
Proof.
  intros A B f R R' l Himp H. induction H as [| x l Hs IH Hh]; simpl; [constructor |].
  constructor.
  - apply IH. intros a b Ha Hb. apply Himp; now right.
  - destruct Hh as [| y l Hxy]; simpl; constructor.
    apply Himp; [now left | now right; left | assumption].
Qed.

Lemma stable_argsort_stable : argsort_stable stable_argsort.
Proof.
  intro a. unfold stable_argsort.
  apply (Sorted_map_weaken _ _ snd
           (fun x y => fst x < fst y \/ (fst x = fst y /\ snd x < snd y))).
  - intros [kx px] [ky py] Hx Hy. simpl.
    apply (Permutation_in _ (sort_by_key_perm _)) in Hx, Hy.
    apply combine_seq_key in Hx, Hy. rewrite Nat.sub_0_r in Hx, Hy.
    now subst kx ky.
  - apply sort_by_key_lex. rewrite combine_seq_snd. apply seq_StronglySorted.
Qed.

(** * The order of the records (lines 498-502) *)

(** C6, as amended.  The records are sorted by origin row index, ascending,
    and are a rearrangement of the pairs the loop appended; when the argsort
    is stable, records of equal origin keep the order in which the loop
    appended them. *)
Theorem C6_sorted_by_origin : forall (argsort : list nat -> list nat)
    (times_df : DataFrame) (max_time : Z),
  argsort_contract argsort ->
  exists comb_arr : list (nat * nat),
    assignment_records argsort times_df max_time = Ok comb_arr /\
    Sorted le (map fst comb_arr) /\
    Permutation comb_arr (scan_records times_df max_time) /\
    (argsort_stable argsort ->
     scan_order_kept (scan_records times_df max_time) comb_arr).
Proof.
  intros argsort df t Hok.
  destruct (assignment_records_sorted argsort Hok df t) as (comb & E & Hperm & Hs).
  exists comb. repeat split; auto.
  intro Hst. unfold assignment_records in E.
  destruct (new_lists_scan_records df t) as (ni & nj & En & Hlen & Hc).
  rewrite En in E. simpl in E. rewrite <- Hc.
  now apply (comb_arr_of_stable argsort ni nj).
Qed.

(** The claim C6 as the specification words it fails on [crossing_df]: the
    loop appends (1,1), (1,0), (1,1), all of origin 1, so no output that
    keeps that order has ascending destinations, and the output under the
    stable argsort is that very list. *)
Lemma C6_destinations_not_ascending :
  scan_records crossing_df 600 = [(1, 1); (1, 0); (1, 1)] /\
  assignment_records stable_argsort crossing_df 600 = Ok [(1, 1); (1, 0); (1, 1)] /\
  ~ destinations_ascending [(1, 1); (1, 0); (1, 1)] /\
  (forall comb_arr : list (nat * nat),
     scan_order_kept (scan_records crossing_df 600) comb_arr ->
     ~ destinations_ascending comb_arr).
Proof.
  split; [reflexivity |]. split; [reflexivity |].
  assert (H : forall comb_arr : list (nat * nat),
            scan_order_kept (scan_records crossing_df 600) comb_arr ->
            ~ destinations_ascending comb_arr);
    [| split; [apply H; intro w; reflexivity | exact H]].
  intros comb Hkept Hasc. specialize (Hkept 1). specialize (Hasc 1).
  rewrite Hkept in Hasc. simpl in Hasc.
  apply Sorted_inv in Hasc. destruct Hasc as [_ Hh].
  inversion Hh; subst. lia.
Qed.

Lemma C6_sorted_by_origin_witness :
  argsort_contract stable_argsort /\
  argsort_stable stable_argsort /\
  exists comb_arr : list (nat * nat),
    assignment_records stable_argsort crossing_df 600 = Ok comb_arr /\
    Sorted le (map fst comb_arr) /\
    Permutation comb_arr (scan_records crossing_df 600) /\
    scan_order_kept (scan_records crossing_df 600) comb_arr.
Proof.
  split; [exact stable_argsort_contract |].
  split; [exact stable_argsort_stable |].
  destruct (C6_sorted_by_origin stable_argsort crossing_df 600
              stable_argsort_contract) as (comb & E & Hs & Hp & Hk).
  exists comb. repeat split; auto. apply Hk. exact stable_argsort_stable.
Defined.

(** * The travel-time provider *)

(** ** Writing a cell *)

Lemma nth_error_set_nth_eq : forall (A : Type) (l : list A) (n : nat) (x : A),
  n < List.length l -> nth_error (set_nth n x l) n = Some x.
Proof.
  intros A l. induction l as [| y l IH]; intros n x H; simpl in *; [lia |].
  destruct n; simpl; [reflexivity | apply IH; lia].
Qed.

Lemma nth_error_set_nth_neq : forall (A : Type) (l : list A) (n n' : nat) (x : A),
  n <> n' -> nth_error (set_nth n x l) n' = nth_error l n'.
Proof.
  intros A l. induction l as [| y l IH]; intros n n' x H; simpl; [reflexivity |].
  destruct n, n'; simpl; try reflexivity; try lia. apply IH. lia.
Qed.

Lemma cell_at_set_cell_eq : forall (a : list (list Z)) (i j : nat) (v old : Z),
  cell_at a i j = Some old -> cell_at (set_cell a i j v) i j = Some v.
Proof.
  intros a i j v old H. unfold cell_at, set_cell in *.
  destruct (nth_error a i) as [row |] eqn:E; [| discriminate].
  rewrite nth_error_set_nth_eq by (apply nth_error_Some; congruence).
  apply nth_error_set_nth_eq. apply nth_error_Some. congruence.
Qed.

Lemma cell_at_set_cell_neq : forall (a : list (list Z)) (i j i' j' : nat) (v : Z),
  i' <> i \/ j' <> j -> cell_at (set_cell a i j v) i' j' = cell_at a i' j'.
Proof.
  intros a i j i' j' v H. unfold cell_at, set_cell.
  destruct (nth_error a i) as [row |] eqn:E; [| reflexivity].
  destruct (Nat.eq_dec i i') as [<- | Hne].
  - rewrite nth_error_set_nth_eq by (apply nth_error_Some; congruence).
    rewrite E. apply nth_error_set_nth_neq. lia.
  - now rewrite nth_error_set_nth_neq.
Qed.

Lemma cell_at_zeros : forall n m i j : nat,
  i < n -> j < m -> cell_at (zeros n m) i j = Some 0%Z.
Proof.
  intros n m i j Hi Hj. unfold cell_at, zeros.
  rewrite nth_error_repeat by assumption. now apply nth_error_repeat.
Qed.

Lemma enumerate_from_cons : forall (A : Type) (start : nat) (x : A) (l : list A),
  enumerate_from start (x :: l) = (start, x) :: enumerate_from (S start) l.
Proof. reflexivity. Qed.

(** ** The loops when every answer is usable *)

Lemma destination_loop_answered : forall (w : world) (the_key o : string) (dt : Z)
    (i : nat) (rest : list string) (j : nat) (tr : io) (arr : list (list Z)),
  (forall p d, nth_error rest p = Some d ->
     answered (requests_get w i (j + p) (mkRequest o d dt the_key))) ->
  (forall p, p < List.length rest -> cell_at arr i (j + p) = Some 0%Z) ->
  exists arr' : list (list Z),
    destination_loop w the_key o dt i j rest tr arr =
    (mkIo (sent tr ++ map (fun jd => mkRequest o (snd jd) dt the_key)
                          (enumerate_from j rest))
          (printed tr ++
           flat_map (fun jd =>
                       warning_of (requests_get w i (fst jd)
                                     (mkRequest o (snd jd) dt the_key)) (snd jd))
                    (enumerate_from j rest)),
     Ok arr') /\
    (forall p d, nth_error rest p = Some d ->
       cell_at arr' i (j + p) =
       Some (travel_time (requests_get w i (j + p) (mkRequest o d dt the_key)))) /\
    (forall i' j', i' <> i \/ j' < j \/ j + List.length rest <= j' ->
       cell_at arr' i' j' = cell_at arr i' j').
Proof.
  intros w key o dt i rest. induction rest as [| d rest IH]; intros j tr arr Hans Hz.
  - exists arr. simpl. rewrite !app_nil_r. destruct tr. repeat split; auto.
    intros p d' H. now destruct p.
  - pose proof (Hans 0 d eq_refl) as Hd. rewrite Nat.add_0_r in Hd.
    destruct Hd as (Hcode & data & Hjson & Hdur).
    assert (Hans' : forall p d', nth_error rest p = Some d' ->
              answered (requests_get w i (S j + p) (mkRequest o d' dt key))).
    { intros p d' H. replace (S j + p) with (j + S p) by lia. now apply Hans. }
    rewrite enumerate_from_cons. simpl.
    rewrite Hcode, Hjson. simpl.
    unfold warning_of, travel_time. rewrite Hjson.
    destruct (String.eqb (status data) "OK") eqn:Est.
    + apply String.eqb_eq in Est.
      destruct (duration_value data) as [v |] eqn:Edur; [| now destruct (Hdur Est)].
      assert (Hcur : cell_at arr i j = Some 0%Z).
      { rewrite <- (Nat.add_0_r j). apply Hz. simpl. lia. }
      destruct (IH (S j) (mkIo (sent tr ++ [mkRequest o d dt key]) (printed tr))
                  (set_cell arr i j v) Hans') as (arr' & E & Hcells & Hrest).
      { intros p Hp. rewrite cell_at_set_cell_neq by lia.
        replace (S j + p) with (j + S p) by lia. apply Hz. simpl. lia. }
      exists arr'. rewrite E. simpl. rewrite <- !app_assoc. simpl.
      split; [reflexivity |]. split.
      * intros [| p] d' H; simpl in H.
        -- inversion H; subst d'. rewrite Nat.add_0_r, Hjson.
           rewrite (proj2 (String.eqb_eq _ _) Est), Edur.
           rewrite Hrest by lia. now apply (cell_at_set_cell_eq arr i j v 0%Z).
        -- replace (j + S p) with (S j + p) by lia. now apply Hcells.
      * intros i' j' H. simpl in H. rewrite Hrest by lia.
        apply cell_at_set_cell_neq. lia.
    + destruct (IH (S j)
                  (mkIo (sent tr ++ [mkRequest o d dt key])
                        (printed tr ++ [no_valid_route d (status data)]))
                  arr Hans') as (arr' & E & Hcells & Hrest).
      { intros p Hp. replace (S j + p) with (j + S p) by lia. apply Hz. simpl. lia. }
      exists arr'. rewrite E. simpl. rewrite <- !app_assoc. simpl.
      split; [reflexivity |]. split.
      * intros [| p] d' H; simpl in H.
        -- inversion H; subst d'. rewrite Nat.add_0_r, Hjson, Est.
           rewrite Hrest by lia. rewrite <- (Nat.add_0_r j) at 1. apply Hz. simpl. lia.
        -- replace (j + S p) with (S j + p) by lia. now apply Hcells.
      * intros i' j' H. simpl in H. apply Hrest. lia.
Qed.

Lemma origin_loop_answered : forall (w : world) (the_key : string)
    (dests origins : list string) (i : nat) (tr : io) (arr : list (list Z)),
  (forall q o p d, nth_error origins q = Some o -> nth_error dests p = Some d ->
     answered (answer w the_key (i + q) p o d)) ->
  (forall q p, q < List.length origins -> p < List.length dests ->
     cell_at arr (i + q) p = Some 0%Z) ->
  exists arr' : list (list Z),
    origin_loop w the_key i origins dests tr arr =
    (mkIo (sent tr ++
           flat_map (fun io =>
                       map (fun jd => request_for w the_key (fst io) (snd io) (snd jd))
                           (enumerate_from 0 dests))
                    (enumerate_from i origins))
          (printed tr ++
           flat_map (fun io =>
                       flat_map (fun jd =>
                                   warning_of (answer w the_key (fst io) (fst jd)
                                                 (snd io) (snd jd)) (snd jd))
                                (enumerate_from 0 dests))
                    (enumerate_from i origins)),
     Ok arr') /\
    (forall q o p d, nth_error origins q = Some o -> nth_error dests p = Some d ->
       cell_at arr' (i + q) p = Some (travel_time (answer w the_key (i + q) p o d))) /\
    (forall i' j', i' < i \/ i + List.length origins <= i' \/ List.length dests <= j' ->
       cell_at arr' i' j' = cell_at arr i' j').
Proof.
  intros w key dests origins.
  induction origins as [| o origins IH]; intros i tr arr Hans Hz.
  - exists arr. simpl. rewrite !app_nil_r. destruct tr. repeat split; auto.
    intros q o p d H. now destruct q.
  - destruct (destination_loop_answered w key o (get_next_2am_unix_timestamp w i)
                i dests 0 tr arr) as (arr1 & E1 & Hcells1 & Hrest1).
    { intros p d H. simpl. specialize (Hans 0 o p d eq_refl H).
      now rewrite Nat.add_0_r in Hans. }
    { intros p Hp. simpl. rewrite <- (Nat.add_0_r i). apply Hz; simpl; lia. }
    rewrite enumerate_from_cons. simpl. rewrite E1.
    match goal with
    | |- context [origin_loop w key (S i) origins dests ?t arr1] =>
        destruct (IH (S i) t arr1) as (arr' & E & Hcells & Hrest)
    end.
    { intros q o' p d H1 H2. replace (S i + q) with (i + S q) by lia.
      now apply Hans. }
    { intros q p Hq Hp. rewrite Hrest1 by lia.
      replace (S i + q) with (i + S q) by lia. apply Hz; simpl; lia. }
    exists arr'. rewrite E. simpl. rewrite <- !app_assoc.
    split; [reflexivity |]. split.
    + intros [| q] o' p d H1 H2; simpl in H1.
      * inversion H1; subst o'. rewrite Nat.add_0_r.
        rewrite Hrest by lia. apply (Hcells1 p d H2).
      * replace (i + S q) with (S i + q) by lia. now apply Hcells.
    + intros i' j' H. simpl in H. rewrite Hrest by lia. apply Hrest1. lia.
Qed.

(** ** The loops when a transport response is not 200 *)

Lemma destination_loop_aborts : forall (w : world) (the_key o : string) (dt : Z)
    (i : nat) (rest : list string) (j : nat) (tr : io) (arr : list (list Z)),
  (exists p d, nth_error rest p = Some d /\
     status_code (requests_get w i (j + p) (mkRequest o d dt the_key)) <> 200%Z) ->
  exists (tr' : io) (e : exn),
    destination_loop w the_key o dt i j rest tr arr = (tr', Raise e).
Proof.
  intros w key o dt i rest.
  induction rest as [| d rest IH]; intros j tr arr (p & d' & Hp & Hcode).
  - now destruct p.
  - simpl. destruct p as [| p]; simpl in Hp.
    + inversion Hp; subst d'. rewrite Nat.add_0_r in Hcode.
      apply Z.eqb_neq in Hcode. rewrite Hcode. eauto.
    + assert (Hex : exists p0 d0, nth_error rest p0 = Some d0 /\
                status_code (requests_get w i (S j + p0) (mkRequest o d0 dt key))
                <> 200%Z).
      { exists p, d'. split; [assumption |].
        now replace (S j + p) with (j + S p) by lia. }
      destruct (status_code (requests_get w i j (mkRequest o d dt key)) =? 200)%Z;
        [| eauto].
      destruct (json (requests_get w i j (mkRequest o d dt key))) as [data |];
        [| eauto].
      destruct (String.eqb (status data) "OK"); [| now apply IH].
      destruct (duration_value data); [now apply IH | eauto].
Qed.

Lemma origin_loop_aborts : forall (w : world) (the_key : string)
    (dests origins : list string) (i : nat) (tr : io) (arr : list (list Z)),
  (exists q o p d, nth_error origins q = Some o /\ nth_error dests p = Some d /\
     status_code (answer w the_key (i + q) p o d) <> 200%Z) ->
  exists (tr' : io) (e : exn),
    origin_loop w the_key i origins dests tr arr = (tr', Raise e).
Proof.
  intros w key dests origins.
  induction origins as [| o origins IH]; intros i tr arr (q & o' & p & d & Hq & Hp & Hc).
  - now destruct q.
  - simpl. destruct q as [| q]; simpl in Hq.
    + inversion Hq; subst o'. rewrite Nat.add_0_r in Hc.
      destruct (destination_loop_aborts w key o (get_next_2am_unix_timestamp w i)
                  i dests 0 tr arr) as (tr' & e & E).
      { exists p, d. split; [assumption |]. exact Hc. }
      rewrite E. eauto.
    + destruct (destination_loop w key o (get_next_2am_unix_timestamp w i) i 0
                  dests tr arr) as [tr1 [arr1 | e]]; [| eauto].
      apply IH. exists q, o', p, d. repeat split; auto.
      now replace (S i + q) with (i + S q) by lia.
Qed.

(** The first transport failure in row-major order is the one that is raised. *)
Lemma destination_loop_first_failure : forall (w : world) (the_key o : string)
    (dt : Z) (i : nat) (rest : list string) (j : nat) (tr : io)
    (arr : list (list Z)) (p : nat) (d : string),
  nth_error rest p = Some d ->
  status_code (requests_get w i (j + p) (mkRequest o d dt the_key)) <> 200%Z ->
  (forall p' d', p' < p -> nth_error rest p' = Some d' ->
     answered (requests_get w i (j + p') (mkRequest o d' dt the_key))) ->
  exists tr' : io,
    destination_loop w the_key o dt i j rest tr arr =
    (tr', Raise (Exception api_error
                   (status_code (requests_get w i (j + p)
                                   (mkRequest o d dt the_key))))) /\
    List.length (sent tr') = List.length (sent tr) + p + 1.
Proof.
  intros w key o dt i rest.
  induction rest as [| d0 rest IH]; intros j tr arr p d Hp Hcode Hans.
  - now destruct p.
  - simpl. destruct p as [| p]; simpl in Hp.
    + inversion Hp; subst d0. rewrite Nat.add_0_r in *.
      rewrite (proj2 (Z.eqb_neq _ _) Hcode). eexists. split; [reflexivity |].
      simpl. rewrite length_app. simpl. lia.
    + pose proof (Hans 0 d0 (Nat.lt_0_succ p) eq_refl) as H0.
      rewrite Nat.add_0_r in H0. destruct H0 as (Hc0 & data & Hjson & Hdur).
      rewrite Hc0, Hjson. simpl.
      assert (Hans' : forall p' d', p' < p -> nth_error rest p' = Some d' ->
                answered (requests_get w i (S j + p') (mkRequest o d' dt key))).
      { intros p' d' Hlt H. replace (S j + p') with (j + S p') by lia.
        apply Hans; [lia | exact H]. }
      replace (j + S p) with (S j + p) in * by lia.
      destruct (String.eqb (status data) "OK") eqn:Est.
      * apply String.eqb_eq in Est.
        destruct (duration_value data) as [v |] eqn:Edur; [| now destruct (Hdur Est)].
        destruct (IH (S j) (mkIo (sent tr ++ [mkRequest o d0 dt key]) (printed tr))
                    (set_cell arr i j v) p d Hp Hcode Hans') as (tr' & E & Hlen).
        exists tr'. split; [exact E |]. rewrite Hlen. simpl.
        rewrite length_app. simpl. lia.
      * destruct (IH (S j)
                    (mkIo (sent tr ++ [mkRequest o d0 dt key])
                          (printed tr ++ [no_valid_route d0 (status data)]))
                    arr p d Hp Hcode Hans') as (tr' & E & Hlen).
        exists tr'. split; [exact E |]. rewrite Hlen. simpl.
        rewrite length_app. simpl. lia.
Qed.

Lemma origin_loop_first_failure : forall (w : world) (the_key : string)
    (dests origins : list string) (i : nat) (tr : io) (arr : list (list Z))
    (q : nat) (o : string) (p : nat) (d : string),
  nth_error origins q = Some o -> nth_error dests p = Some d ->
  status_code (answer w the_key (i + q) p o d) <> 200%Z ->
  (forall q' o' p' d', q' < q \/ (q' = q /\ p' < p) ->
     nth_error origins q' = Some o' -> nth_error dests p' = Some d' ->
     answered (answer w the_key (i + q') p' o' d')) ->
  (forall q' p', q' < List.length origins -> p' < List.length dests ->
     cell_at arr (i + q') p' = Some 0%Z) ->
  exists tr' : io,
    origin_loop w the_key i origins dests tr arr =
    (tr', Raise (Exception api_error (status_code (answer w the_key (i + q) p o d))))
    /\
    List.length (sent tr') = List.length (sent tr) + q * List.length dests + p + 1.
Proof.
  intros w key dests origins.
  induction origins as [| o0 origins IH]; intros i tr arr q o p d Hq Hp Hcode Hans Hz.
  - now destruct q.
  - simpl. destruct q as [| q]; simpl in Hq.
    + inversion Hq; subst o0. rewrite Nat.add_0_r in *.
      destruct (destination_loop_first_failure w key o
                  (get_next_2am_unix_timestamp w i) i dests 0 tr arr p d Hp Hcode)
        as (tr' & E & Hlen).
      { intros p' d' Hlt H. specialize (Hans 0 o p' d' (or_intror (conj eq_refl Hlt))
                                          eq_refl H).
        now rewrite Nat.add_0_r in Hans. }
      rewrite E. exists tr'. split; [reflexivity |]. rewrite Hlen. lia.
    + destruct (destination_loop_answered w key o0 (get_next_2am_unix_timestamp w i)
                  i dests 0 tr arr) as (arr1 & E1 & _ & Hrest1).
      { intros p' d' H. simpl.
        assert (Hlt : 0 < S q \/ (0 = S q /\ p' < p)) by (left; lia).
        specialize (Hans 0 o0 p' d' Hlt eq_refl H).
        now rewrite Nat.add_0_r in Hans. }
      { intros p' Hp'. simpl. rewrite <- (Nat.add_0_r i). apply Hz; simpl; lia. }
      rewrite E1. replace (i + S q) with (S i + q) in * by lia.
      match goal with
      | |- context [origin_loop w key (S i) origins dests ?t arr1] =>
          destruct (IH (S i) t arr1 q o p d Hq Hp Hcode) as (tr' & E & Hlen)
      end.
      { intros q' o' p' d' Hlt H1 H2. replace (S i + q') with (i + S q') by lia.
        apply Hans; [lia | exact H1 | exact H2]. }
      { intros q' p' Hq' Hp'. rewrite Hrest1 by lia.
        replace (S i + q') with (i + S q') by lia. apply Hz; simpl; lia. }
      exists tr'. split; [exact E |]. rewrite Hlen. cbn [sent].
      rewrite length_app, length_map. unfold enumerate_from.
      rewrite length_combine, length_seq. lia.
Qed.

Lemma enumerate_from_In : forall (A : Type) (l : list A) (start p : nat) (x : A),
  nth_error l p = Some x -> In (start + p, x) (enumerate_from start l).
Proof.
  intros A l. induction l as [| y l IH]; intros start p x H.
  - now destruct p.
  - rewrite enumerate_from_cons. destruct p as [| p]; simpl in H.
    + inversion H; subst. rewrite Nat.add_0_r. now left.
    + right. replace (start + S p) with (S start + p) by lia. now apply IH.
Qed.

Lemma enumerate_from_length : forall (A : Type) (l : list A) (start : nat),
  List.length (enumerate_from start l) = List.length l.
Proof.
  intros A l start. unfold enumerate_from.
  rewrite length_combine, length_seq. lia.
Qed.

Lemma flat_map_enumerate_length : forall (A B C : Type) (g : nat * A -> B -> C)
    (ds : list B) (os : list A) (start : nat),
  List.length (flat_map (fun io => map (g io) ds) (enumerate_from start os)) =
  List.length os * List.length ds.
Proof.
  intros A B C g ds os. induction os as [| o os IH]; intro start; [reflexivity |].
  rewrite enumerate_from_cons. simpl. now rewrite length_app, length_map, IH.
Qed.

Lemma travel_time_unrouted : forall r : response,
  routed r = false -> travel_time r = 0%Z.
Proof.
  intros r H. unfold routed, travel_time in *.
  destruct (json r) as [data |]; [| reflexivity]. now rewrite H.
Qed.

Lemma time_to_destinations_checked : forall (w : world)
    (origin_addresses origin_names destination_addresses destination_names : pyseq)
    (the_key : string),
  len origin_names = len origin_addresses ->
  len destination_names = len destination_addresses ->
  the_key <> EmptyString ->
  time_to_destinations w origin_addresses origin_names
    destination_addresses destination_names (Some the_key) =
  match origin_loop w the_key 0 (items origin_addresses)
          (items destination_addresses) no_io
          (zeros (len origin_addresses) (len destination_addresses)) with
  | (tr, Ok times_arr) =>
      (tr, Ok (mkDataFrame times_arr (items origin_names) (items destination_names)))
  | (tr, Raise e) => (tr, Raise e)
  end.
Proof.
  intros w oa on da dn key Hn Hm Hkey. unfold time_to_destinations.
  rewrite Hn, Hm, !Nat.eqb_refl. simpl. rewrite !andb_false_r.
  destruct key; [congruence | reflexivity].
Qed.

(** C9.  With well-formed arguments, when every answer is usable the
    function returns the matrix labelled by the names, the cell of a pair
    whose API status is not OK still holds 0 and its warning has been
    printed, and the loop has gone through every pair; when the transport
    status of some pair is not 200 the function raises and returns no
    matrix, and so does [get_closest_locations] when it calls it; and the
    first pair whose transport status is not 200 raises the API error with
    that status, right after its own request. *)
Theorem C9_no_route_is_zero_and_transport_failure_aborts :
  forall (w : world)
    (origin_addresses origin_names destination_addresses destination_names : pyseq)
    (the_key : string),
  len origin_names = len origin_addresses ->
  len destination_names = len destination_addresses ->
  the_key <> EmptyString ->
  ((forall i j o d,
      nth_error (items origin_addresses) i = Some o ->
      nth_error (items destination_addresses) j = Some d ->
      answered (answer w the_key i j o d)) ->
   exists (tr : io) (df : DataFrame),
     time_to_destinations w origin_addresses origin_names
       destination_addresses destination_names (Some the_key) = (tr, Ok df) /\
     index df = items origin_names /\ columns df = items destination_names /\
     List.length (sent tr) = len origin_addresses * len destination_addresses /\
     forall i j o d,
       nth_error (items origin_addresses) i = Some o ->
       nth_error (items destination_addresses) j = Some d ->
       cell df i j = Some (travel_time (answer w the_key i j o d)) /\
       (routed (answer w the_key i j o d) = false ->
        cell df i j = Some 0%Z /\
        exists data : directions,
          json (answer w the_key i j o d) = Some data /\
          In (no_valid_route d (status data)) (printed tr))) /\
  ((exists i j o d,
      nth_error (items origin_addresses) i = Some o /\
      nth_error (items destination_addresses) j = Some d /\
      status_code (answer w the_key i j o d) <> 200%Z) ->
   exists (tr : io) (e : exn),
     time_to_destinations w origin_addresses origin_names
       destination_addresses destination_names (Some the_key) = (tr, Raise e) /\
     forall (argsort : list nat -> list nat) (max_time : Z),
       get_closest_locations w argsort origin_addresses origin_names
         destination_addresses destination_names max_time None (Some the_key) =
       (tr, Raise e)) /\
  (forall i j o d,
     nth_error (items origin_addresses) i = Some o ->
     nth_error (items destination_addresses) j = Some d ->
     status_code (answer w the_key i j o d) <> 200%Z ->
     (forall i' j' o' d',
        i' < i \/ (i' = i /\ j' < j) ->
        nth_error (items origin_addresses) i' = Some o' ->
        nth_error (items destination_addresses) j' = Some d' ->
        answered (answer w the_key i' j' o' d')) ->
     exists tr : io,
       time_to_destinations w origin_addresses origin_names
         destination_addresses destination_names (Some the_key) =
       (tr, Raise (Exception api_error (status_code (answer w the_key i j o d)))) /\
       List.length (sent tr) = i * len destination_addresses + j + 1).
Proof.
  intros w oa on da dn key Hn Hm Hkey.
  assert (Hnot : not_apikey (Some key) = false).
  { destruct key; [congruence | reflexivity]. }
  pose proof (time_to_destinations_checked w oa on da dn key Hn Hm Hkey) as Hpre.
  split; [| split].
  - intro Hans.
    destruct (origin_loop_answered w key (items da) (items oa) 0 no_io
                (zeros (len oa) (len da))) as (arr & E & Hcells & _).
    { intros q o p d H1 H2. now apply Hans. }
    { intros q p Hq Hp. now apply cell_at_zeros. }
    eexists _, (mkDataFrame arr (items on) (items dn)).
    rewrite Hpre, E. unfold no_io. cbn [sent printed app index columns].
    split; [reflexivity |]. split; [reflexivity |]. split; [reflexivity |]. split.
    + unfold len.
      rewrite <- (enumerate_from_length string (items da) 0).
      apply (flat_map_enumerate_length string (nat * string) request
               (fun io jd => request_for w key (fst io) (snd io) (snd jd))).
    + intros i j o d Ho Hd. pose proof (Hcells i o j d Ho Hd) as Hc.
      simpl in Hc. split; [exact Hc |].
      intro Hr. split.
      * unfold cell. simpl. rewrite Hc. now rewrite travel_time_unrouted.
      * destruct (Hans i j o d Ho Hd) as (_ & data & Hjson & _).
        exists data. split; [exact Hjson |].
        apply in_flat_map. exists (i, o). split.
        { apply (enumerate_from_In _ (items oa) 0 i o Ho). }
        apply in_flat_map. exists (j, d). split.
        { apply (enumerate_from_In _ (items da) 0 j d Hd). }
        simpl. unfold warning_of. rewrite Hjson.
        unfold routed in Hr. rewrite Hjson in Hr. rewrite Hr. now left.
  - intros (i & j & o & d & Ho & Hd & Hc).
    destruct (origin_loop_aborts w key (items da) (items oa) 0 no_io
                (zeros (len oa) (len da))) as (tr & e & E).
    { exists i, o, j, d. auto. }
    exists tr, e.
    assert (Ettd : time_to_destinations w oa on da dn (Some key) = (tr, Raise e)).
    { now rewrite Hpre, E. }
    split; [exact Ettd |].
    intros argsort t. unfold get_closest_locations. cbn [not_times_df andb].
    now rewrite Hnot, Ettd.
  - intros i j o d Ho Hd Hc Hbefore.
    destruct (origin_loop_first_failure w key (items da) (items oa) 0 no_io
                (zeros (len oa) (len da)) i o j d Ho Hd Hc) as (tr & E & Hlen).
    { intros q' o' p' d' Hlt H1 H2. now apply Hbefore. }
    { intros q' p' Hq' Hp'. now apply cell_at_zeros. }
    exists tr. rewrite Hpre, E. split; [reflexivity |]. rewrite Hlen. reflexivity.
Qed.

(** C10.  When the names and the addresses of the origins differ in
    length, or those of the destinations do, or the key is missing or
    empty, the function raises [ValueError] and has issued no request. *)
Theorem C10_invalid_arguments_before_any_request :
  forall (w : world)
    (origin_addresses origin_names destination_addresses destination_names : pyseq)
    (apikey : option string),
  len origin_names <> len origin_addresses \/
  len destination_names <> len destination_addresses \/
  not_apikey apikey = true ->
  exists (tr : io) (msg : string),
    time_to_destinations w origin_addresses origin_names
      destination_addresses destination_names apikey =
    (tr, Raise (ValueError msg)) /\
    sent tr = [].
Proof.
  intros w oa on da dn apikey H. unfold time_to_destinations.
  destruct (is_ndarray on && negb (len on =? len oa)); [simpl; eauto |].
  destruct (is_ndarray dn && negb (len dn =? len da)); [simpl; eauto |].
  destruct (negb (len on =? len oa) || negb (len dn =? len da)) eqn:E;
    [simpl; eauto |].
  apply orb_false_elim in E. destruct E as [E1 E2].
  apply negb_false_iff, Nat.eqb_eq in E1, E2.
  destruct H as [H | [H | H]]; try contradiction.
  rewrite H. simpl. eauto.
Qed.

(** * The entry tests of [get_closest_locations] (lines 470-474) *)

(** C1, on the code.  A supplied matrix never reaches the assignment: line
    470 asks for its truth value and pandas raises [ValueError], with or
    without a key.  Without a matrix the call raises when the key is missing
    or empty, and otherwise goes on to [time_to_destinations] and, with its
    matrix, to the assignment. *)
Theorem C1_supplied_matrix_raises :
  forall (w : world) (argsort : list nat -> list nat)
    (origin_addresses origin_names destination_addresses destination_names : pyseq)
    (max_time : Z),
  (forall (times_df : DataFrame) (apikey : option string),
     get_closest_locations w argsort origin_addresses origin_names
       destination_addresses destination_names max_time (Some times_df) apikey =
     (no_io, Raise (ValueError truth_value_ambiguous))) /\
  (forall apikey : option string,
     not_apikey apikey = true ->
     get_closest_locations w argsort origin_addresses origin_names
       destination_addresses destination_names max_time None apikey =
     (no_io, Raise (ValueError api_key_required))) /\
  (forall apikey : option string,
     not_apikey apikey = false ->
     get_closest_locations w argsort origin_addresses origin_names
       destination_addresses destination_names max_time None apikey =
     match time_to_destinations w origin_addresses origin_names
             destination_addresses destination_names apikey with
     | (tr, Ok df) =>
         (tr, closest_from_matrix argsort origin_addresses origin_names
                destination_addresses destination_names max_time df)
     | (tr, Raise e) => (tr, Raise e)
     end).
Proof.
  intros w argsort oa on da dn t. split; [reflexivity |]. split.
  - intros apikey H. unfold get_closest_locations. cbn [not_times_df andb].
    now rewrite H.
  - intros apikey H. unfold get_closest_locations. cbn [not_times_df andb].
    now rewrite H.
Qed.

(** * One destination, several records *)

(** C2, on the code.  In the worked example of the specification both rows
    of column X are below 600, and the report holds the block of (B, X)
    twice: one record per eligible cell, not one per destination. *)
Theorem C2_two_records_for_one_destination :
  count_below_in_column sample_df 600 0 = 2 /\
  assignment_records stable_argsort sample_df 600 = Ok [(1, 0); (1, 0); (1, 1)] /\
  closest_from_matrix stable_argsort sample_origin_addresses sample_origin_names
    sample_destination_addresses sample_destination_names 600 sample_df =
  Ok (sample_df,
      [output_string "B" "2 Second St" "X" "10 Tenth Ave";
       output_string "B" "2 Second St" "X" "10 Tenth Ave";
       output_string "B" "2 Second St" "Y" "20 Twentieth Ave"]).
Proof.
  repeat split; reflexivity.
Qed.

(** * The report block (lines 506-513) *)








(** * The matrix that comes back *)

Lemma map_set_nth_same : forall (A B : Type) (f : A -> B) (l : list A)
    (n : nat) (x y : A),
  nth_error l n = Some y -> f x = f y -> map f (set_nth n x l) = map f l.
Proof.
  intros A B f l. induction l as [| z l IH]; intros n x y Hn Hf; [reflexivity |].
  destruct n as [| n]; simpl in *.
  - inversion Hn; subst. now rewrite Hf.
  - now rewrite (IH n x y Hn Hf).
Qed.

Lemma length_set_nth : forall (A : Type) (l : list A) (n : nat) (x : A),
  List.length (set_nth n x l) = List.length l.
Proof.
  intros A l. induction l as [| z l IH]; intros n x; [reflexivity |].
  destruct n; simpl; [reflexivity | now rewrite IH].
Qed.

Lemma set_cell_shape : forall (a : list (list Z)) (i j : nat) (v : Z),
  map (@List.length Z) (set_cell a i j v) = map (@List.length Z) a.
Proof.
  intros a i j v. unfold set_cell.
  destruct (nth_error a i) as [row |] eqn:E; [| reflexivity].
  apply (map_set_nth_same _ _ _ a i _ row E). apply length_set_nth.
Qed.

Lemma destination_loop_shape : forall (w : world) (the_key o : string) (dt : Z)
    (i : nat) (rest : list string) (j : nat) (tr tr' : io) (arr arr' : list (list Z)),
  destination_loop w the_key o dt i j rest tr arr = (tr', Ok arr') ->
  map (@List.length Z) arr' = map (@List.length Z) arr.
Proof.
  intros w key o dt i rest.
  induction rest as [| d rest IH]; intros j tr tr' arr arr' H; simpl in H.
  - now inversion H.
  - destruct (status_code (requests_get w i j (mkRequest o d dt key)) =? 200)%Z;
      [| discriminate].
    destruct (json (requests_get w i j (mkRequest o d dt key))) as [data |];
      [| discriminate].
    destruct (String.eqb (status data) "OK").
    + destruct (duration_value data) as [v |]; [| discriminate].
      apply IH in H. now rewrite set_cell_shape in H.
    + now apply IH in H.
Qed.

Lemma origin_loop_shape : forall (w : world) (the_key : string)
    (dests origins : list string) (i : nat) (tr tr' : io) (arr arr' : list (list Z)),
  origin_loop w the_key i origins dests tr arr = (tr', Ok arr') ->
  map (@List.length Z) arr' = map (@List.length Z) arr.
Proof.
  intros w key dests origins.
  induction origins as [| o origins IH]; intros i tr tr' arr arr' H; simpl in H.
  - now inversion H.
  - destruct (destination_loop w key o (get_next_2am_unix_timestamp w i) i 0
                dests tr arr) as [tr1 [arr1 | e]] eqn:E; [| discriminate].
    apply IH in H. apply destination_loop_shape in E. congruence.
Qed.

Lemma shape_labels_cover : forall (times_arr : list (list Z))
    (origin_addresses origin_names destination_addresses destination_names : pyseq),
  map (@List.length Z) times_arr =
  repeat (len destination_addresses) (len origin_addresses) ->
  len origin_names = len origin_addresses ->
  len destination_names = len destination_addresses ->
  labels_cover (mkDataFrame times_arr (items origin_names) (items destination_names))
               origin_addresses origin_names
               destination_addresses destination_names.
Proof.
  intros arr oa on da dn Hshape Hn Hm. unfold labels_cover. simpl.
  assert (Hrows : List.length arr = len oa).
  { rewrite <- (length_map (@List.length Z) arr), Hshape. apply repeat_length. }
  split; [lia |]. split; [lia |].
  apply Forall_forall. intros row Hin.
  apply (in_map (@List.length Z)) in Hin. rewrite Hshape in Hin.
  apply repeat_spec in Hin. lia.
Qed.


(** * The theorems at the sample inputs *)

Lemma sample_labels_cover :
  labels_cover sample_df sample_origin_addresses sample_origin_names
               sample_destination_addresses sample_destination_names.
Proof.
  unfold labels_cover, len. simpl. split; [lia |]. split; [lia |].
  repeat (constructor; [simpl; lia |]). constructor.
Qed.

Lemma C3_one_record_per_eligible_cell_witness :
  argsort_contract stable_argsort /\
  labels_cover sample_df sample_origin_addresses sample_origin_names
               sample_destination_addresses sample_destination_names /\
  exists (comb_arr : list (nat * nat)) (closest_locations : list string),
    assignment_records stable_argsort sample_df 600 = Ok comb_arr /\
    closest_from_matrix stable_argsort sample_origin_addresses sample_origin_names
      sample_destination_addresses sample_destination_names 600 sample_df =
    Ok (sample_df, closest_locations) /\
    List.length closest_locations = List.length comb_arr /\
    List.length closest_locations = count_below sample_df 600 /\
    forall k : nat,
      filter (fun r => snd r =? k) comb_arr =
      repeat (chosen_row sample_df 600 k, k) (count_below_in_column sample_df 600 k) /\
      (1 <= count_below_in_column sample_df 600 k ->
       closest_row sample_df 600 k (chosen_row sample_df 600 k)).
Proof.
  split; [exact stable_argsort_contract |]. split; [exact sample_labels_cover |].
  exact (C3_one_record_per_eligible_cell stable_argsort stable_argsort_contract
           sample_origin_addresses sample_origin_names
           sample_destination_addresses sample_destination_names 600 sample_df
           sample_labels_cover).
Defined.

Lemma C4_selected_row_is_closest_witness :
  argsort_contract stable_argsort /\
  exists comb_arr : list (nat * nat),
    assignment_records stable_argsort sample_df 600 = Ok comb_arr /\
    (forall j r : nat, eligible sample_df 600 r j ->
       exists i : nat, In (i, j) comb_arr) /\
    forall i j : nat, In (i, j) comb_arr ->
      exists v : Z,
        cell sample_df i j = Some v /\ (v < 600)%Z /\
        (forall (r : nat) (u : Z),
           cell sample_df r j = Some u -> (u < 600)%Z -> (v <= u)%Z) /\
        (forall r : nat, cell sample_df r j = Some v -> i <= r) /\
        (forall r0 : nat,
           (forall r : nat, eligible sample_df 600 r j -> r = r0) -> i = r0).
Proof.
  split; [exact stable_argsort_contract |].
  exact (C4_selected_row_is_closest stable_argsort stable_argsort_contract
           sample_df 600).
Defined.

Lemma C5_threshold_is_strict_witness :
  argsort_contract stable_argsort /\
  cell boundary_df 0 0 = Some 600%Z /\
  assignment_records stable_argsort boundary_df 600 = Ok [] /\
  closest_from_matrix stable_argsort sample_origin_addresses sample_origin_names
    sample_destination_addresses sample_destination_names 600 boundary_df =
  Ok (boundary_df, []).
Proof.
  split; [exact stable_argsort_contract |]. split; [reflexivity |].
  split; [reflexivity |].
  exact (proj2 (C5_threshold_is_strict stable_argsort stable_argsort_contract)
           sample_origin_addresses sample_origin_names
           sample_destination_addresses sample_destination_names).
Defined.

Lemma patchy_world_answered : forall (the_key : string) (i j : nat) (o d : string),
  answered (answer patchy_world the_key i j o d).
Proof.
  intros key i j o d. unfold answered, answer, patchy_world. simpl.
  destruct ((i =? 0) && (j =? 1)); simpl; (split; [reflexivity |]);
    eexists; (split; [reflexivity |]); simpl; intro H; discriminate.
Qed.



Lemma C9_no_route_is_zero_and_transport_failure_aborts_witness :
  (exists (tr : io) (df : DataFrame),
     time_to_destinations patchy_world sample_origin_addresses sample_origin_names
       sample_destination_addresses sample_destination_names (Some "key"%string) =
     (tr, Ok df) /\
     cell df 0 1 = Some 0%Z /\ cell df 1 0 = Some 160%Z) /\
  (exists tr : io,
     time_to_destinations outage_world sample_origin_addresses sample_origin_names
       sample_destination_addresses sample_destination_names (Some "key"%string) =
     (tr, Raise (Exception api_error 503)) /\
     List.length (sent tr) = 3).
Proof.
  assert (Hkey : "key"%string <> EmptyString) by discriminate.
  split.
  - destruct (proj1 (C9_no_route_is_zero_and_transport_failure_aborts
                       patchy_world sample_origin_addresses sample_origin_names
                       sample_destination_addresses sample_destination_names
                       "key" eq_refl eq_refl Hkey)
                (fun i j o d _ _ => patchy_world_answered "key" i j o d))
      as (tr & df & E & _ & _ & _ & Hcells).
    exists tr, df. split; [exact E |]. split.
    + exact (proj1 (proj2 (Hcells 0 1 "1 First St"%string "20 Twentieth Ave"%string
                             eq_refl eq_refl) eq_refl)).
    + exact (proj1 (Hcells 1 0 "2 Second St"%string "10 Tenth Ave"%string
                      eq_refl eq_refl)).
  - apply (proj2 (proj2 (C9_no_route_is_zero_and_transport_failure_aborts
                           outage_world sample_origin_addresses sample_origin_names
                           sample_destination_addresses sample_destination_names
                           "key" eq_refl eq_refl Hkey))
             1 0 "2 Second St"%string "10 Tenth Ave"%string eq_refl eq_refl).
    + discriminate.
    + intros i' j' o' d' Hlt _ _. unfold answered, answer, outage_world. simpl.
      destruct ((i' =? 1) && (j' =? 0)) eqn:E.
      * apply andb_prop in E. destruct E as [E1 E2].
        apply Nat.eqb_eq in E1, E2. lia.
      * simpl. split; [reflexivity |]. eexists. split; [reflexivity |].
        simpl. discriminate.
Defined.

Lemma C10_invalid_arguments_before_any_request_witness :
  len (mkSeq false ["A"%string]) <> len sample_origin_addresses /\
  exists (tr : io) (msg : string),
    time_to_destinations sample_world sample_origin_addresses
      (mkSeq false ["A"%string])
      sample_destination_addresses sample_destination_names (Some "key"%string) =
    (tr, Raise (ValueError msg)) /\
    sent tr = [].
Proof.
  assert (H : len (mkSeq false ["A"%string]) <> len sample_origin_addresses)
    by discriminate.
  split; [exact H |].
  exact (C10_invalid_arguments_before_any_request sample_world
           sample_origin_addresses (mkSeq false ["A"%string])
           sample_destination_addresses sample_destination_names
           (Some "key"%string) (or_introl H)).
Defined.

(** * Further properties of the travel-time provider *)

Lemma destination_loop_sent_prefix : forall (w : world) (the_key o : string)
    (dt : Z) (i : nat) (rest : list string) (j : nat) (tr : io) (arr : list (list Z)),
  exists k : nat,
    k <= List.length rest /\
    sent (fst (destination_loop w the_key o dt i j rest tr arr)) =
    sent tr ++ firstn k (map (fun jd => mkRequest o (snd jd) dt the_key)
                             (enumerate_from j rest)) /\
    (forall arr', snd (destination_loop w the_key o dt i j rest tr arr) = Ok arr' ->
       k = List.length rest).
Proof.
  intros w key o dt i rest. induction rest as [| d rest IH]; intros j tr arr.
  - exists 0. simpl. rewrite app_nil_r. auto.
  - rewrite enumerate_from_cons. cbn [destination_loop map snd].
    assert (Hstop : forall e : exn,
              exists k : nat,
                k <= List.length (d :: rest) /\
                sent (fst (mkIo (sent tr ++ [mkRequest o d dt key]) (printed tr),
                           @Raise (list (list Z)) e)) =
                sent tr ++ firstn k (mkRequest o d dt key ::
                                     map (fun jd => mkRequest o (snd jd) dt key)
                                         (enumerate_from (S j) rest)) /\
                (forall arr',
                   snd (mkIo (sent tr ++ [mkRequest o d dt key]) (printed tr),
                        @Raise (list (list Z)) e) = Ok arr' ->
                   k = List.length (d :: rest))).
    { intro e. exists 1. simpl. split; [lia |]. split; [reflexivity | discriminate]. }
    assert (Hgo : forall (tr1 : io) (arr1 : list (list Z)),
              sent tr1 = sent tr ++ [mkRequest o d dt key] ->
              exists k : nat,
                k <= List.length (d :: rest) /\
                sent (fst (destination_loop w key o dt i (S j) rest tr1 arr1)) =
                sent tr ++ firstn k (mkRequest o d dt key ::
                                     map (fun jd => mkRequest o (snd jd) dt key)
                                         (enumerate_from (S j) rest)) /\
                (forall arr',
                   snd (destination_loop w key o dt i (S j) rest tr1 arr1) = Ok arr' ->
                   k = List.length (d :: rest))).
    { intros tr1 arr1 Htr1. destruct (IH (S j) tr1 arr1) as (k & Hle & Hk & Hok).
      exists (S k). split; [simpl; lia |].
      rewrite Hk, Htr1, <- app_assoc. simpl. split; [reflexivity |].
      intros arr' H. now rewrite (Hok arr' H). }
    destruct (status_code (requests_get w i j (mkRequest o d dt key)) =? 200)%Z;
      [| apply Hstop].
    destruct (json (requests_get w i j (mkRequest o d dt key))) as [data |];
      [| apply Hstop].
    destruct (String.eqb (status data) "OK").
    + destruct (duration_value data) as [v |]; [| apply Hstop].
      now apply Hgo.
    + now apply Hgo.
Qed.

Lemma origin_loop_sent_prefix : forall (w : world) (the_key : string)
    (dests origins : list string) (i : nat) (tr : io) (arr : list (list Z)),
  exists k : nat,
    sent (fst (origin_loop w the_key i origins dests tr arr)) =
    sent tr ++
    firstn k (flat_map (fun io =>
                          map (fun jd => request_for w the_key (fst io) (snd io) (snd jd))
                              (enumerate_from 0 dests))
                       (enumerate_from i origins)) /\
    (forall arr', snd (origin_loop w the_key i origins dests tr arr) = Ok arr' ->
       sent (fst (origin_loop w the_key i origins dests tr arr)) =
       sent tr ++
       flat_map (fun io =>
                   map (fun jd => request_for w the_key (fst io) (snd io) (snd jd))
                       (enumerate_from 0 dests))
                (enumerate_from i origins)).
Proof.
  intros w key dests origins. induction origins as [| o origins IH]; intros i tr arr.
  - exists 0. simpl. rewrite app_nil_r. auto.
  - rewrite enumerate_from_cons. cbn [origin_loop flat_map fst snd].
    destruct (destination_loop_sent_prefix w key o (get_next_2am_unix_timestamp w i)
                i dests 0 tr arr) as (k & Hle & Hk & Hok).
    assert (Hrow : List.length (map (fun jd => request_for w key i o (snd jd))
                                    (enumerate_from 0 dests)) = List.length dests)
      by (now rewrite length_map, enumerate_from_length).
    destruct (destination_loop w key o (get_next_2am_unix_timestamp w i) i 0 dests
                tr arr) as [tr1 [arr1 | e]]; cbn [fst snd] in *.
    + specialize (Hok arr1 eq_refl). subst k.
      rewrite firstn_all2 in Hk
        by (rewrite length_map, enumerate_from_length; apply Nat.le_refl).
      destruct (IH (S i) tr1 arr1) as (k' & Hk' & Hok').
      exists (List.length (map (fun jd => request_for w key i o (snd jd))
                               (enumerate_from 0 dests)) + k').
      split.
      * rewrite Hk', Hk, firstn_app_2, <- app_assoc. reflexivity.
      * intros arr' H. rewrite (Hok' arr' H), Hk, <- app_assoc. reflexivity.
    + exists k. split; [| discriminate].
      rewrite Hk. f_equal. rewrite firstn_app.
      replace (k - List.length (map (fun jd => request_for w key i o (snd jd))
                                    (enumerate_from 0 dests))) with 0 by lia.
      simpl. now rewrite app_nil_r.
Qed.

(** X1.  The requests go out in row-major order, one per pair, each with the
    origin, the destination, the timestamp read for the row and the key: what
    has been sent is always an initial part of that list, and all of it when a
    matrix is returned. *)
Theorem requests_in_row_major_order :
  forall (w : world)
    (origin_addresses origin_names destination_addresses destination_names : pyseq)
    (the_key : string),
  (exists k : nat,
     sent (fst (time_to_destinations w origin_addresses origin_names
                  destination_addresses destination_names (Some the_key))) =
     firstn k (all_requests w the_key origin_addresses destination_addresses)) /\
  (forall df : DataFrame,
     snd (time_to_destinations w origin_addresses origin_names
            destination_addresses destination_names (Some the_key)) = Ok df ->
     sent (fst (time_to_destinations w origin_addresses origin_names
                  destination_addresses destination_names (Some the_key))) =
     all_requests w the_key origin_addresses destination_addresses /\
     List.length (all_requests w the_key origin_addresses destination_addresses) =
     len origin_addresses * len destination_addresses).
Proof.
  intros w oa on da dn key. unfold time_to_destinations.
  assert (Hnone : forall e : exn,
            (exists k : nat,
               sent (fst (no_io, @Raise DataFrame e)) =
               firstn k (all_requests w key oa da)) /\
            (forall df : DataFrame,
               snd (no_io, @Raise DataFrame e) = Ok df ->
               sent (fst (no_io, @Raise DataFrame e)) = all_requests w key oa da /\
               List.length (all_requests w key oa da) = len oa * len da)).
  { intro e. split; [exists 0; reflexivity | discriminate]. }
  destruct (is_ndarray on && negb (len on =? len oa)); [apply Hnone |].
  destruct (is_ndarray dn && negb (len dn =? len da)); [apply Hnone |].
  destruct (negb (len on =? len oa) || negb (len dn =? len da)); [apply Hnone |].
  destruct (not_apikey (Some key)); [apply Hnone |].
  destruct (origin_loop_sent_prefix w key (items da) (items oa) 0 no_io
              (zeros (len oa) (len da))) as (k & Hk & Hok).
  destruct (origin_loop w key 0 (items oa) (items da) no_io (zeros (len oa) (len da)))
    as [tr [arr | e]]; cbn [fst snd] in *.
  - split; [exists k; exact Hk |]. intros df _. split; [exact (Hok arr eq_refl) |].
    unfold all_requests, len.
    rewrite <- (enumerate_from_length string (items da) 0).
    apply (flat_map_enumerate_length string (nat * string) request
             (fun io jd => request_for w key (fst io) (snd io) (snd jd))).
  - split; [exists k; exact Hk | discriminate].
Qed.

(** X2.  A matrix that is returned has one row per origin address and one cell
    per destination address in every row, is labelled by the names, and comes
    from a call whose names match the addresses in number and whose key is not
    empty. *)
Theorem returned_matrix_shape :
  forall (w : world)
    (origin_addresses origin_names destination_addresses destination_names : pyseq)
    (apikey : option string) (tr : io) (df : DataFrame),
  time_to_destinations w origin_addresses origin_names
    destination_addresses destination_names apikey = (tr, Ok df) ->
  index df = items origin_names /\ columns df = items destination_names /\
  List.length (values df) = len origin_addresses /\
  Forall (fun row => List.length row = len destination_addresses) (values df) /\
  len origin_names = len origin_addresses /\
  len destination_names = len destination_addresses /\
  not_apikey apikey = false.
Proof.
  intros w oa on da dn apikey tr df H. unfold time_to_destinations in H.
  destruct (is_ndarray on && negb (len on =? len oa)); [discriminate |].
  destruct (is_ndarray dn && negb (len dn =? len da)); [discriminate |].
  destruct (negb (len on =? len oa) || negb (len dn =? len da)) eqn:E;
    [discriminate |].
  apply orb_false_elim in E. destruct E as [E1 E2].
  apply negb_false_iff, Nat.eqb_eq in E1, E2.
  destruct (not_apikey apikey) eqn:Ek; [discriminate |].
  destruct apikey as [key |]; [| discriminate].
  destruct (origin_loop w key 0 (items oa) (items da) no_io (zeros (len oa) (len da)))
    as [tr1 [arr | e]] eqn:El; [| discriminate].
  inversion H; subst tr1 df. clear H. cbn [index columns values].
  apply origin_loop_shape in El.
  assert (Hshape : map (@List.length Z) arr = repeat (len da) (len oa)).
  { rewrite El. unfold zeros. now rewrite map_repeat, repeat_length. }
  repeat split; auto.
  - rewrite <- (length_map (@List.length Z) arr), Hshape. apply repeat_length.
  - apply Forall_forall. intros row Hin.
    apply (in_map (@List.length Z)) in Hin. rewrite Hshape in Hin.
    now apply repeat_spec in Hin.
Qed.

Lemma returned_matrix_shape_witness :
  exists (tr : io) (df : DataFrame),
    time_to_destinations patchy_world sample_origin_addresses sample_origin_names
      sample_destination_addresses sample_destination_names (Some "key"%string) =
    (tr, Ok df) /\
    index df = items sample_origin_names /\
    columns df = items sample_destination_names /\
    List.length (values df) = len sample_origin_addresses /\
    Forall (fun row => List.length row = len sample_destination_addresses)
           (values df) /\
    len sample_origin_names = len sample_origin_addresses /\
    len sample_destination_names = len sample_destination_addresses /\
    not_apikey (Some "key"%string) = false.
Proof.
  eexists. eexists. split; [reflexivity |].
  exact (returned_matrix_shape patchy_world sample_origin_addresses
           sample_origin_names sample_destination_addresses
           sample_destination_names (Some "key"%string) _ _ eq_refl).
Defined.

(** * Further properties of the assignment *)

Lemma render_loop_length : forall (origin_addresses origin_names
    destination_addresses destination_names : pyseq)
    (comb_arr : list (nat * nat)) (acc out : list string),
  render_loop origin_addresses origin_names destination_addresses destination_names
              comb_arr acc = Ok out ->
  List.length out = List.length acc + List.length comb_arr.
Proof.
  intros oa on da dn comb. induction comb as [| [i j] comb IH]; intros acc out H.
  - simpl in H. inversion H. simpl. lia.
  - simpl in H.
    apply bind_ok in H. destruct H as (a & _ & H).
    apply bind_ok in H. destruct H as (b & _ & H).
    apply bind_ok in H. destruct H as (c & _ & H).
    apply bind_ok in H. destruct H as (d & _ & H).
    apply IH in H. rewrite H, length_app. simpl. lia.
Qed.

Lemma no_eligible_cell : forall (times_df : DataFrame) (max_time : Z),
  (forall i j v, cell times_df i j = Some v -> (max_time <= v)%Z) <->
  eligible_cells times_df max_time = [].
Proof.
  intros df t. split.
  - intro H. destruct (eligible_cells df t) as [| [i j] l] eqn:E; [reflexivity |].
    assert (Hin : In (i, j) (eligible_cells df t)) by (rewrite E; now left).
    apply eligible_cells_In in Hin. destruct Hin as (v & Hv & Hlt).
    specialize (H i j v Hv). lia.
  - intros H i j v Hv. apply Z.nlt_ge. intro Hlt.
    assert (Hin : In (i, j) (eligible_cells df t)).
    { apply eligible_cells_In. exists v. auto. }
    rewrite H in Hin. destruct Hin.
Qed.

(** X3.  When every cell of the matrix is at or above [max_time] the report is
    empty, whatever the labels are; and an empty report is returned only then. *)
Theorem empty_report_iff_nothing_within_max_time :
  forall (argsort : list nat -> list nat)
    (origin_addresses origin_names destination_addresses destination_names : pyseq)
    (max_time : Z) (times_df : DataFrame),
  argsort_contract argsort ->
  ((forall i j v, cell times_df i j = Some v -> (max_time <= v)%Z) ->
   closest_from_matrix argsort origin_addresses origin_names
     destination_addresses destination_names max_time times_df =
   Ok (times_df, [])) /\
  (forall df : DataFrame,
     closest_from_matrix argsort origin_addresses origin_names
       destination_addresses destination_names max_time times_df = Ok (df, []) ->
     forall i j v, cell times_df i j = Some v -> (max_time <= v)%Z).
Proof.
  intros argsort oa on da dn t df Hok.
  destruct (assignment_records_sorted argsort Hok df t) as (comb & E & Hperm & _).
  unfold scan_records in Hperm. split.
  - intro H. apply no_eligible_cell in H. rewrite H in Hperm. simpl in Hperm.
    apply Permutation_sym, Permutation_nil in Hperm. subst comb.
    unfold closest_from_matrix. now rewrite E.
  - intros df' H. apply no_eligible_cell.
    unfold closest_from_matrix in H. rewrite E in H. simpl in H.
    apply bind_ok in H. destruct H as (out & Hr & H).
    injection H as _ Hout. subst out.
    apply render_loop_length in Hr. simpl in Hr.
    apply Permutation_length in Hperm. rewrite length_map in Hperm.
    destruct (eligible_cells df t); [reflexivity | simpl in Hperm; lia].
Qed.

Lemma empty_report_iff_nothing_within_max_time_witness :
  argsort_contract stable_argsort /\
  (forall i j v, cell far_df i j = Some v -> (600 <= v)%Z) /\
  closest_from_matrix stable_argsort sample_origin_addresses sample_origin_names
    sample_destination_addresses sample_destination_names 600 far_df =
  Ok (far_df, []).
Proof.
  assert (Hfar : forall i j v, cell far_df i j = Some v -> (600 <= v)%Z).
  { intros i j v H. unfold cell, cell_at, far_df in H. simpl in H.
    destruct i as [| [| i]]; simpl in H;
      [destruct j as [| [| j]] | destruct j as [| [| j]] | ]; simpl in H;
      try (inversion H; lia); try (destruct j; discriminate);
      destruct i; discriminate. }
  split; [exact stable_argsort_contract |]. split; [exact Hfar |].
  exact (proj1 (empty_report_iff_nothing_within_max_time stable_argsort
                  sample_origin_addresses sample_origin_names
                  sample_destination_addresses sample_destination_names
                  600 far_df stable_argsort_contract) Hfar).
Defined.

Lemma time_to_destinations_answered : forall (w : world)
    (origin_addresses origin_names destination_addresses destination_names : pyseq)
    (the_key : string),
  len origin_names = len origin_addresses ->
  len destination_names = len destination_addresses ->
  the_key <> EmptyString ->
  (forall i j o d,
     nth_error (items origin_addresses) i = Some o ->
     nth_error (items destination_addresses) j = Some d ->
     answered (answer w the_key i j o d)) ->
  exists (tr : io) (arr : list (list Z)),
    time_to_destinations w origin_addresses origin_names
      destination_addresses destination_names (Some the_key) =
    (tr, Ok (mkDataFrame arr (items origin_names) (items destination_names))) /\
    (forall i j o d,
       nth_error (items origin_addresses) i = Some o ->
       nth_error (items destination_addresses) j = Some d ->
       cell_at arr i j = Some (travel_time (answer w the_key i j o d))) /\
    map (@List.length Z) arr =
    repeat (len destination_addresses) (len origin_addresses).
Proof.
  intros w oa on da dn key Hn Hm Hkey Hans.
  pose proof (time_to_destinations_checked w oa on da dn key Hn Hm Hkey) as Hpre.
  destruct (origin_loop_answered w key (items da) (items oa) 0 no_io
              (zeros (len oa) (len da))) as (arr & E & Hcells & _).
  { intros q o p d H1 H2. now apply Hans. }
  { intros q p Hq Hp. now apply cell_at_zeros. }
  rewrite E in Hpre. eexists _, arr. split; [exact Hpre |]. split.
  - intros i j o d Ho Hd. exact (Hcells i o j d Ho Hd).
  - rewrite (origin_loop_shape _ _ _ _ _ _ _ _ _ E).
    unfold zeros. now rewrite map_repeat, repeat_length.
Qed.

Lemma get_closest_locations_computes_matrix :
  forall (w : world) (argsort : list nat -> list nat)
    (origin_addresses origin_names destination_addresses destination_names : pyseq)
    (max_time : Z) (the_key : string) (tr : io) (df : DataFrame),
  the_key <> EmptyString ->
  time_to_destinations w origin_addresses origin_names
    destination_addresses destination_names (Some the_key) = (tr, Ok df) ->
  get_closest_locations w argsort origin_addresses origin_names
    destination_addresses destination_names max_time None (Some the_key) =
  (tr, closest_from_matrix argsort origin_addresses origin_names
         destination_addresses destination_names max_time df).
Proof.
  intros w argsort oa on da dn t key tr df Hkey E.
  unfold get_closest_locations. cbn [not_times_df andb].
  replace (not_apikey (Some key)) with false
    by (destruct key; [congruence | reflexivity]).
  now rewrite E.
Qed.

(** X4.  A pair for which the provider finds no route keeps 0 in the matrix,
    and 0 is below every positive [max_time]: when the routes of a destination
    all take a positive time and one of its pairs has no route, the origin
    assigned to that destination is always one without a route to it. *)
Theorem origin_without_route_is_assigned :
  forall (w : world) (argsort : list nat -> list nat)
    (origin_addresses origin_names destination_addresses destination_names : pyseq)
    (max_time : Z) (the_key : string) (j : nat) (d : string),
  argsort_contract argsort ->
  len origin_names = len origin_addresses ->
  len destination_names = len destination_addresses ->
  the_key <> EmptyString ->
  (forall i' j' o' d',
     nth_error (items origin_addresses) i' = Some o' ->
     nth_error (items destination_addresses) j' = Some d' ->
     answered (answer w the_key i' j' o' d')) ->
  (0 < max_time)%Z ->
  nth_error (items destination_addresses) j = Some d ->
  (exists i o, nth_error (items origin_addresses) i = Some o /\
               routed (answer w the_key i j o d) = false) ->
  (forall i o, nth_error (items origin_addresses) i = Some o ->
     routed (answer w the_key i j o d) = true ->
     (0 < travel_time (answer w the_key i j o d))%Z) ->
  exists (tr : io) (df : DataFrame) (comb_arr : list (nat * nat)),
    get_closest_locations w argsort origin_addresses origin_names
      destination_addresses destination_names max_time None (Some the_key) =
    (tr, Ok (df, map (block_of origin_addresses origin_names
                               destination_addresses destination_names) comb_arr)) /\
    assignment_records argsort df max_time = Ok comb_arr /\
    (exists iw : nat, In (iw, j) comb_arr) /\
    forall iw : nat, In (iw, j) comb_arr ->
      exists o : string,
        nth_error (items origin_addresses) iw = Some o /\
        routed (answer w the_key iw j o d) = false /\
        cell df iw j = Some 0%Z.
Proof.
  intros w argsort oa on da dn t key j d Hok Hn Hm Hkey Hans Ht Hd
         (i & o & Ho & Hun) Hpos.
  destruct (time_to_destinations_answered w oa on da dn key Hn Hm Hkey Hans)
    as (tr & arr & E & Hcells & Hshape).
  set (df := mkDataFrame arr (items on) (items dn)) in *.
  assert (Hcov : labels_cover df oa on da dn) by (now apply shape_labels_cover).
  destruct (closest_from_matrix_blocks argsort Hok oa on da dn t df Hcov)
    as (comb & Erec & Hperm & _ & Eout).
  exists tr, df, comb.
  rewrite (get_closest_locations_computes_matrix w argsort oa on da dn t key tr df
             Hkey E), Eout.
  split; [reflexivity |]. split; [exact Erec |].
  assert (Hzero : cell df i j = Some 0%Z).
  { unfold cell, df. cbn [values]. rewrite (Hcells i j o d Ho Hd).
    now rewrite travel_time_unrouted. }
  assert (Hel : eligible df t i j) by (exists 0%Z; auto).
  split.
  - exists (chosen_row df t j).
    apply (Permutation_in _ (Permutation_sym Hperm)). apply scan_records_In.
    now destruct (chosen_row_closest df t j i None Hel).
  - intros iw Hin. apply (Permutation_in _ Hperm) in Hin.
    apply scan_records_In in Hin. destruct Hin as (v & Hv & Hlt & Hmin).
    destruct (Hmin i 0%Z Hzero Ht) as [Hle _].
    destruct (cell_in_range df iw j v Hv) as (row & _ & Hiw & _).
    assert (Hrows : List.length (values df) = len oa).
    { unfold df. cbn [values].
      rewrite <- (length_map (@List.length Z) arr), Hshape. apply repeat_length. }
    destruct (nth_error (items oa) iw) as [ow |] eqn:Eow.
    2:{ apply nth_error_None in Eow. unfold len in Hrows. lia. }
    exists ow. split; [reflexivity |].
    pose proof (Hcells iw j ow d Eow Hd) as Hc.
    unfold cell, df in Hv. cbn [values] in Hv. rewrite Hc in Hv.
    injection Hv as Hv.
    destruct (routed (answer w key iw j ow d)) eqn:Er.
    + specialize (Hpos iw ow Eow Er). lia.
    + split; [reflexivity |]. unfold cell, df. cbn [values]. rewrite Hc.
      now rewrite travel_time_unrouted.
Qed.

Lemma origin_without_route_is_assigned_witness :
  exists (tr : io) (df : DataFrame) (comb_arr : list (nat * nat)),
    get_closest_locations patchy_world stable_argsort
      sample_origin_addresses sample_origin_names
      sample_destination_addresses sample_destination_names 600 None
      (Some "key"%string) =
    (tr, Ok (df, map (block_of sample_origin_addresses sample_origin_names
                               sample_destination_addresses
                               sample_destination_names) comb_arr)) /\
    assignment_records stable_argsort df 600 = Ok comb_arr /\
    (exists iw : nat, In (iw, 1) comb_arr) /\
    forall iw : nat, In (iw, 1) comb_arr ->
      exists o : string,
        nth_error (items sample_origin_addresses) iw = Some o /\
        routed (answer patchy_world "key" iw 1 o "20 Twentieth Ave") = false /\
        cell df iw 1 = Some 0%Z.
Proof.
  apply (origin_without_route_is_assigned patchy_world stable_argsort
           sample_origin_addresses sample_origin_names
           sample_destination_addresses sample_destination_names
           600 "key" 1 "20 Twentieth Ave" stable_argsort_contract eq_refl eq_refl).
  - discriminate.
  - intros i' j' o' d' _ _. apply patchy_world_answered.
  - reflexivity.
  - reflexivity.
  - exists 0, "1 First St"%string. split; reflexivity.
  - intros i o _. unfold routed, travel_time, answer, patchy_world. simpl.
    destruct ((i =? 0) && true); simpl; [discriminate | intros _; lia].
Defined.

(** * The next 2 a.m. *)

Ltac compare_cases :=
  repeat match goal with
         | |- context [(?a ?= ?b)%Z] => destruct (Z.compare_spec a b)
         | H : context [(?a ?= ?b)%Z] |- _ => destruct (Z.compare_spec a b)
         end.

Lemma datetime_compare_2am : forall (now : datetime) (day : Z),
  valid_time now ->
  (datetime_compare now (mkDatetime day 2 0 0 0) = Lt <->
   (microseconds_of now < microseconds_of (mkDatetime day 2 0 0 0))%Z) /\
  (datetime_ge now (mkDatetime day 2 0 0 0) = true <->
   (microseconds_of (mkDatetime day 2 0 0 0) <= microseconds_of now)%Z).
Proof.
  intros [o h m s us] day (Hh & Hm & Hs & Hus).
  unfold datetime_ge, datetime_compare, microseconds_of. simpl in *.
  split; split; intro H; compare_cases; try discriminate; try reflexivity; lia.
Qed.

(** X5.  The timestamp is that of a 2 a.m. of local time: the first one
    strictly after the clock reading, today's when the reading is before
    02:00:00 and tomorrow's from 02:00:00 on, so never more than 24 hours
    ahead. *)
Theorem next_2am_is_the_first_after_now :
  forall (mktime : datetime -> Z) (now : datetime),
  valid_time now ->
  exists day : Z,
    get_next_2am_unix_timestamp_at mktime now = mktime (mkDatetime day 2 0 0 0) /\
    (day = ordinal now \/ day = (ordinal now + 1)%Z) /\
    datetime_compare now (mkDatetime day 2 0 0 0) = Lt /\
    (0 < microseconds_of (mkDatetime day 2 0 0 0) - microseconds_of now
     <= 86400000000)%Z /\
    (forall day' : Z,
       datetime_compare now (mkDatetime day' 2 0 0 0) = Lt -> (day <= day')%Z).
Proof.
  intros mktime now Hv.
  unfold get_next_2am_unix_timestamp_at, next_2am_after.
  assert (Hmin : forall day day' : Z,
            (microseconds_of now < microseconds_of (mkDatetime day' 2 0 0 0))%Z ->
            (microseconds_of (mkDatetime day 2 0 0 0) - microseconds_of now
             <= 86400000000)%Z ->
            (day <= day')%Z).
  { intros day day'. unfold microseconds_of. simpl. lia. }
  destruct (datetime_ge now (mkDatetime (ordinal now) 2 0 0 0)) eqn:E;
    destruct (datetime_compare_2am now (ordinal now) Hv) as [Hlt Hge].
  - exists (ordinal now + 1)%Z. unfold add_days. simpl.
    apply Hge in E.
    assert (Hnext : (0 < microseconds_of (mkDatetime (ordinal now + 1) 2 0 0 0)
                         - microseconds_of now <= 86400000000)%Z).
    { destruct now as [o h m s us]. destruct Hv as (Hh & Hm & Hs & Hus).
      unfold microseconds_of in *. simpl in *. lia. }
    split; [reflexivity |]. split; [now right |]. split.
    + apply (datetime_compare_2am now (ordinal now + 1) Hv). lia.
    + split; [exact Hnext |]. intros day' H.
      apply (datetime_compare_2am now day' Hv) in H.
      apply (Hmin _ _ H). lia.
  - exists (ordinal now).
    assert (Hnow : (microseconds_of now
                    < microseconds_of (mkDatetime (ordinal now) 2 0 0 0))%Z).
    { apply Z.nle_gt. intro Hle. apply Hge in Hle. congruence. }
    assert (Hnext : (0 < microseconds_of (mkDatetime (ordinal now) 2 0 0 0)
                         - microseconds_of now <= 86400000000)%Z).
    { destruct now as [o h m s us]. destruct Hv as (Hh & Hm & Hs & Hus).
      unfold microseconds_of in *. simpl in *. lia. }
    split; [reflexivity |]. split; [now left |]. split.
    + now apply Hlt.
    + split; [exact Hnext |]. intros day' H.
      apply (datetime_compare_2am now day' Hv) in H.
      apply (Hmin _ _ H). lia.
Qed.

Lemma next_2am_is_the_first_after_now_witness :
  valid_time (mkDatetime 739000 14 30 15 250000) /\
  exists day : Z,
    get_next_2am_unix_timestamp_at (fun d => microseconds_of d / 1000000)%Z
      (mkDatetime 739000 14 30 15 250000) =
    (microseconds_of (mkDatetime day 2 0 0 0) / 1000000)%Z /\
    (day = 739000 \/ day = 739001)%Z /\
    datetime_compare (mkDatetime 739000 14 30 15 250000) (mkDatetime day 2 0 0 0)
    = Lt.
Proof.
  assert (Hv : valid_time (mkDatetime 739000 14 30 15 250000)).
  { unfold valid_time. simpl. lia. }
  split; [exact Hv |].
  destruct (next_2am_is_the_first_after_now
              (fun d => microseconds_of d / 1000000)%Z
              (mkDatetime 739000 14 30 15 250000) Hv)
    as (day & E & Hday & Hlt & _).
  exists day. simpl in Hday. auto.
Defined.

(** * A file name that is not taken *)

Lemma unique_loop_step : forall (path_exists : string -> bool)
    (base extension : string) (fuel c : nat),
  unique_loop (S fuel) path_exists base extension
    (nth_candidate base extension c) (S c)
  = if path_exists (nth_candidate base extension c)
    then unique_loop fuel path_exists base extension
           (nth_candidate base extension (S c)) (S (S c))
    else Some (nth_candidate base extension c).
Proof. reflexivity. Qed.

Lemma unique_loop_finds : forall (path_exists : string -> bool)
    (base extension : string) (d fuel c : nat),
  (forall x, c <= x < c + d ->
     path_exists (nth_candidate base extension x) = true) ->
  path_exists (nth_candidate base extension (c + d)) = false ->
  d < fuel ->
  unique_loop fuel path_exists base extension (nth_candidate base extension c) (S c)
  = Some (nth_candidate base extension (c + d)).
Proof.
  intros ex base ext d. induction d as [| d IH]; intros fuel c Hbusy Hfree Hfuel.
  - destruct fuel as [| fuel]; [lia |]. rewrite unique_loop_step.
    rewrite Nat.add_0_r in *. now rewrite Hfree.
  - destruct fuel as [| fuel]; [lia |]. rewrite unique_loop_step.
    rewrite (Hbusy c) by lia.
    replace (c + S d) with (S c + d) in * by lia.
    apply IH; [| assumption | lia].
    intros x Hx. apply Hbusy. lia.
Qed.

Lemma unique_loop_busy : forall (path_exists : string -> bool)
    (base extension : string) (fuel c : nat),
  (forall x, c <= x < c + fuel ->
     path_exists (nth_candidate base extension x) = true) ->
  unique_loop fuel path_exists base extension (nth_candidate base extension c) (S c)
  = None.
Proof.
  intros ex base ext fuel. induction fuel as [| fuel IH]; intros c Hbusy.
  - reflexivity.
  - rewrite unique_loop_step. rewrite (Hbusy c) by lia.
    apply IH. intros x Hx. apply Hbusy. lia.
Qed.

Lemma unique_loop_sound : forall (path_exists : string -> bool)
    (base extension : string) (fuel c : nat) (name : string),
  unique_loop fuel path_exists base extension (nth_candidate base extension c) (S c)
  = Some name ->
  exists k : nat,
    c <= k < c + fuel /\ name = nth_candidate base extension k /\
    path_exists name = false /\
    forall x, c <= x < k -> path_exists (nth_candidate base extension x) = true.
Proof.
  intros ex base ext fuel. induction fuel as [| fuel IH]; intros c name H.
  - discriminate.
  - rewrite unique_loop_step in H.
    destruct (ex (nth_candidate base ext c)) eqn:E.
    + apply IH in H. destruct H as (k & Hk & Hname & Hfree & Hbusy).
      exists k. split; [lia |]. split; [assumption |]. split; [assumption |].
      intros x Hx. destruct (Nat.eq_dec x c) as [-> | Hne]; [assumption |].
      apply Hbusy. lia.
    + inversion H; subst name. exists c. split; [lia |]. split; [reflexivity |].
      split; [assumption |]. intros x Hx. lia.
Qed.

(** X6.  The name returned is never the name of an existing path: it is the
    plain name when that one is free, and otherwise the numbered name with the
    smallest number that is free; as long as all the names tried exist the
    loop goes on, and it never ends when every candidate exists. *)
Theorem unique_filename_is_the_first_free_candidate :
  forall (splitext : string -> string * string) (path_exists : string -> bool)
    (filename extension : string),
  (forall (fuel : nat) (name : string),
     generate_unique_filename splitext path_exists fuel filename extension
     = Some name ->
     path_exists name = false /\
     exists k : nat,
       k < fuel /\
       name = nth_candidate (fst (splitext filename)) extension k /\
       forall x, x < k ->
         path_exists (nth_candidate (fst (splitext filename)) extension x) = true) /\
  (forall k : nat,
     (forall x, x < k ->
        path_exists (nth_candidate (fst (splitext filename)) extension x) = true) ->
     path_exists (nth_candidate (fst (splitext filename)) extension k) = false ->
     forall fuel : nat, k < fuel ->
       generate_unique_filename splitext path_exists fuel filename extension
       = Some (nth_candidate (fst (splitext filename)) extension k)) /\
  (forall fuel : nat,
     (forall x, x < fuel ->
        path_exists (nth_candidate (fst (splitext filename)) extension x) = true) ->
     generate_unique_filename splitext path_exists fuel filename extension = None).
Proof.
  intros splitext ex filename ext. unfold generate_unique_filename.
  destruct (splitext filename) as [base old_ext]. simpl fst.
  change (base ++ ext)%string with (nth_candidate base ext 0).
  split; [| split].
  - intros fuel name H. apply unique_loop_sound in H.
    destruct H as (k & Hk & Hname & Hfree & Hbusy).
    split; [assumption |]. exists k. split; [lia |]. split; [assumption |].
    intros x Hx. apply Hbusy. lia.
  - intros k Hbusy Hfree fuel Hfuel.
    apply (unique_loop_finds ex base ext k fuel 0); auto.
    intros x Hx. apply Hbusy. lia.
  - intros fuel Hbusy. apply unique_loop_busy. intros x Hx. apply Hbusy. lia.
Qed.

(** * The pricing scraper *)

(** ** Splitting a name at its dots *)









(** ** The store names *)

Lemma existsb_eqb_In : forall (name : string) (l : list string),
  existsb (String.eqb name) l = true <-> In name l.
Proof.
  intros name l. rewrite existsb_exists. split.
  - intros (x & Hin & E). apply String.eqb_eq in E. now subst.
  - intros Hin. exists name. split; [assumption | apply String.eqb_refl].
Qed.

Lemma collect_store_names_spec : forall (stores_list store_names : list string),
  NoDup store_names -> ~ In EmptyString store_names ->
  NoDup (collect_store_names stores_list store_names) /\
  ~ In EmptyString (collect_store_names stores_list store_names) /\
  (forall name : string,
     In name (collect_store_names stores_list store_names) <->
     In name store_names \/ (In name stores_list /\ name <> EmptyString)) /\
  List.length (collect_store_names stores_list store_names)
  <= List.length store_names + List.length stores_list.
Proof.
  intros l. induction l as [| name rest IH]; intros acc Hnd Hne.
  - simpl. split; [assumption |]. split; [assumption |].
    split; [intros n; tauto | lia].
  - simpl collect_store_names.
    destruct (String.eqb name "") eqn:Eempty.
    + apply String.eqb_eq in Eempty. subst name. simpl.
      destruct (IH acc Hnd Hne) as (H1 & H2 & H3 & H4).
      split; [assumption |]. split; [assumption |]. split; [| lia].
      intros n. rewrite H3. intuition congruence.
    + apply String.eqb_neq in Eempty.
      destruct (existsb (String.eqb name) acc) eqn:Eseen; simpl.
      * apply existsb_eqb_In in Eseen.
        destruct (IH acc Hnd Hne) as (H1 & H2 & H3 & H4).
        split; [assumption |]. split; [assumption |]. split; [| lia].
        intros n. rewrite H3. intuition (subst; auto).
      * assert (Hnew : ~ In name acc).
        { intros Hin. apply existsb_eqb_In in Hin. congruence. }
        assert (Hnd' : NoDup (acc ++ [name])).
        { apply NoDup_app; [assumption | repeat constructor; auto |].
          intros x Hx [E | []]. now subst. }
        assert (Hne' : ~ In EmptyString (acc ++ [name])).
        { rewrite in_app_iff. simpl. intuition congruence. }
        destruct (IH (acc ++ [name]) Hnd' Hne') as (H1 & H2 & H3 & H4).
        split; [assumption |]. split; [assumption |]. split.
        -- intros n. rewrite H3, in_app_iff. simpl. intuition (subst; auto).
        -- rewrite length_app in H4. simpl in H4. lia.
Qed.

Lemma collect_store_names_drops : forall (stores_list store_names : list string),
  NoDup store_names -> ~ In EmptyString store_names ->
  In EmptyString stores_list \/ ~ NoDup stores_list \/
  (exists name, In name stores_list /\ In name store_names) ->
  List.length (collect_store_names stores_list store_names)
  < List.length store_names + List.length stores_list.
Proof.
  intros l. induction l as [| name rest IH]; intros acc Hnd Hne Hbad.
  - exfalso. destruct Hbad as [[] | [Hdup | (n & [] & _)]].
    apply Hdup. constructor.
  - simpl collect_store_names.
    destruct (String.eqb name "") eqn:Eempty; simpl.
    + pose proof (collect_store_names_spec rest acc Hnd Hne) as (_ & _ & _ & H).
      lia.
    + apply String.eqb_neq in Eempty.
      destruct (existsb (String.eqb name) acc) eqn:Eseen; simpl.
      * pose proof (collect_store_names_spec rest acc Hnd Hne) as (_ & _ & _ & H).
        lia.
      * assert (Hnew : ~ In name acc).
        { intros Hin. apply existsb_eqb_In in Hin. congruence. }
        assert (Hnd' : NoDup (acc ++ [name])).
        { apply NoDup_app; [assumption | repeat constructor; auto |].
          intros x Hx [E | []]. now subst. }
        assert (Hne' : ~ In EmptyString (acc ++ [name])).
        { rewrite in_app_iff. simpl. intuition congruence. }
        assert (Hbad' : In EmptyString rest \/ ~ NoDup rest \/
                        exists n, In n rest /\ In n (acc ++ [name])).
        { destruct Hbad as [[E | Hin] | [Hdup | (n & [E | Hin] & Hacc)]].
          - congruence.
          - now left.
          - destruct (in_dec string_dec name rest) as [Hin | Hnot].
            + right. right. exists name. split; [assumption |].
              rewrite in_app_iff. simpl. auto.
            + right. left. intros Hr. apply Hdup. now constructor.
          - subst n. contradiction.
          - right. right. exists n. split; [assumption |].
            rewrite in_app_iff. auto. }
        specialize (IH (acc ++ [name]) Hnd' Hne' Hbad').
        rewrite length_app in IH. simpl in IH. lia.
Qed.

Lemma collect_store_names_keeps : forall (stores_list store_names : list string),
  NoDup stores_list -> ~ In EmptyString stores_list ->
  (forall name, In name stores_list -> ~ In name store_names) ->
  collect_store_names stores_list store_names = store_names ++ stores_list.
Proof.
  intros l. induction l as [| name rest IH]; intros acc Hnd Hne Hfresh.
  - simpl. now rewrite app_nil_r.
  - simpl collect_store_names.
    assert (E1 : String.eqb name "" = false).
    { apply String.eqb_neq. intros E. apply Hne. left. now symmetry. }
    assert (E2 : existsb (String.eqb name) acc = false).
    { destruct (existsb (String.eqb name) acc) eqn:E; [| reflexivity].
      apply existsb_eqb_In in E. exfalso. apply (Hfresh name); simpl; auto. }
    rewrite E1, E2. simpl. inversion Hnd as [| x l' Hx Hrest]; subst.
    rewrite IH.
    + now rewrite <- app_assoc.
    + assumption.
    + intros Hin. apply Hne. now right.
    + intros n Hin. rewrite in_app_iff. simpl. intros [Hacc | [E | []]].
      * apply (Hfresh n); simpl; auto.
      * subst n. contradiction.
Qed.

(** X8.  The store names are the distinct non-empty headings of the page: no
    name twice, none empty, every non-empty heading among them. They are as
    many as the headings exactly when no heading is empty or repeated, and
    then they are the headings in their order. *)
Theorem store_names_are_the_distinct_headings : forall stores_list : list string,
  NoDup (collect_store_names stores_list []) /\
  (forall name : string,
     In name (collect_store_names stores_list []) <->
     In name stores_list /\ name <> EmptyString) /\
  List.length (collect_store_names stores_list []) <= List.length stores_list /\
  (List.length (collect_store_names stores_list []) = List.length stores_list <->
   NoDup stores_list /\ ~ In EmptyString stores_list) /\
  (NoDup stores_list /\ ~ In EmptyString stores_list ->
   collect_store_names stores_list [] = stores_list).
Proof.
  intros l.
  assert (Hnil : NoDup (@nil string)) by constructor.
  assert (Hno : ~ In EmptyString (@nil string)) by (intros []).
  destruct (collect_store_names_spec l [] Hnil Hno) as (H1 & H2 & H3 & H4).
  assert (Hkeep : NoDup l /\ ~ In EmptyString l -> collect_store_names l [] = l).
  { intros [Hnd Hne]. apply (collect_store_names_keeps l [] Hnd Hne).
    intros n _ []. }
  split; [assumption |]. split.
  { intros n. rewrite H3. simpl. tauto. }
  split; [simpl in H4; lia |]. split; [| assumption].
  split.
  - intros Hlen.
    destruct (in_dec string_dec EmptyString l) as [Hin | Hnot].
    + pose proof (collect_store_names_drops l [] Hnil Hno (or_introl Hin)) as Hlt.
      simpl in Hlt. lia.
    + split; [| assumption].
      destruct (ListDec.NoDup_dec string_dec l) as [Hnd | Hdup]; [assumption |].
      pose proof (collect_store_names_drops l [] Hnil Hno
                    (or_intror (or_introl Hdup))) as Hlt.
      simpl in Hlt. lia.
  - intros Hgood. now rewrite (Hkeep Hgood).
Qed.

(** ** The tasks *)

Lemma getitem_raises : forall (A : Type) (l : list A) (i : nat) (e : exn),
  getitem l i = Raise e -> e = IndexError /\ List.length l <= i.
Proof.
  intros A l i e H. unfold getitem in H.
  destruct (nth_error l i) eqn:E; [discriminate |].
  inversion H. split; [reflexivity |]. now apply nth_error_None.
Qed.

Lemma getitem_returns : forall (A : Type) (l : list A) (i : nat) (x : A),
  getitem l i = Ok x -> i < List.length l.
Proof.
  intros A l i x H. unfold getitem in H.
  destruct (nth_error l i) eqn:E; [| discriminate].
  apply nth_error_Some. congruence.
Qed.

Lemma getitem_middle : forall (A : Type) (pre l : list A) (x : A),
  getitem (pre ++ x :: l) (List.length pre) = Ok x.
Proof.
  intros A pre l x. unfold getitem.
  rewrite nth_error_app2 by lia. now rewrite Nat.sub_diag.
Qed.

Lemma make_tasks_raises : forall (store_urls : list (option string))
    (store_names : list string) (idx : list nat) (e : exn),
  make_tasks store_urls store_names idx = Raise e -> e = IndexError.
Proof.
  intros urls names idx. induction idx as [| i rest IH]; intros e H.
  - discriminate.
  - simpl in H. destruct (getitem urls i) eqn:Eu; simpl in H.
    + destruct (getitem names i) eqn:En; simpl in H.
      * destruct (make_tasks urls names rest) eqn:Er; simpl in H.
        -- discriminate.
        -- inversion H. subst. now apply IH.
      * inversion H. subst. now apply getitem_raises in En.
    + inversion H. subst. now apply getitem_raises in Eu.
Qed.

Lemma make_tasks_returns : forall (store_urls : list (option string))
    (store_names : list string) (idx : list nat) (tasks : list task),
  make_tasks store_urls store_names idx = Ok tasks ->
  forall i : nat, In i idx ->
    i < List.length store_urls /\ i < List.length store_names.
Proof.
  intros urls names idx. induction idx as [| i rest IH]; intros tasks H j Hj.
  - destruct Hj.
  - simpl in H. destruct (getitem urls i) eqn:Eu; simpl in H; [| discriminate].
    destruct (getitem names i) eqn:En; simpl in H; [| discriminate].
    destruct (make_tasks urls names rest) eqn:Er; simpl in H; [| discriminate].
    destruct Hj as [<- | Hj].
    + split; eapply getitem_returns; eassumption.
    + eapply IH; [reflexivity | assumption].
Qed.

Lemma make_tasks_short : forall (store_urls : list (option string))
    (store_names : list string) (n : nat),
  List.length store_names < n \/ List.length store_urls < n ->
  make_tasks store_urls store_names (seq 0 n) = Raise IndexError.
Proof.
  intros urls names n Hshort.
  destruct (make_tasks urls names (seq 0 n)) as [tasks | e] eqn:E.
  - exfalso. pose proof (make_tasks_returns urls names (seq 0 n) tasks E) as Hall.
    destruct Hshort as [H | H].
    + destruct (Hall (List.length names)) as [_ Hlt]; [apply in_seq; lia | lia].
    + destruct (Hall (List.length urls)) as [Hlt _]; [apply in_seq; lia | lia].
  - f_equal. eapply make_tasks_raises. eassumption.
Qed.

Lemma make_tasks_from : forall (n : nat) (store_urls : list (option string))
    (store_names : list string) (before_urls : list (option string))
    (before_names : list string),
  n <= List.length store_urls -> n <= List.length store_names ->
  List.length before_urls = List.length before_names ->
  make_tasks (before_urls ++ store_urls) (before_names ++ store_names)
    (seq (List.length before_urls) n)
  = Ok (combine (firstn n store_urls) (firstn n store_names)).
Proof.
  intros n. induction n as [| n IH]; intros urls names bu bn Hu Hn Hlen.
  - reflexivity.
  - destruct urls as [| u urls]; [simpl in Hu; lia |].
    destruct names as [| nm names]; [simpl in Hn; lia |].
    simpl seq. simpl make_tasks. rewrite getitem_middle. simpl bind.
    replace (getitem (bn ++ nm :: names) (List.length bu)) with (Ok nm)
      by (rewrite Hlen; symmetry; apply getitem_middle).
    simpl bind.
    replace (bu ++ u :: urls) with ((bu ++ [u]) ++ urls)
      by (now rewrite <- app_assoc).
    replace (bn ++ nm :: names) with ((bn ++ [nm]) ++ names)
      by (now rewrite <- app_assoc).
    replace (S (List.length bu)) with (List.length (bu ++ [u]))
      by (rewrite length_app; simpl; lia).
    rewrite IH.
    + reflexivity.
    + simpl in Hu. lia.
    + simpl in Hn. lia.
    + rewrite !length_app. simpl. lia.
Qed.

Lemma make_tasks_enough : forall (store_urls : list (option string))
    (store_names : list string) (n : nat),
  n <= List.length store_urls -> n <= List.length store_names ->
  make_tasks store_urls store_names (seq 0 n)
  = Ok (combine (firstn n store_urls) (firstn n store_names)).
Proof.
  intros urls names n Hu Hn.
  exact (make_tasks_from n urls names [] [] Hu Hn eq_refl).
Qed.

Lemma debug_listing_raises : forall (store_names : list string)
    (store_urls : list (option string)) (idx : list nat) (e : exn),
  debug_listing store_names store_urls idx = Raise e -> e = IndexError.
Proof.
  intros names urls idx. induction idx as [| i rest IH]; intros e H.
  - discriminate.
  - simpl in H. destruct (getitem names i) eqn:En; simpl in H.
    + destruct (getitem urls i) eqn:Eu; simpl in H.
      * now apply IH.
      * inversion H. subst. now apply getitem_raises in Eu.
    + inversion H. subst. now apply getitem_raises in En.
Qed.

Lemma debug_listing_in_range : forall (store_names : list string)
    (store_urls : list (option string)) (idx : list nat),
  (forall i : nat, In i idx ->
     i < List.length store_names /\ i < List.length store_urls) ->
  debug_listing store_names store_urls idx = Ok tt.
Proof.
  intros names urls idx. induction idx as [| i rest IH]; intros Hall.
  - reflexivity.
  - simpl. destruct (Hall i (or_introl eq_refl)) as [Hn Hu].
    unfold getitem at 1.
    destruct (nth_error names i) eqn:En;
      [| apply nth_error_None in En; lia].
    simpl. unfold getitem at 1.
    destruct (nth_error urls i) eqn:Eu;
      [| apply nth_error_None in Eu; lia].
    simpl. apply IH. intros j Hj. apply Hall. now right.
Qed.

Lemma tasks_wanted_to_nat : forall (adjust : bool) (max_stores : Z) (page : store_page),
  Z.to_nat
    (if adjust
     then Z.min (capped max_stores (h3_texts page))
            (Z.of_nat (List.length (collect_store_urls (store_card_hrefs page) [])))
     else capped max_stores (h3_texts page))
  = tasks_wanted adjust max_stores page.
Proof.
  intros adjust max_stores page. unfold tasks_wanted, stores_wanted.
  destruct adjust; lia.
Qed.

Lemma product_scraper_opened : forall (R : Type) (adjust : bool) (w : shop R)
    (fuel : nat) (query place : string) (max_stores : Z)
    (filename : option string) (headless debug_mode : bool) (page : store_page),
  (1 <= max_stores)%Z ->
  setup_extraction w query place headless = Ok page ->
  product_scraper_of adjust w fuel (PyStr query) (PyStr place) max_stores filename
    headless debug_mode
  = match (if debug_mode
           then debug_listing (collect_store_names (h3_texts page) [])
                  (collect_store_urls (store_card_hrefs page) [])
                  (seq 0 (List.length (collect_store_names (h3_texts page) [])))
           else Ok tt) with
    | Raise e => Some (mkShopLog true [] false, Raise e)
    | Ok _ =>
        match make_tasks (collect_store_urls (store_card_hrefs page) [])
                (collect_store_names (h3_texts page) [])
                (seq 0 (tasks_wanted adjust max_stores page)) with
        | Raise e => Some (mkShopLog true [] false, Raise e)
        | Ok tasks => run_tasks w fuel (checked_filename filename) headless tasks
        end
    end.
Proof.
  intros R adjust w fuel query place max_stores filename headless debug page
    Hmax Hsetup.
  unfold product_scraper_of.
  assert (E : (max_stores <? 1)%Z = false) by (apply Z.ltb_ge; lia).
  rewrite E, Hsetup. cbv zeta. rewrite tasks_wanted_to_nat. reflexivity.
Qed.

Lemma product_scraper_short : forall (R : Type) (adjust : bool) (w : shop R)
    (fuel : nat) (query place : string) (max_stores : Z)
    (filename : option string) (headless debug_mode : bool) (page : store_page),
  (1 <= max_stores)%Z ->
  setup_extraction w query place headless = Ok page ->
  List.length (collect_store_names (h3_texts page) [])
    < tasks_wanted adjust max_stores page \/
  List.length (collect_store_urls (store_card_hrefs page) [])
    < tasks_wanted adjust max_stores page ->
  product_scraper_of adjust w fuel (PyStr query) (PyStr place) max_stores filename
    headless debug_mode
  = Some (mkShopLog true [] false, Raise IndexError).
Proof.
  intros R adjust w fuel query place max_stores filename headless debug page
    Hmax Hsetup Hshort.
  rewrite (product_scraper_opened R adjust w fuel query place max_stores filename
             headless debug page Hmax Hsetup).
  rewrite (make_tasks_short _ _ _ Hshort).
  destruct debug; [| reflexivity].
  destruct (debug_listing _ _ _) as [u | e] eqn:E; [reflexivity |].
  apply debug_listing_raises in E. now subst e.
Qed.

(** X9.  The tasks are the first links paired with the first names, position
    by position, as many as [max_stores] and the number of headings allow (in
    [nels_companalysis.py] also the number of links); when there are fewer
    distinct names or links than that, the call raises [IndexError] with the
    browser open and nothing computed or saved. *)
Theorem tasks_pair_links_with_names_or_raise :
  forall (R : Type) (adjust : bool) (w : shop R) (fuel : nat)
    (query place : string) (max_stores : Z) (filename : option string)
    (headless debug_mode : bool) (page : store_page),
  (1 <= max_stores)%Z ->
  setup_extraction w query place headless = Ok page ->
  (List.length (collect_store_names (h3_texts page) [])
     < tasks_wanted adjust max_stores page \/
   List.length (collect_store_urls (store_card_hrefs page) [])
     < tasks_wanted adjust max_stores page ->
   product_scraper_of adjust w fuel (PyStr query) (PyStr place) max_stores
     filename headless debug_mode
   = Some (mkShopLog true [] false, Raise IndexError)) /\
  (tasks_wanted adjust max_stores page
     <= List.length (collect_store_names (h3_texts page) []) ->
   tasks_wanted adjust max_stores page
     <= List.length (collect_store_urls (store_card_hrefs page) []) ->
   (debug_mode = true ->
    List.length (collect_store_names (h3_texts page) [])
    <= List.length (collect_store_urls (store_card_hrefs page) [])) ->
   product_scraper_of adjust w fuel (PyStr query) (PyStr place) max_stores
     filename headless debug_mode
   = run_tasks w fuel (checked_filename filename) headless
       (combine
          (firstn (tasks_wanted adjust max_stores page)
             (collect_store_urls (store_card_hrefs page) []))
          (firstn (tasks_wanted adjust max_stores page)
             (collect_store_names (h3_texts page) [])))).
Proof.
  intros R adjust w fuel query place max_stores filename headless debug page
    Hmax Hsetup.
  split.
  - apply (product_scraper_short R adjust w fuel query place max_stores filename
             headless debug page Hmax Hsetup).
  - intros Hn Hu Hdebug.
    rewrite (product_scraper_opened R adjust w fuel query place max_stores
               filename headless debug page Hmax Hsetup).
    rewrite (make_tasks_enough _ _ _ Hu Hn).
    destruct debug; [| reflexivity].
    rewrite debug_listing_in_range; [reflexivity |].
    intros i Hi. apply in_seq in Hi. specialize (Hdebug eq_refl). lia.
Qed.

Lemma tasks_pair_links_with_names_or_raise_witness :
  (1 <= 2)%Z /\
  product_scraper sample_shop 5 (PyStr "churros") (PyStr "Madrid") 2 None true false
  = run_tasks sample_shop 5 None true
      [(Some "/store/ana", "Churros Ana"); (Some "/store/moro", "El Moro")]%string /\
  product_scraper sample_shop 5 (PyStr "churros") (PyStr "Madrid") 3 None true false
  = Some (mkShopLog true [] false, Raise IndexError).
Proof.
  split; [lia |]. split.
  - destruct (tasks_pair_links_with_names_or_raise string false sample_shop 5
                "churros" "Madrid" 2 None true false sample_page
                ltac:(lia) eq_refl) as [_ Hgood].
    apply Hgood; [vm_compute; lia | vm_compute; lia | discriminate].
  - destruct (tasks_pair_links_with_names_or_raise string false sample_shop 5
                "churros" "Madrid" 3 None true false sample_page
                ltac:(lia) eq_refl) as [Hbad _].
    apply Hbad. left. vm_compute. lia.
Defined.

(** X10.  With the default [max_stores] or any other that is not below the
    number of headings, one empty or repeated heading on the page is enough
    for [product_scraper] of [companalysis.py] to raise [IndexError]. *)
Theorem empty_or_repeated_heading_raises :
  forall (R : Type) (w : shop R) (fuel : nat) (query place : string)
    (max_stores : Z) (filename : option string) (headless debug_mode : bool)
    (page : store_page),
  (1 <= max_stores)%Z ->
  setup_extraction w query place headless = Ok page ->
  (Z.of_nat (List.length (h3_texts page)) <= max_stores)%Z ->
  In EmptyString (h3_texts page) \/ ~ NoDup (h3_texts page) ->
  product_scraper w fuel (PyStr query) (PyStr place) max_stores filename
    headless debug_mode
  = Some (mkShopLog true [] false, Raise IndexError).
Proof.
  intros R w fuel query place max_stores filename headless debug page
    Hmax Hsetup Hall Hbad.
  unfold product_scraper.
  apply (product_scraper_short R false w fuel query place max_stores filename
           headless debug page Hmax Hsetup).
  left. unfold tasks_wanted, stores_wanted, capped.
  assert (Hnil : NoDup (@nil string)) by constructor.
  assert (Hno : ~ In EmptyString (@nil string)) by (intros []).
  assert (Hlt : List.length (collect_store_names (h3_texts page) [])
                < List.length (h3_texts page)).
  { apply (collect_store_names_drops (h3_texts page) [] Hnil Hno).
    destruct Hbad as [H | H]; auto. }
  destruct (Z.of_nat (List.length (h3_texts page)) <? max_stores)%Z eqn:E.
  - lia.
  - apply Z.ltb_ge in E. lia.
Qed.

Lemma empty_or_repeated_heading_raises_witness :
  In EmptyString (h3_texts sample_page) /\
  product_scraper sample_shop 5 (PyStr "churros") (PyStr "Madrid") 50
    (Some "menu"%string) true false
  = Some (mkShopLog true [] false, Raise IndexError).
Proof.
  assert (Hin : In EmptyString (h3_texts sample_page)) by (simpl; auto).
  split; [exact Hin |].
  apply (empty_or_repeated_heading_raises string sample_shop 5 "churros" "Madrid"
           50 (Some "menu"%string) true false sample_page).
  - lia.
  - reflexivity.
  - simpl. lia.
  - left. exact Hin.
Defined.

(** ** Saving the frame *)

Lemma make_tasks_length : forall (store_urls : list (option string))
    (store_names : list string) (idx : list nat) (tasks : list task),
  make_tasks store_urls store_names idx = Ok tasks ->
  List.length tasks = List.length idx.
Proof.
  intros urls names idx. induction idx as [| i rest IH]; intros tasks H.
  - inversion H. reflexivity.
  - simpl in H. destruct (getitem urls i); simpl in H; [| discriminate].
    destruct (getitem names i); simpl in H; [| discriminate].
    destruct (make_tasks urls names rest) eqn:Er; simpl in H; [| discriminate].
    inversion H. simpl. f_equal. now apply IH.
Qed.

Lemma save_and_quit_log : forall (R : Type) (w : shop R) (fuel : nat)
    (filename : option string) (all_stores_df : list R) (log : shop_log)
    (r : result (list R)),
  save_and_quit w fuel filename all_stores_df = Some (log, r) ->
  opened log = true /\
  (quit log = true <-> r = Ok all_stores_df) /\
  (forall df, r = Ok df -> df = all_stores_df).
Proof.
  intros R w fuel filename df log r H. unfold save_and_quit in H.
  destruct filename as [[| c f] |].
  - inversion H; subst. simpl. intuition congruence.
  - destruct (to_csv w 0 (first_path (String c f)) df).
    + destruct (generate_unique_filename _ _ _ _ _) as [new_filename |];
        [| discriminate].
      destruct (to_csv w 1 (second_path new_filename) df);
        inversion H; subst; simpl; intuition congruence.
    + inversion H; subst. simpl. intuition congruence.
  - inversion H; subst. simpl. intuition congruence.
Qed.

(** X11.  [browser.quit()] is reached exactly when the call returns: every
    exception raised after the browser was opened leaves it open. A call that
    returns had valid arguments, made as many tasks as were asked for, and
    returns the results of the tasks, concatenated in their order. *)
Theorem browser_is_quit_exactly_when_the_call_returns :
  forall (R : Type) (adjust : bool) (w : shop R) (fuel : nat)
    (search_query location : pyobj) (max_stores : Z) (filename : option string)
    (headless debug_mode : bool) (log : shop_log) (r : result (list R)),
  product_scraper_of adjust w fuel search_query location max_stores filename
    headless debug_mode = Some (log, r) ->
  (quit log = true <-> exists df, r = Ok df) /\
  (opened log = false -> csv_paths log = []) /\
  (forall df : list R, r = Ok df ->
     opened log = true /\ (1 <= max_stores)%Z /\
     exists (query place : string) (page : store_page) (tasks : list task)
            (results : list (list R)),
       search_query = PyStr query /\ location = PyStr place /\
       setup_extraction w query place headless = Ok page /\
       List.length tasks = tasks_wanted adjust max_stores page /\
       dask_compute w tasks headless = Ok results /\
       df = List.concat results).
Proof.
  intros R adjust w fuel sq loc max_stores filename headless debug log r H.
  assert (Hfail : forall e : exn, forall o : bool,
            Some (mkShopLog o [] false, @Raise (list R) e) = Some (log, r) ->
            (quit log = true <-> exists df, r = Ok df) /\
            (opened log = false -> csv_paths log = []) /\
            (forall df : list R, r = Ok df ->
               opened log = true /\ (1 <= max_stores)%Z /\
               exists (query place : string) (page : store_page)
                      (tasks : list task) (results : list (list R)),
                 sq = PyStr query /\ loc = PyStr place /\
                 setup_extraction w query place headless = Ok page /\
                 List.length tasks = tasks_wanted adjust max_stores page /\
                 dask_compute w tasks headless = Ok results /\
                 df = List.concat results)).
  { intros e o E. inversion E; subst. simpl. split; [| split].
    - split; [discriminate | intros [df Hdf]; discriminate].
    - reflexivity.
    - intros df Hdf. discriminate. }
  destruct (max_stores <? 1)%Z eqn:Emax.
  { unfold product_scraper_of in H. rewrite Emax in H. eapply Hfail, H. }
  apply Z.ltb_ge in Emax.
  destruct sq as [query |].
  2:{ unfold product_scraper_of in H.
      destruct (max_stores <? 1)%Z; eapply Hfail, H. }
  destruct loc as [place |].
  2:{ unfold product_scraper_of in H.
      destruct (max_stores <? 1)%Z; eapply Hfail, H. }
  destruct (setup_extraction w query place headless) as [page | e] eqn:Esetup.
  2:{ unfold product_scraper_of in H. rewrite Esetup in H.
      destruct (max_stores <? 1)%Z; eapply Hfail, H. }
  rewrite (product_scraper_opened R adjust w fuel query place max_stores filename
             headless debug page Emax Esetup) in H.
  destruct (if debug then _ else _) as [u | e]; [| eapply Hfail, H].
  destruct (make_tasks _ _ _) as [tasks | e] eqn:Etasks; [| eapply Hfail, H].
  unfold run_tasks in H.
  destruct (dask_compute w tasks headless) as [results | e] eqn:Eresults;
    [| eapply Hfail, H].
  destruct (save_and_quit_log R w fuel _ _ log r H) as (Hopen & Hquit & Hdf).
  split; [| split].
  - rewrite Hquit. split; [eauto |]. intros [df E]. rewrite E. f_equal.
    now apply Hdf.
  - intros Hclosed. congruence.
  - intros df E. split; [assumption |]. split; [assumption |].
    exists query, place, page, tasks, results.
    repeat split; try assumption; try reflexivity.
    + apply make_tasks_length in Etasks. now rewrite length_seq in Etasks.
    + now apply Hdf.
Qed.

Lemma browser_is_quit_exactly_when_the_call_returns_witness :
  product_scraper sample_shop 5 (PyStr "churros") (PyStr "Madrid") 2
    (Some "menu.csv"%string) true false
  = Some (mkShopLog true ["pricing files/menu.csv";
                          "pricing files/pricing files/menu_1.csv.csv"]%string true,
          Ok ["Churros Ana"; "El Moro"]%string) /\
  (quit (mkShopLog true ["pricing files/menu.csv";
                         "pricing files/pricing files/menu_1.csv.csv"]%string true)
   = true <->
   exists df, Ok ["Churros Ana"; "El Moro"]%string = Ok df).
Proof.
  assert (H : product_scraper sample_shop 5 (PyStr "churros") (PyStr "Madrid") 2
                (Some "menu.csv"%string) true false
              = Some (mkShopLog true ["pricing files/menu.csv";
                        "pricing files/pricing files/menu_1.csv.csv"]%string true,
                      Ok ["Churros Ana"; "El Moro"]%string))
    by (vm_compute; reflexivity).
  split; [exact H |].
  exact (proj1 (browser_is_quit_exactly_when_the_call_returns string false
                  sample_shop 5 (PyStr "churros") (PyStr "Madrid") 2
                  (Some "menu.csv"%string) true false _ _ H)).
Defined.



(** * The maps scraper *)

(** ** The duplicate test *)

Lemma option_string_eqb_eq : forall a b : option string,
  option_string_eqb a b = true <-> a = b.
Proof.
  intros [x |] [y |]; simpl; split; intro H; try discriminate; try reflexivity.
  - apply String.eqb_eq in H. now subst.
  - inversion H. apply String.eqb_refl.
Qed.

Lemma existsb_option_In : forall (a : option string) (l : list (option string)),
  existsb (option_string_eqb a) l = true <-> In a l.
Proof.
  intros a l. rewrite existsb_exists. split.
  - intros (x & Hin & E). apply option_string_eqb_eq in E. now subst.
  - intros Hin. exists a. split; [assumption | now apply option_string_eqb_eq].
Qed.

Lemma duplicate_check_cases : forall (a : option string) (n : string) (s : seen),
  (In a (all_addresses s) -> In n (all_place_names s) ->
   duplicate_check a n s = (true, s)) /\
  (In a (all_addresses s) -> ~ In n (all_place_names s) ->
   duplicate_check a n s = (false, s)) /\
  (~ In a (all_addresses s) ->
   duplicate_check a n s
   = (false, mkSeen (visits s) (all_addresses s ++ [a]) (all_place_names s ++ [n]))).
Proof.
  intros a n s. unfold duplicate_check.
  destruct (existsb (option_string_eqb a) (all_addresses s)) eqn:Ea.
  - apply existsb_option_In in Ea.
    destruct (existsb (String.eqb n) (all_place_names s)) eqn:En.
    + apply existsb_eqb_In in En. repeat split; intros; tauto.
    + assert (Hn : ~ In n (all_place_names s)).
      { intro Hin. apply existsb_eqb_In in Hin. congruence. }
      repeat split; intros; tauto.
  - assert (Ha : ~ In a (all_addresses s)).
    { intro Hin. apply existsb_option_In in Hin. congruence. }
    repeat split; intros; tauto.
Qed.

Lemma extract_place_info_loaded : forall (w : maps) (place_url : option string)
    (location search_query : string) (s : seen) (page : place_page) (h : header),
  open_place w (visits s) place_url = Ok page ->
  page_header page = Some h ->
  extract_place_info w place_url location search_query s
  = let checked := duplicate_check (contact_address (page_contact page))
                     (header_name h) (loaded s) in
    if fst checked then (snd checked, Ok Skip)
    else
      let info := fun emails : option string =>
        mkPlaceInfo search_query location (header_name h)
          (header_description h) (header_stars h) (header_reviews h)
          (contact_address (page_contact page)) (contact_phone (page_contact page))
          emails (contact_website (page_contact page)) (header_price h) in
      match contact_website (page_contact page) with
      | Some site =>
          match extract_emails w (visits (snd checked)) site with
          | Raise e => (loaded (snd checked), Raise e)
          | Ok unique_emails_str =>
              (loaded (snd checked), Ok (Place (info (Some unique_emails_str))))
          end
      | None => (snd checked, Ok (Place (info None)))
      end.
Proof.
  intros w url loc q s page h Hopen Hh.
  unfold extract_place_info, page_header, page_contact in *. rewrite Hopen.
  destruct (temporarily_closed (split_char "010" (header_text page)));
    [discriminate |].
  now rewrite Hh.
Qed.

Lemma option_string_dec : forall a b : option string, {a = b} + {a <> b}.
Proof.
  decide equality. apply string_dec.
Qed.

Ltac place_table :=
  repeat split; auto; try discriminate; try tauto;
  try match goal with
      | H : Ok (Place _) = Ok (Place _) |- _ => injection H as <-; reflexivity
      end;
  try (intros; congruence).

(** X13.  The test of lines 129-134 looks for the address and for the name
    separately. A place is skipped exactly when its address is listed and its
    name is listed, be it with another address. A place at a listed address
    under a name that is not listed is returned and nothing is listed, so it
    is returned at every visit. A place at a new address is listed before its
    website is read: when that fails the place is not returned, and being
    listed it is skipped from then on. *)
Theorem skipped_iff_address_and_name_both_listed :
  forall (w : maps) (place_url : option string) (location search_query : string)
    (s : seen) (page : place_page) (h : header),
  open_place w (visits s) place_url = Ok page ->
  page_header page = Some h ->
  (snd (extract_place_info w place_url location search_query s) = Ok Skip <->
   In (contact_address (page_contact page)) (all_addresses s) /\
   In (header_name h) (all_place_names s)) /\
  (In (contact_address (page_contact page)) (all_addresses s) ->
   all_addresses (fst (extract_place_info w place_url location search_query s))
   = all_addresses s /\
   all_place_names (fst (extract_place_info w place_url location search_query s))
   = all_place_names s) /\
  (~ In (contact_address (page_contact page)) (all_addresses s) ->
   all_addresses (fst (extract_place_info w place_url location search_query s))
   = all_addresses s ++ [contact_address (page_contact page)] /\
   all_place_names (fst (extract_place_info w place_url location search_query s))
   = all_place_names s ++ [header_name h]) /\
  (forall info : place_info,
     snd (extract_place_info w place_url location search_query s) = Ok (Place info) ->
     address info = contact_address (page_contact page) /\
     place_name info = header_name h /\
     info_search_query info = search_query /\ info_location info = location) /\
  (forall (site : string) (e : exn),
     contact_website (page_contact page) = Some site ->
     extract_emails w (S (visits s)) site = Raise e ->
     ~ (In (contact_address (page_contact page)) (all_addresses s) /\
        In (header_name h) (all_place_names s)) ->
     snd (extract_place_info w place_url location search_query s) = Raise e).
Proof.
  intros w url loc q s page h Hopen Hh.
  rewrite (extract_place_info_loaded w url loc q s page h Hopen Hh).
  destruct (duplicate_check_cases (contact_address (page_contact page))
              (header_name h) (loaded s)) as (Hboth & Hname & Hnew).
  cbn [loaded all_addresses all_place_names visits] in Hboth, Hname, Hnew.
  cbv zeta.
  destruct (in_dec option_string_dec
              (contact_address (page_contact page)) (all_addresses s))
    as [Ha | Ha];
    [destruct (in_dec string_dec (header_name h) (all_place_names s)) as [Hn | Hn];
     [rewrite (Hboth Ha Hn) | rewrite (Hname Ha Hn)]
    | rewrite (Hnew Ha)];
    cbn [fst snd loaded visits];
    try (destruct (contact_website (page_contact page)) as [site |] eqn:Esite;
         [destruct (extract_emails w (S (visits s)) site) as [found | e'] eqn:Ee |]);
    cbn [fst snd loaded all_addresses all_place_names visits];
    place_table.
Qed.

Lemma skipped_iff_address_and_name_both_listed_witness :
  open_place sample_town 1 (Some "/ana-centro"%string) = Ok ana_centro_page /\
  page_header ana_centro_page
  = Some (mkHeader "Churros Ana Centro" None None None (Some "Bakery"%string)) /\
  all_addresses
    (fst (extract_place_info sample_town (Some "/ana-centro"%string) "Madrid"
            "churros" (mkSeen 1 [Some "1 Main St"%string] ["Churros Ana"%string])))
  = [Some "1 Main St"%string] /\
  all_place_names
    (fst (extract_place_info sample_town (Some "/ana-centro"%string) "Madrid"
            "churros" (mkSeen 1 [Some "1 Main St"%string] ["Churros Ana"%string])))
  = ["Churros Ana"%string].
Proof.
  split; [reflexivity |]. split; [reflexivity |].
  destruct (skipped_iff_address_and_name_both_listed sample_town
              (Some "/ana-centro"%string) "Madrid" "churros"
              (mkSeen 1 [Some "1 Main St"%string] ["Churros Ana"%string])
              ana_centro_page
              (mkHeader "Churros Ana Centro" None None None (Some "Bakery"%string))
              eq_refl eq_refl) as (_ & Hkept & _).
  apply Hkept. simpl. auto.
Defined.

(** ** What one visit does to the lists *)

Lemma extract_place_info_unreadable : forall (w : maps) (place_url : option string)
    (location search_query : string) (s : seen) (page : place_page),
  open_place w (visits s) place_url = Ok page ->
  page_header page = None ->
  extract_place_info w place_url location search_query s = (loaded s, Ok Skip).
Proof.
  intros w url loc q s page Hopen Hh.
  unfold extract_place_info, page_header in *. rewrite Hopen.
  destruct (temporarily_closed (split_char "010" (header_text page)));
    [reflexivity |].
  now rewrite Hh.
Qed.

Lemma extract_place_info_effect : forall (w : maps) (place_url : option string)
    (location search_query : string) (s : seen),
  visits s < visits (fst (extract_place_info w place_url location search_query s)) /\
  ((all_addresses (fst (extract_place_info w place_url location search_query s))
    = all_addresses s /\
    all_place_names (fst (extract_place_info w place_url location search_query s))
    = all_place_names s /\
    forall info : place_info,
      snd (extract_place_info w place_url location search_query s) = Ok (Place info) ->
      In (address info) (all_addresses s) /\
      ~ In (place_name info) (all_place_names s)) \/
   (exists (a : option string) (n : string),
      ~ In a (all_addresses s) /\
      all_addresses (fst (extract_place_info w place_url location search_query s))
      = all_addresses s ++ [a] /\
      all_place_names (fst (extract_place_info w place_url location search_query s))
      = all_place_names s ++ [n] /\
      forall info : place_info,
        snd (extract_place_info w place_url location search_query s)
        = Ok (Place info) ->
        address info = a /\ place_name info = n)).
Proof.
  intros w url loc q s.
  destruct (open_place w (visits s) url) as [page | e] eqn:Hopen.
  2:{ unfold extract_place_info. rewrite Hopen. cbn [fst snd loaded visits
        all_addresses all_place_names].
      split; [lia |]. left. repeat split. discriminate. discriminate. }
  destruct (page_header page) as [h |] eqn:Hh.
  2:{ rewrite (extract_place_info_unreadable w url loc q s page Hopen Hh).
      cbn [fst snd loaded visits all_addresses all_place_names].
      split; [lia |]. left. repeat split; discriminate. }
  rewrite (extract_place_info_loaded w url loc q s page h Hopen Hh).
  destruct (duplicate_check_cases (contact_address (page_contact page))
              (header_name h) (loaded s)) as (Hboth & Hname & Hnew).
  cbn [loaded all_addresses all_place_names visits] in Hboth, Hname, Hnew.
  cbv zeta.
  destruct (in_dec option_string_dec
              (contact_address (page_contact page)) (all_addresses s))
    as [Ha | Ha];
    [destruct (in_dec string_dec (header_name h) (all_place_names s)) as [Hn | Hn];
     [rewrite (Hboth Ha Hn) | rewrite (Hname Ha Hn)]
    | rewrite (Hnew Ha)];
    cbn [fst snd loaded visits];
    try (destruct (contact_website (page_contact page)) as [site |] eqn:Esite;
         [destruct (extract_emails w (S (visits s)) site) as [found | e'] eqn:Ee |]);
    cbn [fst snd loaded all_addresses all_place_names visits];
    (split; [lia |]).
  1-6: left; split; [reflexivity |]; split; [reflexivity |];
       intros info H; try discriminate;
       injection H as <-; cbn [address place_name]; split; assumption.
  all: right; exists (contact_address (page_contact page)), (header_name h);
       split; [assumption |]; split; [reflexivity |]; split; [reflexivity |];
       intros info H; try discriminate;
       injection H as <-; cbn [address place_name]; split; reflexivity.
Qed.

Lemma same_place_true : forall (a : option string) (n : string) (row : place_info),
  same_place a n row = true <-> address row = a /\ place_name row = n.
Proof.
  intros a n row. unfold same_place. rewrite andb_true_iff.
  rewrite option_string_eqb_eq, String.eqb_eq. tauto.
Qed.

Lemma times_returned_app : forall (a : option string) (n : string)
    (rows more : list place_info),
  times_returned a n (rows ++ more)
  = times_returned a n rows + times_returned a n more.
Proof.
  intros a n rows more. unfold times_returned.
  now rewrite filter_app, length_app.
Qed.

Lemma times_returned_elsewhere : forall (a : option string) (n : string)
    (rows : list place_info),
  (forall row, In row rows -> address row <> a) ->
  times_returned a n rows = 0.
Proof.
  intros a n rows. unfold times_returned.
  induction rows as [| row rows IH]; intros H; [reflexivity |].
  simpl. destruct (same_place a n row) eqn:E.
  - apply same_place_true in E. destruct E as [E _].
    exfalso. apply (H row); simpl; auto.
  - apply IH. intros r Hr. apply H. now right.
Qed.

Lemma recorded_listed : forall (a : option string) (n : string)
    (la : list (option string)) (ln : list string),
  List.length la = List.length ln ->
  combine (la ++ [a]) (ln ++ [n]) = combine la ln ++ [(a, n)].
Proof.
  intros a n la. induction la as [| x la IH]; intros ln Hlen.
  - destruct ln; [reflexivity | discriminate].
  - destruct ln as [| y ln]; [discriminate |]. simpl. f_equal.
    apply IH. simpl in Hlen. lia.
Qed.

Lemma tidy_fewer : forall (s : seen) (rows more : list place_info),
  tidy s (rows ++ more) -> tidy s rows.
Proof.
  intros s rows more (Hnd & Hlen & Hin & Hcount).
  split; [assumption |]. split; [assumption |]. split.
  - intros row Hrow. apply Hin. rewrite in_app_iff. now left.
  - intros a n Hrec. specialize (Hcount a n Hrec).
    rewrite times_returned_app in Hcount. lia.
Qed.

Lemma tidy_loaded : forall (s : seen) (rows : list place_info),
  tidy s rows -> tidy (loaded s) rows.
Proof.
  intros s rows H. exact H.
Qed.

Lemma tidy_visit : forall (w : maps) (place_url : option string)
    (location search_query : string) (s : seen) (rows : list place_info),
  tidy s rows ->
  tidy (fst (extract_place_info w place_url location search_query s)) rows /\
  forall info : place_info,
    snd (extract_place_info w place_url location search_query s) = Ok (Place info) ->
    tidy (fst (extract_place_info w place_url location search_query s))
      (rows ++ [info]).
Proof.
  intros w url loc q s rows (Hnd & Hlen & Hin & Hcount).
  destruct (extract_place_info_effect w url loc q s) as [_ Heffect].
  destruct (extract_place_info w url loc q s) as [s' r]. cbn [fst snd] in *.
  destruct Heffect as [(Ea & En & Hinfo) | (a & n & Hnew & Ea & En & Hinfo)].
  - assert (Hrec : recorded s' = recorded s).
    { unfold recorded. now rewrite Ea, En. }
    split.
    + unfold tidy. rewrite Ea, En, Hrec. auto.
    + intros info Hr. destruct (Hinfo info Hr) as [Haddr Hname].
      unfold tidy. rewrite Ea, En, Hrec.
      split; [assumption |]. split; [assumption |]. split.
      * intros row Hrow. apply in_app_iff in Hrow.
        destruct Hrow as [Hrow | [<- | []]]; auto.
      * intros a n Hrec'. rewrite times_returned_app.
        specialize (Hcount a n Hrec').
        assert (E : times_returned a n [info] = 0).
        { unfold times_returned. simpl.
          destruct (same_place a n info) eqn:Esame; [| reflexivity].
          apply same_place_true in Esame. destruct Esame as [_ Esame].
          exfalso. apply Hname. rewrite Esame.
          unfold recorded in Hrec'. eapply in_combine_r. eassumption. }
        lia.
  - assert (Hrec : recorded s' = recorded s ++ [(a, n)]).
    { unfold recorded. rewrite Ea, En.
      now apply recorded_listed. }
    assert (Hnd' : NoDup (all_addresses s ++ [a])).
    { apply NoDup_app; [assumption | repeat constructor; auto |].
      intros x Hx [E | []]. now subst. }
    assert (Hold : forall a0 n0, In (a0, n0) (recorded s ++ [(a, n)]) ->
                     times_returned a0 n0 rows <= 1).
    { intros a0 n0 Hrec0. apply in_app_iff in Hrec0.
      destruct Hrec0 as [Hrec0 | [E | []]]; [now apply Hcount |].
      inversion E; subst a0 n0.
      rewrite times_returned_elsewhere; [lia |].
      intros row Hrow E'. apply Hnew. rewrite <- E'. now apply Hin. }
    split.
    + unfold tidy. rewrite Ea, En, Hrec.
      split; [assumption |]. split; [rewrite !length_app; simpl; lia |].
      split; [| assumption].
      intros row Hrow. apply in_app_iff. left. now apply Hin.
    + intros info Hr. destruct (Hinfo info Hr) as [Haddr Hname].
      unfold tidy. rewrite Ea, En, Hrec.
      split; [assumption |]. split; [rewrite !length_app; simpl; lia |].
      split.
      * intros row Hrow. apply in_app_iff in Hrow. apply in_app_iff.
        destruct Hrow as [Hrow | [<- | []]]; [left; now apply Hin |].
        right. rewrite Haddr. simpl. auto.
      * intros a0 n0 Hrec0. rewrite times_returned_app.
        apply in_app_iff in Hrec0.
        destruct Hrec0 as [Hrec0 | [E | []]].
        -- specialize (Hcount a0 n0 Hrec0).
           assert (E : times_returned a0 n0 [info] = 0).
           { unfold times_returned. simpl.
             destruct (same_place a0 n0 info) eqn:Esame; [| reflexivity].
             apply same_place_true in Esame. destruct Esame as [Esame _].
             exfalso. apply Hnew. rewrite <- Haddr, Esame.
             unfold recorded in Hrec0. eapply in_combine_l. eassumption. }
           lia.
        -- inversion E; subst a0 n0.
           rewrite times_returned_elsewhere.
           ++ unfold times_returned. simpl.
              destruct (same_place a n info); simpl; lia.
           ++ intros row Hrow E'. apply Hnew. rewrite <- E'. now apply Hin.
Qed.

(** ** One search *)

Lemma place_loop_tidy : forall (w : maps) (location search_query : string)
    (max_places_to_find : Z) (place_urls : list (option string)) (s : seen)
    (place_info_list others : list place_info),
  tidy s (others ++ place_info_list) ->
  tidy (fst (place_loop w place_urls location search_query max_places_to_find s
               place_info_list))
    (others ++ snd (place_loop w place_urls location search_query
                      max_places_to_find s place_info_list)).
Proof.
  intros w loc q m urls. induction urls as [| url rest IH]; intros s l others Ht.
  - exact Ht.
  - simpl place_loop.
    destruct (tidy_visit w url loc q s (others ++ l) Ht) as [Hsame Hmore].
    destruct (extract_place_info w url loc q s) as [s' [[| info] | e]];
      cbn [fst snd] in *.
    + now apply IH.
    + specialize (Hmore info eq_refl). rewrite <- app_assoc in Hmore.
      destruct (m <=? Z.of_nat (List.length (l ++ [info])))%Z;
        [exact Hmore | now apply IH].
    + destruct (m <=? Z.of_nat (List.length l))%Z; [exact Hsame | now apply IH].
Qed.

Lemma place_loop_length : forall (w : maps) (location search_query : string)
    (max_places_to_find : Z) (place_urls : list (option string)) (s : seen)
    (place_info_list : list place_info),
  List.length (snd (place_loop w place_urls location search_query
                      max_places_to_find s place_info_list))
  <= Nat.max (S (List.length place_info_list)) (Z.to_nat max_places_to_find) /\
  List.length (snd (place_loop w place_urls location search_query
                      max_places_to_find s place_info_list))
  <= List.length place_info_list + List.length place_urls.
Proof.
  intros w loc q m urls. induction urls as [| url rest IH]; intros s l.
  - cbn [place_loop snd List.length]. lia.
  - cbn [place_loop].
    destruct (extract_place_info w url loc q s) as [s' [[| info] | e]].
    + specialize (IH s' l). cbn [List.length]. lia.
    + destruct (m <=? Z.of_nat (List.length (l ++ [info])))%Z eqn:E.
      * cbn [snd]. rewrite length_app. cbn [List.length]. lia.
      * apply Z.leb_gt in E. specialize (IH s' (l ++ [info])).
        rewrite length_app in *. cbn [List.length] in *. lia.
    + destruct (m <=? Z.of_nat (List.length l))%Z eqn:E.
      * cbn [snd List.length]. lia.
      * specialize (IH s' l). cbn [List.length]. lia.
Qed.

(** X14.  A search returns at most [max_places_to_find] places and at most one
    per link of the results page; with a [max_places_to_find] below 1 it still
    returns the first place it can read. *)
Theorem search_returns_at_most_max_places :
  forall (w : maps) (search_url location search_query : string)
    (max_places_to_find max_num_scrolls : Z) (s : seen) (url_update_count : Z)
    (place_info_list : list place_info),
  snd (extract_search_results w search_url location search_query
         max_places_to_find max_num_scrolls s url_update_count)
  = Found place_info_list ->
  (Z.of_nat (List.length place_info_list) <= Z.max 1 max_places_to_find)%Z /\
  exists place_urls : list (option string),
    open_search w (visits s) search_url max_num_scrolls = Ok place_urls /\
    List.length place_info_list <= List.length place_urls /\
    url_update_count <> 0%Z.
Proof.
  intros w url loc q m scrolls s count l H.
  unfold extract_search_results in H.
  destruct (open_search w (visits s) url scrolls) as [urls | e]; [| discriminate].
  destruct (count =? 0)%Z eqn:Ecount; [discriminate |].
  apply Z.eqb_neq in Ecount. cbn [snd] in H. injection H as <-.
  destruct (place_loop_length w loc q m urls (loaded s) []) as [Hmax Hurls].
  simpl List.length in *. split; [lia |].
  exists urls. split; [reflexivity |]. split; [lia | assumption].
Qed.

Lemma search_returns_at_most_max_places_witness :
  exists place_info_list : list place_info,
    snd (extract_search_results sample_town "https://maps.example/churros"
           "Madrid" "churros" 2 3 (mkSeen 0 [] []) 3)
    = Found place_info_list /\
    (Z.of_nat (List.length place_info_list) <= Z.max 1 2)%Z.
Proof.
  destruct (snd (extract_search_results sample_town "https://maps.example/churros"
                   "Madrid" "churros" 2 3 (mkSeen 0 [] []) 3))
    as [place_info_list | | e] eqn:E.
  - exists place_info_list. split; [reflexivity |].
    exact (proj1 (search_returns_at_most_max_places sample_town
                    "https://maps.example/churros" "Madrid" "churros" 2 3
                    (mkSeen 0 [] []) 3 place_info_list E)).
  - vm_compute in E. discriminate E.
  - vm_compute in E. discriminate E.
Defined.

Lemma extract_search_results_tidy : forall (w : maps)
    (search_url location search_query : string)
    (max_places_to_find max_num_scrolls : Z) (s : seen) (url_update_count : Z)
    (others : list place_info),
  tidy s others ->
  tidy (fst (extract_search_results w search_url location search_query
               max_places_to_find max_num_scrolls s url_update_count)) others /\
  forall combo : list place_info,
    snd (extract_search_results w search_url location search_query
           max_places_to_find max_num_scrolls s url_update_count) = Found combo ->
    tidy (fst (extract_search_results w search_url location search_query
                 max_places_to_find max_num_scrolls s url_update_count))
      (others ++ combo).
Proof.
  intros w url loc q m scrolls s count others Ht.
  unfold extract_search_results.
  destruct (open_search w (visits s) url scrolls) as [urls | e].
  2:{ cbn [fst snd]. split; [exact Ht | discriminate]. }
  destruct (count =? 0)%Z.
  { cbn [fst snd]. split; [exact Ht | discriminate]. }
  cbn [fst snd].
  assert (Hloop : tidy (fst (place_loop w urls loc q m (loaded s) []))
                    (others ++ snd (place_loop w urls loc q m (loaded s) []))).
  { apply place_loop_tidy. rewrite app_nil_r. exact Ht. }
  split.
  - eapply tidy_fewer. exact Hloop.
  - intros combo E. injection E as <-. exact Hloop.
Qed.

(** ** All searches *)

Lemma search_loop_tidy : forall (w : maps) (max_places_to_find max_num_scrolls : Z)
    (export_by_search_query : bool) (url_update_count : Z)
    (pairs : list (string * string)) (sc : scrape),
  tidy (memory sc) (final_places_list sc) ->
  tidy (memory (search_loop w pairs max_places_to_find max_num_scrolls
                  export_by_search_query url_update_count sc))
    (final_places_list (search_loop w pairs max_places_to_find max_num_scrolls
                          export_by_search_query url_update_count sc)).
Proof.
  intros w m scrolls byq count pairs.
  induction pairs as [| [q loc] rest IH]; intros sc Ht; [exact Ht |].
  simpl search_loop.
  destruct (chrome_starts w (launched sc)); [| exact Ht].
  destruct (extract_search_results_tidy w (search_url_of q loc) loc q m scrolls
              (memory sc) count (final_places_list sc) Ht) as [Hsame Hmore].
  destruct (extract_search_results w (search_url_of q loc) loc q m scrolls
              (memory sc) count) as [s' [combo | | e]]; cbn [fst snd] in *.
  - specialize (Hmore combo eq_refl).
    destruct byq; [destruct (frame_to_csv w (export_name q) combo) |];
      apply IH; cbn [memory final_places_list]; assumption.
  - apply IH. exact Hsame.
  - apply IH. exact Hsame.
Qed.

Lemma maps_scraper_keeps_the_loop : forall (w : maps)
    (search_queries locations : list string)
    (max_places_to_find max_num_scrolls : Z) (export_final_filename : option string)
    (export_by_search_query : bool) (url_update_count : Z),
  memory (fst (maps_scraper w search_queries locations max_places_to_find
                 max_num_scrolls export_final_filename export_by_search_query
                 url_update_count))
  = memory (search_loop w (list_prod search_queries locations) max_places_to_find
              max_num_scrolls export_by_search_query url_update_count fresh_scrape) /\
  final_places_list
    (fst (maps_scraper w search_queries locations max_places_to_find
            max_num_scrolls export_final_filename export_by_search_query
            url_update_count))
  = final_places_list
      (search_loop w (list_prod search_queries locations) max_places_to_find
         max_num_scrolls export_by_search_query url_update_count fresh_scrape) /\
  bound (fst (maps_scraper w search_queries locations max_places_to_find
                max_num_scrolls export_final_filename export_by_search_query
                url_update_count))
  = bound (search_loop w (list_prod search_queries locations) max_places_to_find
             max_num_scrolls export_by_search_query url_update_count fresh_scrape) /\
  forall df : list place_info,
    snd (maps_scraper w search_queries locations max_places_to_find
           max_num_scrolls export_final_filename export_by_search_query
           url_update_count) = Ok df ->
    df = final_places_list
           (search_loop w (list_prod search_queries locations) max_places_to_find
              max_num_scrolls export_by_search_query url_update_count
              fresh_scrape).
Proof.
  intros w qs locs m scrolls fname byq count. unfold maps_scraper.
  destruct (bound (search_loop w (list_prod qs locs) m scrolls byq count
                     fresh_scrape)) eqn:Eb.
  - destruct fname as [[| c f] |]; cbn [fst snd memory final_places_list bound].
    + repeat split; auto. intros df E. now injection E as <-.
    + destruct (frame_to_csv w (export_path (String c f)) _);
        cbn [fst snd memory final_places_list bound];
        repeat split; auto; try discriminate.
      intros df E. now injection E as <-.
    + repeat split; auto. intros df E. now injection E as <-.
  - cbn [fst snd]. repeat split; auto. discriminate.
Qed.

(** X15.  What the duplicate test guarantees for a whole run: no address is
    listed twice, every address is listed with one name, the address of every
    row returned is listed, and an address is returned at most once under the
    name it is listed with. *)
Theorem listed_place_is_returned_at_most_once :
  forall (w : maps) (search_queries locations : list string)
    (max_places_to_find max_num_scrolls : Z) (export_final_filename : option string)
    (export_by_search_query : bool) (url_update_count : Z),
  NoDup (all_addresses
           (memory (fst (maps_scraper w search_queries locations
                           max_places_to_find max_num_scrolls
                           export_final_filename export_by_search_query
                           url_update_count)))) /\
  List.length
    (all_addresses
       (memory (fst (maps_scraper w search_queries locations max_places_to_find
                       max_num_scrolls export_final_filename
                       export_by_search_query url_update_count))))
  = List.length
      (all_place_names
         (memory (fst (maps_scraper w search_queries locations max_places_to_find
                         max_num_scrolls export_final_filename
                         export_by_search_query url_update_count)))) /\
  forall df : list place_info,
    snd (maps_scraper w search_queries locations max_places_to_find
           max_num_scrolls export_final_filename export_by_search_query
           url_update_count) = Ok df ->
    (forall row : place_info, In row df ->
       In (address row)
          (all_addresses
             (memory (fst (maps_scraper w search_queries locations
                             max_places_to_find max_num_scrolls
                             export_final_filename export_by_search_query
                             url_update_count))))) /\
    (forall (a : option string) (n : string),
       In (a, n)
          (recorded
             (memory (fst (maps_scraper w search_queries locations
                             max_places_to_find max_num_scrolls
                             export_final_filename export_by_search_query
                             url_update_count)))) ->
       times_returned a n df <= 1).
Proof.
  intros w qs locs m scrolls fname byq count.
  destruct (maps_scraper_keeps_the_loop w qs locs m scrolls fname byq count)
    as (Em & _ & _ & Hdf).
  rewrite Em.
  assert (Hfresh : tidy (memory fresh_scrape) (final_places_list fresh_scrape)).
  { unfold tidy, fresh_scrape, recorded, times_returned. simpl.
    split; [constructor |]. split; [reflexivity |].
    split; [intros row [] | intros a n []]. }
  destruct (search_loop_tidy w m scrolls byq count (list_prod qs locs)
              fresh_scrape Hfresh) as (Hnd & Hlen & Hin & Hcount).
  split; [assumption |]. split; [assumption |].
  intros df E. rewrite (Hdf df E). split; assumption.
Qed.

(** ** Runs that find nothing *)

Lemma search_loop_zero : forall (w : maps) (max_places_to_find max_num_scrolls : Z)
    (export_by_search_query : bool) (pairs : list (string * string)) (sc : scrape),
  final_places_list (search_loop w pairs max_places_to_find max_num_scrolls
                       export_by_search_query 0 sc)
  = final_places_list sc /\
  exported (search_loop w pairs max_places_to_find max_num_scrolls
              export_by_search_query 0 sc)
  = exported sc /\
  all_addresses (memory (search_loop w pairs max_places_to_find max_num_scrolls
                           export_by_search_query 0 sc))
  = all_addresses (memory sc) /\
  all_place_names (memory (search_loop w pairs max_places_to_find max_num_scrolls
                             export_by_search_query 0 sc))
  = all_place_names (memory sc) /\
  visits (memory (search_loop w pairs max_places_to_find max_num_scrolls
                    export_by_search_query 0 sc))
  <= visits (memory sc) + List.length pairs.
Proof.
  intros w m scrolls byq pairs.
  induction pairs as [| [q loc] rest IH]; intros sc.
  - cbn [search_loop List.length]. repeat split; lia.
  - cbn [search_loop List.length].
    destruct (chrome_starts w (launched sc)).
    2:{ cbn [final_places_list exported memory]. repeat split; lia. }
    unfold extract_search_results.
    destruct (open_search w (visits (memory sc)) (search_url_of q loc) scrolls)
      as [urls | e]; cbn [Z.eqb fst snd];
      match goal with
      | |- context [search_loop w rest m scrolls byq 0 ?sc'] =>
          destruct (IH sc') as (H1 & H2 & H3 & H4 & H5);
          cbn [final_places_list exported memory loaded all_addresses
               all_place_names visits] in H1, H2, H3, H4, H5;
          rewrite H1, H2, H3, H4; repeat split; lia
      end.
Qed.

(** X16.  With [url_update_count = 0] every search ends at the division of
    line 191, after its results page was loaded and before any place is
    opened, and the exception is caught: a run that returns returns no row,
    has listed no place and has written no file per search, and has loaded at
    most one page per pair of a query and a location. *)
Theorem zero_update_count_finds_nothing :
  forall (w : maps) (search_queries locations : list string)
    (max_places_to_find max_num_scrolls : Z) (export_final_filename : option string)
    (export_by_search_query : bool),
  final_places_list
    (fst (maps_scraper w search_queries locations max_places_to_find
            max_num_scrolls export_final_filename export_by_search_query 0))
  = [] /\
  all_addresses
    (memory (fst (maps_scraper w search_queries locations max_places_to_find
                    max_num_scrolls export_final_filename
                    export_by_search_query 0)))
  = [] /\
  visits
    (memory (fst (maps_scraper w search_queries locations max_places_to_find
                    max_num_scrolls export_final_filename
                    export_by_search_query 0)))
  <= List.length search_queries * List.length locations /\
  (forall df : list place_info,
     snd (maps_scraper w search_queries locations max_places_to_find
            max_num_scrolls export_final_filename export_by_search_query 0)
     = Ok df ->
     df = []) /\
  (forall (search_url location search_query : string) (s : seen),
     extract_search_results w search_url location search_query
       max_places_to_find max_num_scrolls s 0 = (loaded s, ZeroDivisionError) \/
     exists e : exn,
       extract_search_results w search_url location search_query
         max_places_to_find max_num_scrolls s 0 = (loaded s, BrowserError e)).
Proof.
  intros w qs locs m scrolls fname byq.
  destruct (maps_scraper_keeps_the_loop w qs locs m scrolls fname byq 0)
    as (Em & Ef & _ & Hdf).
  destruct (search_loop_zero w m scrolls byq (list_prod qs locs) fresh_scrape)
    as (H1 & _ & H3 & _ & H5).
  rewrite Em, Ef, H1, H3. rewrite length_prod in H5.
  cbn [fresh_scrape final_places_list memory all_addresses visits] in *.
  split; [reflexivity |]. split; [reflexivity |]. split; [lia |]. split.
  - intros df E. rewrite (Hdf df E). exact H1.
  - intros url loc q s. unfold extract_search_results.
    destruct (open_search w (visits s) url scrolls) as [urls | e];
      cbn [Z.eqb].
    + left. reflexivity.
    + right. exists e. reflexivity.
Qed.

Lemma list_prod_empty : forall (search_queries locations : list string),
  list_prod search_queries locations = [] <->
  search_queries = [] \/ locations = [].
Proof.
  intros qs locs. split.
  - intros H. apply (f_equal (@List.length (string * string))) in H.
    rewrite length_prod in H. simpl in H.
    destruct qs; [now left |]. destruct locs; [now right |]. simpl in H. lia.
  - intros [-> | ->]; [reflexivity |].
    induction qs as [| q qs IH]; [reflexivity | exact IH].
Qed.

Lemma search_loop_stays_bound : forall (w : maps)
    (max_places_to_find max_num_scrolls : Z) (export_by_search_query : bool)
    (url_update_count : Z) (pairs : list (string * string)) (sc : scrape),
  bound sc = true ->
  bound (search_loop w pairs max_places_to_find max_num_scrolls
           export_by_search_query url_update_count sc) = true.
Proof.
  intros w m scrolls byq count pairs.
  induction pairs as [| [q loc] rest IH]; intros sc Hb; [exact Hb |].
  cbn [search_loop].
  destruct (chrome_starts w (launched sc)); [| exact Hb].
  destruct (snd (extract_search_results w (search_url_of q loc) loc q m scrolls
                   (memory sc) count)) as [combo | | e].
  - destruct byq; [destruct (frame_to_csv w (export_name q) combo) |];
      apply IH; reflexivity.
  - apply IH. reflexivity.
  - apply IH. reflexivity.
Qed.

Lemma search_loop_first_browser : forall (w : maps)
    (max_places_to_find max_num_scrolls : Z) (export_by_search_query : bool)
    (url_update_count : Z) (pairs : list (string * string)),
  pairs <> [] ->
  (chrome_starts w 0 = true ->
   bound (search_loop w pairs max_places_to_find max_num_scrolls
            export_by_search_query url_update_count fresh_scrape) = true) /\
  (chrome_starts w 0 = false ->
   search_loop w pairs max_places_to_find max_num_scrolls
     export_by_search_query url_update_count fresh_scrape
   = mkScrape (mkSeen 0 [] []) 1 false [] []).
Proof.
  intros w m scrolls byq count pairs Hne.
  destruct pairs as [| [q loc] rest]; [congruence |].
  cbn [search_loop fresh_scrape launched]. split; intros Hc; rewrite Hc.
  - destruct (snd (extract_search_results w (search_url_of q loc) loc q m scrolls
                     (memory fresh_scrape) count))
      as [combo | | e].
    + destruct byq; [destruct (frame_to_csv w (export_name q) combo) |];
        apply search_loop_stays_bound; reflexivity.
    + apply search_loop_stays_bound; reflexivity.
    + apply search_loop_stays_bound; reflexivity.
  - reflexivity.
Qed.

(** X17.  [maps_scraper] returns a frame only when a browser has started. With
    no search query, with no location, or when the first [webdriver.Chrome]
    raises, [browser.quit()] of the outer [finally] reads an unbound name and
    the call raises [UnboundLocalError], with no page loaded and no file
    written. Otherwise the name is bound, and the call returns the rows kept,
    or raises what the final [to_csv] raised. *)
Theorem no_browser_then_UnboundLocalError :
  forall (w : maps) (search_queries locations : list string)
    (max_places_to_find max_num_scrolls : Z) (export_final_filename : option string)
    (export_by_search_query : bool) (url_update_count : Z),
  (search_queries = [] \/ locations = [] \/ chrome_starts w 0 = false ->
   snd (maps_scraper w search_queries locations max_places_to_find
          max_num_scrolls export_final_filename export_by_search_query
          url_update_count) = Raise UnboundLocalError /\
   exported (fst (maps_scraper w search_queries locations max_places_to_find
                    max_num_scrolls export_final_filename
                    export_by_search_query url_update_count)) = [] /\
   visits (memory (fst (maps_scraper w search_queries locations
                          max_places_to_find max_num_scrolls
                          export_final_filename export_by_search_query
                          url_update_count))) = 0) /\
  (search_queries <> [] -> locations <> [] -> chrome_starts w 0 = true ->
   bound (fst (maps_scraper w search_queries locations max_places_to_find
                 max_num_scrolls export_final_filename export_by_search_query
                 url_update_count)) = true /\
   (snd (maps_scraper w search_queries locations max_places_to_find
           max_num_scrolls export_final_filename export_by_search_query
           url_update_count)
    = Ok (final_places_list
            (fst (maps_scraper w search_queries locations max_places_to_find
                    max_num_scrolls export_final_filename
                    export_by_search_query url_update_count))) \/
    exists (name : string) (e : exn),
      export_final_filename = Some name /\ name <> EmptyString /\
      frame_to_csv w (export_path name)
        (final_places_list
           (fst (maps_scraper w search_queries locations max_places_to_find
                   max_num_scrolls export_final_filename
                   export_by_search_query url_update_count))) = Some e /\
      snd (maps_scraper w search_queries locations max_places_to_find
             max_num_scrolls export_final_filename export_by_search_query
             url_update_count) = Raise e)).
Proof.
  intros w qs locs m scrolls fname byq count. split.
  - intros Hnone. unfold maps_scraper.
    destruct (list_prod qs locs) as [| pair rest] eqn:Epairs.
    + cbn [search_loop fresh_scrape bound fst snd exported memory visits].
      repeat split.
    + destruct Hnone as [Hq | [Hl | Hc]].
      * assert (E : list_prod qs locs = []) by (apply list_prod_empty; auto).
        congruence.
      * assert (E : list_prod qs locs = []) by (apply list_prod_empty; auto).
        congruence.
      * destruct (search_loop_first_browser w m scrolls byq count (pair :: rest))
          as [_ Hstop]; [discriminate |].
        rewrite (Hstop Hc). cbn [bound fst snd exported memory visits].
        repeat split.
  - intros Hq Hl Hc.
    assert (Hne : list_prod qs locs <> []).
    { intros E. apply list_prod_empty in E. tauto. }
    destruct (search_loop_first_browser w m scrolls byq count (list_prod qs locs)
                Hne) as [Hstart _].
    specialize (Hstart Hc). unfold maps_scraper. rewrite Hstart.
    destruct fname as [[| c f] |]; cbn [fst snd bound final_places_list].
    + split; [assumption | now left].
    + destruct (frame_to_csv w (export_path (String c f)) _) as [e |] eqn:Ecsv;
        cbn [fst snd bound final_places_list].
      * split; [reflexivity |]. right. exists (String c f), e.
        split; [reflexivity |]. split; [discriminate |].
        split; [exact Ecsv | reflexivity].
      * split; [reflexivity | now left].
    + split; [assumption | now left].
Qed.

(** ** The file of a search query *)

Lemma extract_place_info_fields : forall (w : maps) (place_url : option string)
    (location search_query : string) (s : seen) (info : place_info),
  snd (extract_place_info w place_url location search_query s) = Ok (Place info) ->
  info_search_query info = search_query /\ info_location info = location.
Proof.
  intros w url loc q s info H. unfold extract_place_info in H.
  destruct (open_place w (visits s) url) as [page | e]; [| discriminate].
  destruct (temporarily_closed _); [discriminate |].
  destruct (header_fields _) as [h |]; [| discriminate].
  destruct (fst (duplicate_check _ _ _)); [discriminate |].
  destruct (contact_website _) as [site |].
  - destruct (extract_emails w _ site); [| discriminate].
    cbn [snd] in H. injection H as <-. split; reflexivity.
  - cbn [snd] in H. injection H as <-. split; reflexivity.
Qed.

Lemma place_loop_rows : forall (w : maps) (location search_query : string)
    (max_places_to_find : Z) (place_urls : list (option string)) (s : seen)
    (place_info_list : list place_info),
  (forall row, In row place_info_list ->
     info_search_query row = search_query /\ info_location row = location) ->
  forall row,
    In row (snd (place_loop w place_urls location search_query
                   max_places_to_find s place_info_list)) ->
    info_search_query row = search_query /\ info_location row = location.
Proof.
  intros w loc q m urls. induction urls as [| url rest IH]; intros s l Hl.
  - exact Hl.
  - cbn [place_loop].
    pose proof (extract_place_info_fields w url loc q s) as Hinfo.
    destruct (extract_place_info w url loc q s) as [s' [[| info] | e]];
      cbn [snd] in Hinfo.
    + now apply IH.
    + assert (Hl' : forall row, In row (l ++ [info]) ->
                      info_search_query row = q /\ info_location row = loc).
      { intros row Hrow. apply in_app_iff in Hrow.
        destruct Hrow as [Hrow | [<- | []]]; [now apply Hl | now apply Hinfo]. }
      destruct (m <=? Z.of_nat (List.length (l ++ [info])))%Z;
        [exact Hl' | now apply IH].
    + destruct (m <=? Z.of_nat (List.length l))%Z; [exact Hl | now apply IH].
Qed.

Lemma search_loop_exports : forall (w : maps)
    (max_places_to_find max_num_scrolls : Z) (export_by_search_query : bool)
    (url_update_count : Z) (all_pairs pairs : list (string * string))
    (sc : scrape),
  incl pairs all_pairs ->
  Forall (fun entry : string * list place_info =>
            exists q loc : string,
              In (q, loc) all_pairs /\ fst entry = export_name q /\
              forall row, In row (snd entry) ->
                info_search_query row = q /\ info_location row = loc)
         (exported sc) ->
  Forall (fun entry : string * list place_info =>
            exists q loc : string,
              In (q, loc) all_pairs /\ fst entry = export_name q /\
              forall row, In row (snd entry) ->
                info_search_query row = q /\ info_location row = loc)
         (exported (search_loop w pairs max_places_to_find max_num_scrolls
                      export_by_search_query url_update_count sc)).
Proof.
  intros w m scrolls byq count all_pairs pairs.
  induction pairs as [| [q loc] rest IH]; intros sc Hincl Hsc; [exact Hsc |].
  assert (Hrest : incl rest all_pairs).
  { intros x Hx. apply Hincl. now right. }
  assert (Hq : In (q, loc) all_pairs) by (apply Hincl; now left).
  cbn [search_loop].
  destruct (chrome_starts w (launched sc)); [| exact Hsc].
  assert (Hrows : forall combo,
            snd (extract_search_results w (search_url_of q loc) loc q m scrolls
                   (memory sc) count) = Found combo ->
            forall row, In row combo ->
              info_search_query row = q /\ info_location row = loc).
  { intros combo E. unfold extract_search_results in E.
    destruct (open_search w _ _ _) as [urls | e]; [| discriminate].
    destruct (count =? 0)%Z; [discriminate |].
    cbn [snd] in E. injection E as <-.
    apply place_loop_rows. intros row []. }
  destruct (snd (extract_search_results w (search_url_of q loc) loc q m scrolls
                   (memory sc) count)) as [combo | | e].
  - assert (Hmore : Forall (fun entry : string * list place_info =>
              exists q0 loc0 : string,
                In (q0, loc0) all_pairs /\ fst entry = export_name q0 /\
                forall row, In row (snd entry) ->
                  info_search_query row = q0 /\ info_location row = loc0)
              (exported sc ++ [(export_name q, combo)])).
    { apply Forall_app. split; [exact Hsc |]. constructor; [| constructor].
      exists q, loc. split; [assumption |]. split; [reflexivity |].
      now apply Hrows. }
    destruct byq; [destruct (frame_to_csv w (export_name q) combo) |];
      apply IH; assumption.
  - apply IH; assumption.
  - apply IH; assumption.
Qed.

(** X18.  With [export_by_search_query], the file of a query is written
    once for each of its locations whose search returns, always under the
    same name [QUERY Export.csv] and each time with the places of that one
    location only: what was written for an earlier location of the query is
    written over. *)
Theorem query_export_holds_one_location :
  forall (w : maps) (search_queries locations : list string)
    (max_places_to_find max_num_scrolls : Z) (url_update_count : Z),
  Forall (fun entry : string * list place_info =>
            exists q loc : string,
              In q search_queries /\ In loc locations /\
              fst entry = (q ++ " Export.csv")%string /\
              forall row, In row (snd entry) ->
                info_search_query row = q /\ info_location row = loc)
         (exported (fst (maps_scraper w search_queries locations
                           max_places_to_find max_num_scrolls None true
                           url_update_count))).
Proof.
  intros w qs locs m scrolls count.
  assert (E : exported (fst (maps_scraper w qs locs m scrolls None true count))
              = exported (search_loop w (list_prod qs locs) m scrolls true count
                            fresh_scrape)).
  { unfold maps_scraper. destruct (bound _); reflexivity. }
  rewrite E.
  pose proof (search_loop_exports w m scrolls true count (list_prod qs locs)
                (list_prod qs locs) fresh_scrape (incl_refl _)
                (Forall_nil _)) as H.
  eapply Forall_impl; [| exact H].
  intros entry (q & loc & Hin & Hname & Hrows).
  apply in_prod_iff in Hin. destruct Hin as [Hq Hl].
  exists q, loc. repeat split; try assumption; now apply Hrows.
Qed.

(** * Sample runs *)

(** With [report.csv] and [report_1.csv] taken, the name is [report_2.csv]. *)
Example unique_filename_sample :
  generate_unique_filename splitext_plain two_reports 5 "report.txt" ".csv"
  = Some "report_2.csv"%string.
Proof. reflexivity. Qed.

(** In the sample town one search returns the place at the listed address
    twice, under the name that is not listed, and never the place whose
    website does not load. *)
Example sample_search_names :
  match snd (extract_search_results sample_town "https://maps.example/churros"
               "Madrid" "churros" 10 3 (mkSeen 0 [] []) 3) with
  | Found place_info_list => map place_name place_info_list
  | _ => []
  end
  = ["Churros Ana"; "Churros Ana Centro"; "Churros Ana Centro"]%string.
Proof. vm_compute. reflexivity. Qed.
